(** * Spike-based sampling: bio/theo weight conversion, membrane-potential
      kernels and spike-train analytics

    A shallow embedding of the Python sources

      - [src/sbs/utils.py] and its older copy [src/utils.py]
        (membrane-potential distribution kernels, [fill_diagonal],
        [get_ordered_spike_idx]),
      - [src/network.py] ([BoltzmannMachineBase], [ThoroughBM]),
      - [src/gather_calibration_data.py],

    followed by the properties established about them.

    Numbers.  Weights, spike times and probabilities are modelled by exact
    rationals ([Qc], Leibniz equality); the membrane-potential kernels, whose
    behaviour on degenerate conductances is an IEEE-754 matter, are modelled
    on binary64 floats ([PrimFloat.float]). *)

From Stdlib Require Import ZArith QArith Qcanon Sorting.Sorted.
From Stdlib Require Import Floats.PrimFloat.
From stdpp Require Import base option list numbers strings gmap sorting.

Local Open Scope string_scope.
Local Open Scope list_scope.
Local Open Scope nat_scope.

(* ===================================================================== *)
(** * Python exceptions and the two effect monads                         *)
(* ===================================================================== *)

(** The exceptions the modelled code can raise.  [AssertionError] carries
    the assertion message (abbreviated). *)
Inductive exn : Type :=
  | AssertionError (msg : string)
  | IndexError
  | ValueError
  | TypeError
  | ZeroDivisionError
  | OverflowError
  | NameError (name : string)
  | AttributeError (attr : string)
  | RecursionError
  | MissingCalibrationError (params_id : Z).

(** Outcome of a call: a value, or a raised exception. *)
Inductive result (A : Type) : Type :=
  | Ok (a : A)
  | Err (e : exn).
Arguments Ok {A} a.
Arguments Err {A} e.

#[global] Instance result_ret : MRet result := fun _ a => Ok a.
#[global] Instance result_bind : MBind result := fun _ _ f m =>
  match m with
  | Ok a => f a
  | Err e => Err e
  end.
#[global] Instance result_fmap : FMap result := fun _ _ f m =>
  match m with
  | Ok a => Ok (f a)
  | Err e => Err e
  end.

Definition is_Ok {A} (r : result A) : bool :=
  match r with Ok _ => true | Err _ => false end.

(** Code that mutates an object: the state is threaded through, and it
    survives an exception (what was mutated before the raise stays
    mutated). *)
Definition M (S A : Type) : Type := S -> result A * S.

Definition ret_M {S A} (a : A) : M S A := fun s => (Ok a, s).
Definition raise_M {S A} (e : exn) : M S A := fun s => (Err e, s).
Definition bind_M {S A B} (m : M S A) (f : A -> M S B) : M S B :=
  fun s => match m s with
           | (Ok a, s') => f a s'
           | (Err e, s') => (Err e, s')
           end.
Definition lift_M {S A} (r : result A) : M S A := fun s => (r, s).
Definition get_M {S} : M S S := fun s => (Ok s, s).
Definition modify_M {S} (f : S -> S) : M S unit := fun s => (Ok tt, f s).

#[global] Instance M_ret {S} : MRet (M S) := fun _ a => ret_M a.
#[global] Instance M_bind {S} : MBind (M S) := fun _ _ f m => bind_M m f.
#[global] Instance M_fmap {S} : FMap (M S) := fun _ _ f m =>
  bind_M m (fun a => ret_M (f a)).

(** Python's [seq[i]] for an integer [i]: negative indices count from the
    end, anything outside [-len, len) raises [IndexError]. *)
Definition py_norm_index (len : nat) (i : Z) : option nat :=
  if (0 <=? i)%Z then
    (if (i <? Z.of_nat len)%Z then Some (Z.to_nat i) else None)
  else
    (if (- Z.of_nat len <=? i)%Z then Some (Z.to_nat (Z.of_nat len + i)) else None).

Definition py_getitem {A} (l : list A) (i : Z) : result A :=
  match py_norm_index (length l) i with
  | Some k => match l !! k with Some x => Ok x | None => Err IndexError end
  | None => Err IndexError
  end.

Definition py_setitem {A} (l : list A) (i : Z) (x : A) : result (list A) :=
  match py_norm_index (length l) i with
  | Some k => Ok (<[k := x]> l)
  | None => Err IndexError
  end.

(* ===================================================================== *)
(** * numpy arrays of rationals                                           *)
(* ===================================================================== *)

(** A two-dimensional array: its shape and its rows. *)
Record matrix : Type := Matrix {
  nrows : nat;
  ncols : nat;
  rows : list (list Qc)
}.

Definition matrix_wf (m : matrix) : bool :=
  (length (rows m) =? nrows m) &&
  forallb (fun r => length r =? ncols m) (rows m).

(** [m[i, j]] *)
Definition entry (m : matrix) (i j : nat) : option Qc :=
  rows m !! i ≫= (.!! j).

(** What [np.array(x)] can be, by number of dimensions. *)
Inductive ndarray : Type :=
  | Nd0 (x : Qc)
  | Nd1 (v : list Qc)
  | Nd2 (m : matrix)
  | NdN (d1 d2 d3 : nat) (ds : list nat) (flat : list Qc).

Definition shape (a : ndarray) : list nat :=
  match a with
  | Nd0 _ => []
  | Nd1 v => [length v]
  | Nd2 m => [nrows m; ncols m]
  | NdN d1 d2 d3 ds _ => d1 :: d2 :: d3 :: ds
  end.

(** [a = np.empty((r, c)); a.fill(x)] *)
Definition np_full (r c : nat) (x : Qc) : matrix :=
  Matrix r c (replicate r (replicate c x)).

(** [np.zeros_like(m)] *)
Definition np_zeros_like (m : matrix) : matrix :=
  Matrix (nrows m) (ncols m) (replicate (nrows m) (replicate (ncols m) (Q2Qc 0))).

(** [m[:, j]] *)
Definition get_col (m : matrix) (j : nat) : result (list Qc) :=
  if j <? ncols m then Ok (omap (.!! j) (rows m)) else Err IndexError.

(** [m[:, j] = col]; a one-element [col] is broadcast down the column,
    any other length mismatch is numpy's [ValueError]. *)
Definition set_col (m : matrix) (j : nat) (col : list Qc) : result matrix :=
  if j <? ncols m then
    if length col =? nrows m then
      Ok (Matrix (nrows m) (ncols m)
            (zip_with (fun r x => <[j := x]> r) (rows m) col))
    else
      match col with
      | [x] => Ok (Matrix (nrows m) (ncols m) (map (fun r => <[j := x]> r) (rows m)))
      | _ => Err ValueError
      end
  else Err IndexError.

(* ===================================================================== *)
(** * [utils.py]: [fill_diagonal]                                         *)
(* ===================================================================== *)

(** [fill_diagonal(array, value=0)]: asserts that all dimensions agree and
    then writes [value] at every [array[i, i]]. *)
Definition fill_diagonal (array : matrix) (value : Qc) : result matrix :=
  if forallb (fun s => s =? nrows array) [nrows array; ncols array] then
    Ok (Matrix (nrows array) (ncols array)
          (imap (fun i r => <[i := value]> r) (rows array)))
  else Err (AssertionError "").

(* ===================================================================== *)
(** * Samplers                                                            *)
(* ===================================================================== *)

Record NeuronParameters : Type := {
  id : Z;               (* database id of the parameter set *)
  tau_refrac : Qc
}.

Record CalibrationCurve : Type := {
  alpha : Qc;
  v_p05 : Qc
}.

Record LIFsampler : Type := {
  neuron_params : NeuronParameters;
  calibration : option CalibrationCurve
}.

(** The spec's validity condition of a calibration: [alpha > 0]. *)
Definition valid_calibration (s : LIFsampler) : bool :=
  match calibration s with
  | Some c => bool_decide (Q2Qc 0 < alpha c)%Qc
  | None => false
  end.

Module Samplers.

(** Modelled from the spec: [samplers.py] ([LIFsampler]) is not among the
    sources.  The spec describes the per-sampler weight conversion as the
    sampler's calibration-derived linear transform, with the sigmoid slope
    [alpha] as its coefficient, applied to every entry handed to it;
    [theo_to_bio] is its inverse; a sampler without calibration fails with
    [MissingCalibrationError] naming the sampler. *)
Definition convert_weights_theo_to_bio (s : LIFsampler) (weights : list Qc)
  : result (list Qc) :=
  match calibration s with
  | Some c => Ok (map (fun w => w * alpha c)%Qc weights)
  | None => Err (MissingCalibrationError (id (neuron_params s)))
  end.

Definition convert_weights_bio_to_theo (s : LIFsampler) (weights : list Qc)
  : result (list Qc) :=
  match calibration s with
  | Some c => Ok (map (fun w => w / alpha c)%Qc weights)
  | None => Err (MissingCalibrationError (id (neuron_params s)))
  end.

End Samplers.

(* ===================================================================== *)
(** * [network.py]: [BoltzmannMachineBase]                                *)
(* ===================================================================== *)

Record SpikeData : Type := {
  spiketrains : list (list Qc);
  duration : Qc
}.

(** The object state the modelled methods touch.  The two [_cache] fields
    are the value slots of the dependency-tracked attributes
    [weights_theo] and [weights_bio]. *)
Record BoltzmannMachine : Type := {
  num_samplers : nat;
  samplers : list LIFsampler;
  weights_theo_cache : option matrix;
  weights_bio_cache : option matrix;
  spike_data : option SpikeData;
  selected_sampler_idx : list Z
}.

Definition set_weights_theo_cache (v : option matrix) (bm : BoltzmannMachine) :=
  {| num_samplers := num_samplers bm; samplers := samplers bm;
     weights_theo_cache := v; weights_bio_cache := weights_bio_cache bm;
     spike_data := spike_data bm;
     selected_sampler_idx := selected_sampler_idx bm |}.

Definition set_weights_bio_cache (v : option matrix) (bm : BoltzmannMachine) :=
  {| num_samplers := num_samplers bm; samplers := samplers bm;
     weights_theo_cache := weights_theo_cache bm; weights_bio_cache := v;
     spike_data := spike_data bm;
     selected_sampler_idx := selected_sampler_idx bm |}.

Definition set_samplers (ss : list LIFsampler) (bm : BoltzmannMachine) :=
  {| num_samplers := num_samplers bm; samplers := ss;
     weights_theo_cache := weights_theo_cache bm;
     weights_bio_cache := weights_bio_cache bm;
     spike_data := spike_data bm;
     selected_sampler_idx := selected_sampler_idx bm |}.

(** [_check_weight_matrix(self, weights)] *)
Definition _check_weight_matrix (self : BoltzmannMachine) (weights : ndarray)
  : result matrix :=
  let weights :=
    match weights with
    | Nd0 scalar_weight =>
        Nd2 (np_full (num_samplers self) (num_samplers self) scalar_weight)
    | _ => weights
    end in
  let expected_shape := [num_samplers self; num_samplers self] in
  if bool_decide (shape weights = expected_shape) then
    match weights with
    | Nd2 m => fill_diagonal m (Q2Qc 0)
    | _ => Err (AssertionError "Weight matrix shape")
    end
  else Err (AssertionError "Weight matrix shape").

(** The loop shared by the two conversions:
    [for j, sampler in enumerate(self.samplers):
       conv_weights[:, j] = sampler.convert(weights[:, j])] *)
Fixpoint convert_columns (convert : LIFsampler -> list Qc -> result (list Qc))
    (weights : matrix) (j : nat) (ss : list LIFsampler) (conv_weights : matrix)
  : result matrix :=
  match ss with
  | [] => Ok conv_weights
  | sampler :: ss' =>
      col ← get_col weights j;
      converted ← convert sampler col;
      conv_weights' ← set_col conv_weights j converted;
      convert_columns convert weights (S j) ss' conv_weights'
  end.

Definition convert_weights_bio_to_theo (self : BoltzmannMachine) (weights : matrix)
  : result matrix :=
  convert_columns Samplers.convert_weights_bio_to_theo weights 0 (samplers self)
    (np_zeros_like weights).

Definition convert_weights_theo_to_bio (self : BoltzmannMachine) (weights : matrix)
  : result matrix :=
  convert_columns Samplers.convert_weights_theo_to_bio weights 0 (samplers self)
    (np_zeros_like weights).

(** ** Dependency-tracked attributes *)

Module Meta.

(** Modelled from the spec: [meta.py] ([DependsOn], [HasDependencies]) is
    not among the sources.  Per the spec, each derived quantity is
    memoized; a read returns the memoized value or, when the value is
    stale, recomputes it from the getter part of the decorated function
    and memoizes it; a write runs the setter part, stores what it returns
    and marks every dependent attribute stale.  An exception raised by the
    decorated function leaves the slots as they were. *)
Definition get {V} (cache : BoltzmannMachine -> option V)
    (store : option V -> BoltzmannMachine -> BoltzmannMachine)
    (func : option ndarray -> M BoltzmannMachine V) : M BoltzmannMachine V :=
  self ← get_M;
  match cache self with
  | Some v => mret v
  | None =>
      v ← func None;
      _ ← modify_M (store (Some v));
      mret v
  end.

Definition set {V} (store : option V -> BoltzmannMachine -> BoltzmannMachine)
    (wipe_dependents : BoltzmannMachine -> BoltzmannMachine)
    (func : option ndarray -> M BoltzmannMachine V) (value : ndarray)
  : M BoltzmannMachine unit :=
  v ← func (Some value);
  modify_M (fun self => wipe_dependents (store (Some v) self)).

End Meta.

Inductive weights_attr : Type := WeightsTheo | WeightsBio.

(** The decorated function [weights_theo(self, weights=None)].  [read] is
    the attribute access [self.<attr>] used by the getter part. *)
Definition weights_theo (read : weights_attr -> M BoltzmannMachine matrix)
    (weights : option ndarray) : M BoltzmannMachine matrix :=
  match weights with
  | Some weights =>
      (* setter part *)
      self ← get_M;
      lift_M (_check_weight_matrix self weights)
  | None =>
      (* getter part *)
      weights_bio ← read WeightsBio;
      self ← get_M;
      lift_M (convert_weights_bio_to_theo self weights_bio)
  end.

(** The decorated function [weights_bio(self, weights=None)]. *)
Definition weights_bio (read : weights_attr -> M BoltzmannMachine matrix)
    (weights : option ndarray) : M BoltzmannMachine matrix :=
  match weights with
  | Some weights =>
      self ← get_M;
      lift_M (_check_weight_matrix self weights)
  | None =>
      weights_theo ← read WeightsTheo;
      self ← get_M;
      lift_M (convert_weights_theo_to_bio self weights_theo)
  end.

(** Reading [self.weights_theo] / [self.weights_bio].  The two getters call
    each other through the attribute access; [depth] is the interpreter's
    remaining recursion depth. *)
Fixpoint read_weights (depth : nat) (a : weights_attr)
  : M BoltzmannMachine matrix :=
  match depth with
  | 0 => raise_M RecursionError
  | S depth' =>
      match a with
      | WeightsTheo =>
          Meta.get weights_theo_cache set_weights_theo_cache
            (weights_theo (read_weights depth'))
      | WeightsBio =>
          Meta.get weights_bio_cache set_weights_bio_cache
            (weights_bio (read_weights depth'))
      end
  end.

(** The assignments [self.weights_theo = value] and
    [self.weights_bio = value]; per [@meta.DependsOn("weights_bio")] on
    [weights_theo] and [@meta.DependsOn("weights_theo")] on [weights_bio],
    each is the other's only dependent among the modelled attributes. *)
Definition assign_weights (depth : nat) (a : weights_attr) (value : ndarray)
  : M BoltzmannMachine unit :=
  match a with
  | WeightsTheo =>
      Meta.set set_weights_theo_cache (set_weights_bio_cache None)
        (weights_theo (read_weights depth)) value
  | WeightsBio =>
      Meta.set set_weights_bio_cache (set_weights_theo_cache None)
        (weights_bio (read_weights depth)) value
  end.

(** ** [load_calibration] *)

Section LoadCalibration.

(** [sampler.load_calibration(id=id)] lives in [samplers.py], which is not
    among the sources: it is a parameter here.  It returns whether the
    load succeeded, and the sampler as the call leaves it. *)
Variable sampler_load_calibration :
  LIFsampler -> option Z -> bool * LIFsampler.

(** One pass of the loop body, for the sampler at position [i]. *)
Definition load_one (ids : list Z) (i : nat) (sampler : LIFsampler)
  : bool * LIFsampler :=
  let id := if i <? length ids then ids !! i else None in
  sampler_load_calibration sampler id.

(** [for i, sampler in enumerate(self.samplers): ...]; [done] are the
    samplers already visited (most recent first), [failed] the list built
    so far. *)
Fixpoint load_calibration_loop (ids : list Z) (i : nat)
    (todo : list LIFsampler) (done : list LIFsampler) (failed : list Z)
  : list Z * list LIFsampler :=
  match todo with
  | [] => (failed, reverse done)
  | sampler :: todo' =>
      let '(ok, sampler') := load_one ids i sampler in
      let failed' :=
        if negb ok then failed ++ [id (neuron_params sampler')] else failed in
      load_calibration_loop ids (S i) todo' (sampler' :: done) failed'
  end.

(** [load_calibration(self, *ids)] *)
Definition load_calibration (ids : list Z) : M BoltzmannMachine (list Z) :=
  self ← get_M;
  let '(failed, ss) := load_calibration_loop ids 0 (samplers self) [] [] in
  _ ← modify_M (set_samplers ss);
  mret failed.

End LoadCalibration.

(* ===================================================================== *)
(** * [network.py]: [ThoroughBM.dist_marginal_sim]                        *)
(* ===================================================================== *)

(** [for i in self.selected_sampler_idx: ...]; subscripting an unset
    [spike_data] ([None]) is a [TypeError]. *)
Fixpoint dist_marginal_sim_loop (self : BoltzmannMachine)
    (idx : list Z) (marginals : list Qc) : result (list Qc) :=
  match idx with
  | [] => Ok marginals
  | i :: idx' =>
      sampler ← py_getitem (samplers self) i;
      sd ← match spike_data self with Some sd => Ok sd | None => Err TypeError end;
      spikes ← py_getitem (spiketrains sd) i;
      marginals' ←
        py_setitem marginals i
          (Qc_of_Z (Z.of_nat (length spikes)) * tau_refrac (neuron_params sampler))%Qc;
      dist_marginal_sim_loop self idx' marginals'
  end.

(** [dist_marginal_sim(self)].  The final [marginals /= duration] is exact
    rational division here (a zero [duration] is not modelled). *)
Definition dist_marginal_sim (self : BoltzmannMachine) : result (list Qc) :=
  let marginals := replicate (length (selected_sampler_idx self)) (Q2Qc 0) in
  marginals ← dist_marginal_sim_loop self (selected_sampler_idx self) marginals;
  sd ← match spike_data self with Some sd => Ok sd | None => Err TypeError end;
  Ok (map (fun m => m / duration sd)%Qc marginals).

(* ===================================================================== *)
(** * [utils.py]: [get_ordered_spike_idx]                                 *)
(* ===================================================================== *)

(** One record of the [(num_spikes,)] record array: fields ["id"], ["t"]. *)
Record spike : Type := Spike {
  spike_id : nat;
  spike_t : Qc
}.

(** [a[start:start+len(vals)] = vals] on the part of [a] that exists. *)
Definition slice_assign {A B} (upd : A -> B -> A) (a : list A) (start : nat)
    (vals : list B) : list A :=
  take start a ++ zip_with upd (take (length vals) (drop start a)) vals
    ++ drop (start + length vals) a.

(** [for i, st in enumerate(spiketrains): ...] *)
Fixpoint fill_spikes (i : nat) (spiketrains : list (list Qc)) (current : nat)
    (spikes : list spike) : list spike :=
  match spiketrains with
  | [] => spikes
  | st :: rest =>
      let spikes :=
        slice_assign (fun r (_ : Qc) => Spike i (spike_t r)) spikes current st in
      let spikes :=
        slice_assign (fun r t => Spike (spike_id r) t) spikes current st in
      fill_spikes (S i) rest (current + length st) spikes
  end.

(** [spikes[sort_idx]] *)
Definition take_indices {A} (a : list A) (idx : list nat) : result (list A) :=
  mapM (fun k => match a !! k with Some x => Ok x | None => Err IndexError end) idx.

(** [get_ordered_spike_idx(spiketrains)].  [np.argsort] is numpy's; the
    source calls it with the default [kind], and it is a parameter here. *)
Definition get_ordered_spike_idx (argsort : list Qc -> list nat)
    (spiketrains : list (list Qc)) : result (list spike) :=
  let num_spikes := sum_list (map length spiketrains) in
  let spikes := replicate num_spikes (Spike 0 (Q2Qc 0)) in
  let spikes := fill_spikes 0 spiketrains 0 spikes in
  let sort_idx := argsort (map spike_t spikes) in
  take_indices spikes sort_idx.

(** ** numpy's default [argsort]

    [np.argsort(a)] without [kind] runs numpy's ["quicksort"] index sort
    ([npysort/quicksort], routine [aquicksort]): median-of-three
    partitioning on ranges of more than [SMALL_QUICKSORT] entries, insertion
    sort on the rest, with an explicit stack of pending ranges.  The routine
    is transcribed here statement by statement on the index array [tosort];
    [fuel] bounds the C loops.  (Recent numpy versions add a depth limit with
    a heap-sort fallback, which this transcription leaves out.) *)
Module Npysort.

Definition SMALL_QUICKSORT : nat := 16.

Definition at_ (tosort : list nat) (p : nat) : nat := default 0 (tosort !! p).

(** [v[*p]] *)
Definition key (v : list Qc) (tosort : list nat) (p : nat) : Qc :=
  default (Q2Qc 0) (v !! at_ tosort p).

Definition LT (a b : Qc) : bool := bool_decide (a < b)%Qc.

(** [INTP_SWAP] of the entries at [p] and [q] *)
Definition INTP_SWAP (tosort : list nat) (p q : nat) : list nat :=
  <[q := at_ tosort p]> (<[p := at_ tosort q]> tosort).

Definition swap_if (c : bool) (tosort : list nat) (p q : nat) : list nat :=
  if c then INTP_SWAP tosort p q else tosort.

(** [do ++pi; while (LT(v[*pi], vp));] *)
Fixpoint scan_up (fuel : nat) (v : list Qc) (vp : Qc) (tosort : list nat)
    (pi : nat) : nat :=
  match fuel with
  | 0 => pi
  | S fuel =>
      let pi := S pi in
      if LT (key v tosort pi) vp then scan_up fuel v vp tosort pi else pi
  end.

(** [do --pj; while (LT(vp, v[*pj]));] *)
Fixpoint scan_down (fuel : nat) (v : list Qc) (vp : Qc) (tosort : list nat)
    (pj : nat) : nat :=
  match fuel with
  | 0 => pj
  | S fuel =>
      let pj := pj - 1 in
      if LT vp (key v tosort pj) then scan_down fuel v vp tosort pj else pj
  end.

(** The [for (;;)] loop of the partition; returns the array and [pi]. *)
Fixpoint partition_loop (fuel : nat) (v : list Qc) (vp : Qc)
    (tosort : list nat) (pi pj : nat) : list nat * nat :=
  match fuel with
  | 0 => (tosort, pi)
  | S fuel =>
      let pi := scan_up (length tosort) v vp tosort pi in
      let pj := scan_down (length tosort) v vp tosort pj in
      if pj <=? pi then (tosort, pi)
      else partition_loop fuel v vp (INTP_SWAP tosort pi pj) pi pj
  end.

(** The inner [while] of the insertion sort; returns the array and [pj]. *)
Fixpoint insertion_shift (fuel : nat) (v : list Qc) (vp : Qc)
    (tosort : list nat) (pl pj : nat) : list nat * nat :=
  match fuel with
  | 0 => (tosort, pj)
  | S fuel =>
      if (pl <? pj) && LT vp (key v tosort (pj - 1)) then
        insertion_shift fuel v vp (<[pj := at_ tosort (pj - 1)]> tosort) pl (pj - 1)
      else (tosort, pj)
  end.

(** [for (pi = pl + 1; pi <= pr; ++pi) ...], [count] iterations from [pi]. *)
Fixpoint insertion_sort (count : nat) (v : list Qc) (tosort : list nat)
    (pl pi : nat) : list nat :=
  match count with
  | 0 => tosort
  | S count =>
      let vi := at_ tosort pi in
      let vp := default (Q2Qc 0) (v !! vi) in
      let '(tosort, pj) := insertion_shift (length tosort) v vp tosort pl pi in
      insertion_sort count v (<[pj := vi]> tosort) pl (S pi)
  end.

(** One partition step on [pl .. pr]; returns the array and [pi]. *)
Definition partition (v : list Qc) (tosort : list nat) (pl pr : nat)
  : list nat * nat :=
  let pm := pl + Nat.div2 (pr - pl) in
  let tosort := swap_if (LT (key v tosort pm) (key v tosort pl)) tosort pm pl in
  let tosort := swap_if (LT (key v tosort pr) (key v tosort pm)) tosort pr pm in
  let tosort := swap_if (LT (key v tosort pm) (key v tosort pl)) tosort pm pl in
  let vp := key v tosort pm in
  let pi := pl in
  let pj := pr - 1 in
  let tosort := INTP_SWAP tosort pm pj in
  let '(tosort, pi) := partition_loop (length tosort) v vp tosort pi pj in
  let pk := pr - 1 in
  (INTP_SWAP tosort pi pk, pi).

(** The outer [while (1)] with its stack of pending ranges. *)
Fixpoint aquicksort_loop (fuel : nat) (v : list Qc) (tosort : list nat)
    (pl pr : nat) (stack : list (nat * nat)) : list nat :=
  match fuel with
  | 0 => tosort
  | S fuel =>
      if SMALL_QUICKSORT <? pr - pl then
        let '(tosort, pi) := partition v tosort pl pr in
        (* push largest partition on stack *)
        if pi - pl <? pr - pi then
          aquicksort_loop fuel v tosort pl (pi - 1) ((pi + 1, pr) :: stack)
        else
          aquicksort_loop fuel v tosort (pi + 1) pr ((pl, pi - 1) :: stack)
      else
        let tosort := insertion_sort (pr - pl) v tosort pl (pl + 1) in
        match stack with
        | [] => tosort
        | (pl, pr) :: stack => aquicksort_loop fuel v tosort pl pr stack
        end
  end.

Definition aquicksort (v : list Qc) : list nat :=
  let num := length v in
  aquicksort_loop (2 * num + 1) v (seq 0 num) 0 (num - 1) [].

End Npysort.

(** [np.argsort(a)] with the default [kind]. *)
Definition np_argsort (a : list Qc) : list nat := Npysort.aquicksort a.

(* ===================================================================== *)
(** * [gather_calibration_data.py]                                        *)
(* ===================================================================== *)

Module GatherCalibration.

(** What a module-level name of [gather_calibration_data.py] is bound to. *)
Inductive pyobject : Type :=
  | PyModule (name : string)
  | PyFunction (name : string)
  | PyInstance (cls : string).

(** The module's global names: its imports, [context] and its three
    functions.  (No builtin is called ["spead"] or ["calib_data"].) *)
Definition module_globals : gmap string pyobject :=
  list_to_map [
    ("comm", PyModule "sbs.comm");
    ("log", PyInstance "Logger");
    ("zmq", PyModule "zmq");
    ("np", PyModule "numpy");
    ("sp", PyModule "subprocess");
    ("it", PyModule "itertools");
    ("osp", PyModule "os.path");
    ("sys", PyModule "sys");
    ("context", PyInstance "zmq.Context");
    ("gather_calibration_data", PyFunction "gather_calibration_data");
    ("standalone_gather_calibration_data",
       PyFunction "standalone_gather_calibration_data");
    ("_client_calibration_gather_data",
       PyFunction "_client_calibration_gather_data")
  ].

(** Evaluating a name that is not a local variable of the function. *)
Definition load_global (name : string) : result pyobject :=
  match module_globals !! name with
  | Some o => Ok o
  | None => Err (NameError name)
  end.

(** None of the module-level objects is a number or a mapping. *)
Definition as_number (o : pyobject) : result Qc := Err TypeError.
Definition subscript (o : pyobject) (key : string) : result Qc := Err TypeError.

Record calib_cfg : Type := {
  cfg_duration : Qc;
  cfg_num_samples : nat;
  cfg_mean : Qc;
  cfg_std : Qc;
  cfg_std_range : Qc
}.

Record source_cfg : Type := {
  rate : Qc;
  weight : Qc;
  is_exc : bool
}.

(** The simulator backend, as far as this function uses it: given the
    run time, the source rates and one resting potential per probe
    neuron, the recorded spike trains. *)
Record simulator : Type := {
  run_and_record : Qc -> list Qc -> list Qc -> list (list Qc)
}.

(** [np.linspace(start, stop, num)] (endpoint included). *)
Definition np_linspace (start stop : Qc) (num : nat) : list Qc :=
  match num with
  | 0 => []
  | 1 => [start]
  | _ =>
      let step := ((stop - start) / Qc_of_Z (Z.of_nat (num - 1)))%Qc in
      map (fun i => (start + Qc_of_Z (Z.of_nat i) * step)%Qc) (seq 0 num)
  end.

(** [standalone_gather_calibration_data(sim_name, calib_cfg, neuron_model,
    neuron_params, sources_cfg)], with the import of the simulator taken to
    succeed.  [spread], [mean], [num], ... are the function's locals;
    [spead] and [calib_data] are not, so they are looked up as globals. *)
Definition standalone_gather_calibration_data (sim : simulator)
    (cfg : calib_cfg) (neuron_params_tau_refrac : Qc)
    (sources_cfg : list source_cfg) : result (list Qc * list Qc) :=
  let spread := (cfg_std_range cfg * cfg_std cfg)%Qc in
  let mean := cfg_mean cfg in
  let num := cfg_num_samples cfg in
  spead ← load_global "spead" ≫= as_number;
  let samples_v_rest := np_linspace (mean - spread)%Qc (mean + spead)%Qc num in
  let rates := map rate sources_cfg in
  (* the projection loop reads [src_cfg.weight] on a dict *)
  _ ← match sources_cfg with
      | [] => Ok tt
      | _ :: _ => Err (AttributeError "weight")
      end;
  let spiketrains := run_and_record sim (cfg_duration cfg) rates samples_v_rest in
  let num_spikes := map (fun s => Qc_of_Z (Z.of_nat (length s))) spiketrains in
  calib_data_duration ←
    load_global "calib_data" ≫= (fun o => subscript o "duration");
  let samples_p_on :=
    map (fun n => (n * neuron_params_tau_refrac / calib_data_duration)%Qc)
      num_spikes in
  Ok (samples_v_rest, samples_p_on).

End GatherCalibration.

(* ===================================================================== *)
(** * Membrane-potential distribution kernels                             *)
(* ===================================================================== *)

(** The kernels work on binary64 floats.  Their array arguments are numpy
    arrays owned by the caller: they live in a store, and the kernels get
    references, so that the in-place [rates /= 1000.] is visible to the
    caller and to any alias. *)
Abbreviation loc := nat.
Abbreviation store := (gmap nat (list float)).

Module Np.

Local Open Scope float_scope.

(** The array behind a reference ([TypeError] for an argument that is not
    an array). *)
Definition load (l : loc) : M store (list float) := fun h =>
  match h !! l with
  | Some a => (Ok a, h)
  | None => (Err TypeError, h)
  end.

(** [a /= c] on a numpy float array: every element is divided, in place. *)
Definition idiv (l : loc) (c : float) : M store unit := fun h =>
  match h !! l with
  | Some a => (Ok tt, <[l := map (fun x => x / c) a]> h)
  | None => (Err TypeError, h)
  end.

(** [np.dot(a, b)] on one-dimensional arrays: [ValueError] unless the
    lengths agree; the products are accumulated from left to right. *)
Definition dot_sum (a b : list float) : float :=
  foldl (fun acc p => acc + fst p * snd p) 0 (zip a b).

Definition dot (a b : list float) : result float :=
  if (length a =? length b)%nat then Ok (dot_sum a b) else Err ValueError.

(** Hz to kHz, elementwise. *)
Definition kHz (a : list float) : list float := map (fun x => x / 1000) a.

(** [np.abs(a)], [a ** 2], [a * c], [a / c] on arrays. *)
Definition abs (a : list float) : list float := map PrimFloat.abs a.
Definition square (a : list float) : list float := map (fun x => x * x) a.
Definition scale (a : list float) (c : float) : list float := map (fun x => x * c) a.
Definition divide (a : list float) (c : float) : list float := map (fun x => x / c) a.

(** [np.exp(1.)] *)
Definition exp1 : float := 0x1.5bf0a8b145769p+1.

(** [x ** 2] and [x ** 3] on numpy scalars, as repeated products. *)
Definition pow2 (x : float) : float := x * x.
Definition pow3 (x : float) : float := x * x * x.

(** The same on Python floats, where an overflowing power raises. *)
Definition py_pow (pow : float -> float) (x : float) : result float :=
  if is_infinity (pow x) && negb (is_infinity x) then Err OverflowError
  else Ok (pow x).

(** [a / b] between two Python floats raises on a zero divisor; as soon
    as one operand is a numpy scalar the division is IEEE-754's
    ([PrimFloat.div]: infinities and NaN, no exception). *)
Definition py_div (a b : float) : result float :=
  if PrimFloat.eqb b 0 then Err ZeroDivisionError else Ok (a / b).

(** [tau_g = 1. / (1. / tau_syn - 1. / tau_eff)] and
    [tau_s = 1. / (1. / tau_syn + 1. / tau_eff)] when every operand is a
    Python float, as in the current-based kernels. *)
Definition py_tau_g (tau_syn tau_eff : float) : result float :=
  a ← py_div 1 tau_syn;
  b ← py_div 1 tau_eff;
  py_div 1 (a - b).

Definition py_tau_s (tau_syn tau_eff : float) : result float :=
  a ← py_div 1 tau_syn;
  b ← py_div 1 tau_eff;
  py_div 1 (a + b).

(** [x + y] of two one-dimensional arrays, with numpy's broadcasting. *)
Definition broadcast_add (x y : list float) : result (list float) :=
  if (length x =? length y)%nat then Ok (zip_with PrimFloat.add x y)
  else match x, y with
       | [a], _ => Ok (map (fun b => a + b) y)
       | _, [b] => Ok (map (fun a => a + b) x)
       | _, _ => Err ValueError
       end.

(** [float(a)] of an array: only size-1 arrays convert. *)
Definition to_float (a : list float) : result float :=
  match a with
  | [x] => Ok x
  | _ => Err TypeError
  end.

End Np.

(** The scalar (pyNN) parameters of a kernel call, Python floats. *)
Record kernel_params : Type := {
  e_rev_E : float;
  e_rev_I : float;
  tau_syn_E : float;
  tau_syn_I : float;
  g_l : float;
  v_rest : float;
  cm : float
}.

(** ** [src/sbs/utils.py] *)
Module Utils.

Local Open Scope float_scope.
Import Np.

(** [IF_cond_exp_distribution]; returns [(v_eff, sqrt(var), g_tot, tau_eff)]. *)
Definition IF_cond_exp_distribution
    (rates_exc rates_inh weights_exc weights_inh : loc) (p : kernel_params)
  : M store (float * float * float * float) :=
  (* convert rates to kHz *)
  _ ← idiv rates_exc 1000;
  _ ← idiv rates_inh 1000;
  (* calculate exc, inh and total conductance *)
  weights_exc ← abs <$> load weights_exc;
  weights_inh ← abs <$> load weights_inh;
  rates_exc ← load rates_exc;
  rates_inh ← load rates_inh;
  d_exc ← lift_M (dot weights_exc rates_exc);
  let g_exc := d_exc * tau_syn_E p in
  d_inh ← lift_M (dot weights_inh rates_inh);
  let g_inh := d_inh * tau_syn_I p in
  let g_tot := g_exc + g_inh + g_l p in
  (* calculate effective (mean) membrane potential and time constant *)
  let tau_eff := cm p / g_tot in
  let v_eff := (e_rev_E p * g_exc + e_rev_I p * g_inh + v_rest p * g_l p) / g_tot in
  (* calculate variance of membrane potential *)
  inv_E ← lift_M (py_div 1 (tau_syn_E p));
  let tau_g_exc := 1 / (inv_E - 1 / tau_eff) in
  inv_I ← lift_M (py_div 1 (tau_syn_I p));
  let tau_g_inh := 1 / (inv_I - 1 / tau_eff) in
  let S_exc :=
    divide (divide (scale (scale weights_exc (e_rev_E p - v_eff)) tau_g_exc)
              tau_eff) g_tot in
  let S_inh :=
    divide (divide (scale (scale weights_inh (e_rev_I p - v_eff)) tau_g_inh)
              tau_eff) g_tot in
  let var_tau_e :=
    tau_syn_E p / 2 + tau_eff / 2
    - 2 * tau_eff * tau_syn_E p / (tau_eff + tau_syn_E p) in
  let var_tau_i :=
    tau_syn_I p / 2 + tau_eff / 2
    - 2 * tau_eff * tau_syn_I p / (tau_eff + tau_syn_I p) in
  v_e ← lift_M (dot rates_exc (square S_exc));
  v_i ← lift_M (dot rates_inh (square S_inh));
  let var := v_e * var_tau_e + v_i * var_tau_i in
  mret (v_eff, sqrt var, g_tot, tau_eff).

(** [IF_cond_alpha_distribution] *)
Definition IF_cond_alpha_distribution
    (rates_exc rates_inh weights_exc weights_inh : loc) (p : kernel_params)
  : M store (float * float * float * float) :=
  _ ← idiv rates_exc 1000;
  _ ← idiv rates_inh 1000;
  weights_exc ← abs <$> load weights_exc;
  weights_inh ← abs <$> load weights_inh;
  rates_exc ← load rates_exc;
  rates_inh ← load rates_inh;
  d_exc ← lift_M (dot weights_exc rates_exc);
  let g_exc := d_exc * tau_syn_E p * exp1 in
  d_inh ← lift_M (dot weights_inh rates_inh);
  let g_inh := d_inh * tau_syn_I p * exp1 in
  let g_tot := g_exc + g_inh + g_l p in
  let tau_eff := cm p / g_tot in
  let v_eff := (e_rev_E p * g_exc + e_rev_I p * g_inh + v_rest p * g_l p) / g_tot in
  inv_E ← lift_M (py_div 1 (tau_syn_E p));
  let tau_g_exc := 1 / (inv_E - 1 / tau_eff) in
  inv_I ← lift_M (py_div 1 (tau_syn_I p));
  let tau_g_inh := 1 / (inv_I - 1 / tau_eff) in
  (* s for sum *)
  inv_E ← lift_M (py_div 1 (tau_syn_E p));
  let tau_s_exc := 1 / (inv_E + 1 / tau_eff) in
  inv_I ← lift_M (py_div 1 (tau_syn_I p));
  let tau_s_inh := 1 / (inv_I + 1 / tau_eff) in
  let S_exc :=
    divide (divide (scale (scale weights_exc (e_rev_E p - v_eff)) tau_g_exc)
              tau_eff) g_tot in
  let S_inh :=
    divide (divide (scale (scale weights_inh (e_rev_I p - v_eff)) tau_g_inh)
              tau_eff) g_tot in
  let S_exc := scale S_exc exp1 in
  let S_inh := scale S_inh exp1 in
  cube_E ← lift_M (py_pow pow3 (tau_syn_E p));
  sq_E ← lift_M (py_pow pow2 (tau_syn_E p));
  let var_tau_exc :=
    cube_E / 4
    + 2 * tau_g_exc * (sq_E / 4 - pow2 tau_s_exc)
    + pow2 tau_g_exc * ((tau_syn_E p + tau_eff) / 2 - 2 * tau_s_exc) in
  cube_I ← lift_M (py_pow pow3 (tau_syn_I p));
  sq_I ← lift_M (py_pow pow2 (tau_syn_I p));
  let var_tau_inh :=
    cube_I / 4
    + 2 * tau_g_inh * (sq_I / 4 - pow2 tau_s_inh)
    + pow2 tau_g_inh * ((tau_syn_I p + tau_eff) / 2 - 2 * tau_s_inh) in
  v_e ← lift_M (dot rates_exc (square S_exc));
  v_i ← lift_M (dot rates_inh (square S_inh));
  let var := v_e * var_tau_exc + v_i * var_tau_inh in
  mret (v_eff, sqrt var, g_tot, tau_eff).

(** [IF_curr_exp_distribution]: the weights enter with their sign, and the
    total conductance is the leak conductance. *)
Definition IF_curr_exp_distribution
    (rates_exc rates_inh weights_exc weights_inh : loc) (p : kernel_params)
  : M store (float * float * float * float) :=
  (* convert rates to kHz *)
  _ ← idiv rates_exc 1000;
  _ ← idiv rates_inh 1000;
  (* calculate total current and conductance *)
  weights_exc ← load weights_exc;
  rates_exc ← load rates_exc;
  d_exc ← lift_M (dot weights_exc rates_exc);
  let I_exc := d_exc * tau_syn_E p in
  weights_inh ← load weights_inh;
  rates_inh ← load rates_inh;
  d_inh ← lift_M (dot weights_inh rates_inh);
  let I_inh := d_inh * tau_syn_I p in
  let g_tot := g_l p in
  (* calculate effective (mean) membrane potential and time constant *)
  tau_eff ← lift_M (py_div (cm p) g_tot);
  let v_eff := (I_exc + I_inh) / g_l p + v_rest p in
  (* calculate variance of membrane potential *)
  tau_g_exc ← lift_M (py_tau_g (tau_syn_E p) tau_eff);
  tau_g_inh ← lift_M (py_tau_g (tau_syn_I p) tau_eff);
  let S_exc := divide (divide (scale weights_exc tau_g_exc) tau_eff) g_tot in
  let S_inh := divide (divide (scale weights_inh tau_g_inh) tau_eff) g_tot in
  v_e ← lift_M (dot rates_exc (square S_exc));
  q_e ← lift_M (py_div (-2 * tau_eff * tau_syn_E p) (tau_eff + tau_syn_E p));
  v_i ← lift_M (dot rates_inh (square S_inh));
  q_i ← lift_M (py_div (-2 * tau_eff * tau_syn_I p) (tau_eff + tau_syn_I p));
  let var :=
    v_e * (tau_syn_E p / 2 + tau_eff / 2 + q_e)
    + v_i * (tau_syn_I p / 2 + tau_eff / 2 + q_i) in
  mret (v_eff, sqrt var, g_tot, tau_eff).

(** The three-term variance kernel of the alpha-shaped synapse, on Python
    floats. *)
Definition py_var_tau (tau_syn tau_eff tau_g tau_s : float) : result float :=
  cube ← py_pow pow3 tau_syn;
  sq ← py_pow pow2 tau_syn;
  sq_s ← py_pow pow2 tau_s;
  sq_g ← py_pow pow2 tau_g;
  Ok (cube / 4 + 2 * tau_g * (sq / 4 - sq_s)
      + sq_g * ((tau_syn + tau_eff) / 2 - 2 * tau_s)).

(** [IF_curr_alpha_distribution].  [S_exc] and [S_inh] are scalars here, so
    [np.dot(rates, S**2)] is the array [rates * S**2] and [var] is an
    array, which [float(np.sqrt(var))] converts only if it has one
    element. *)
Definition IF_curr_alpha_distribution
    (rates_exc rates_inh weights_exc weights_inh : loc) (p : kernel_params)
  : M store (float * float * float * float) :=
  _ ← idiv rates_exc 1000;
  _ ← idiv rates_inh 1000;
  weights_exc ← load weights_exc;
  rates_exc ← load rates_exc;
  d_exc ← lift_M (dot weights_exc rates_exc);
  let I_exc := d_exc * tau_syn_E p * exp1 in
  weights_inh ← load weights_inh;
  rates_inh ← load rates_inh;
  d_inh ← lift_M (dot weights_inh rates_inh);
  let I_inh := d_inh * tau_syn_I p * exp1 in
  let g_tot := g_l p in
  tau_eff ← lift_M (py_div (cm p) g_tot);
  let v_eff := (I_exc + I_inh) / g_l p + v_rest p in
  tau_g_exc ← lift_M (py_tau_g (tau_syn_E p) tau_eff);
  tau_g_inh ← lift_M (py_tau_g (tau_syn_I p) tau_eff);
  (* s for sum *)
  tau_s_exc ← lift_M (py_tau_s (tau_syn_E p) tau_eff);
  tau_s_inh ← lift_M (py_tau_s (tau_syn_I p) tau_eff);
  let S_exc := I_exc * tau_g_exc / tau_eff / g_tot in
  let S_inh := I_inh * tau_g_inh / tau_eff / g_tot in
  var_tau_exc ← lift_M (py_var_tau (tau_syn_E p) tau_eff tau_g_exc tau_s_exc);
  var_tau_inh ← lift_M (py_var_tau (tau_syn_I p) tau_eff tau_g_inh tau_s_inh);
  let v_e := scale (scale rates_exc (pow2 S_exc)) var_tau_exc in
  let v_i := scale (scale rates_inh (pow2 S_inh)) var_tau_inh in
  var ← lift_M (broadcast_add v_e v_i);
  sd ← lift_M (to_float (map sqrt var));
  mret (v_eff, sd, g_tot, tau_eff).

End Utils.

(** ** [src/utils.py], the older copy of the kernels *)
Module LegacyUtils.

Local Open Scope float_scope.
Import Np.

(** [IF_cond_exp_distribution]: no [np.abs], and a three-tuple
    [(v_eff, sqrt(var), g_tot)]. *)
Definition IF_cond_exp_distribution
    (rates_exc rates_inh weights_exc weights_inh : loc) (p : kernel_params)
  : M store (float * float * float) :=
  (* convert rates to kHz *)
  _ ← idiv rates_exc 1000;
  _ ← idiv rates_inh 1000;
  (* calculate exc, inh and total conductance *)
  weights_exc ← load weights_exc;
  rates_exc ← load rates_exc;
  d_exc ← lift_M (dot weights_exc rates_exc);
  let g_exc := d_exc * tau_syn_E p in
  weights_inh ← load weights_inh;
  rates_inh ← load rates_inh;
  d_inh ← lift_M (dot weights_inh rates_inh);
  let g_inh := d_inh * tau_syn_I p in
  let g_tot := g_exc + g_inh + g_l p in
  let tau_eff := cm p / g_tot in
  let v_eff := (e_rev_E p * g_exc + e_rev_I p * g_inh + v_rest p * g_l p) / g_tot in
  inv_E ← lift_M (py_div 1 (tau_syn_E p));
  let tau_g_exc := 1 / (inv_E - 1 / tau_eff) in
  inv_I ← lift_M (py_div 1 (tau_syn_I p));
  let tau_g_inh := 1 / (inv_I - 1 / tau_eff) in
  let S_exc :=
    divide (divide (scale (scale weights_exc (e_rev_E p - v_eff)) tau_g_exc)
              tau_eff) g_tot in
  let S_inh :=
    divide (divide (scale (scale weights_inh (e_rev_I p - v_eff)) tau_g_inh)
              tau_eff) g_tot in
  let var_tau_e :=
    tau_syn_E p / 2 + tau_eff / 2
    - 2 * tau_eff * tau_syn_E p / (tau_eff + tau_syn_E p) in
  let var_tau_i :=
    tau_syn_I p / 2 + tau_eff / 2
    - 2 * tau_eff * tau_syn_I p / (tau_eff + tau_syn_I p) in
  v_e ← lift_M (dot rates_exc (square S_exc));
  v_i ← lift_M (dot rates_inh (square S_inh));
  let var := v_e * var_tau_e + v_i * var_tau_i in
  mret (v_eff, sqrt var, g_tot).

(** [IF_curr_exp_distribution] *)
Definition IF_curr_exp_distribution
    (rates_exc rates_inh weights_exc weights_inh : loc) (p : kernel_params)
  : M store (float * float * float) :=
  _ ← idiv rates_exc 1000;
  _ ← idiv rates_inh 1000;
  weights_exc ← load weights_exc;
  rates_exc ← load rates_exc;
  d_exc ← lift_M (dot weights_exc rates_exc);
  let I_exc := d_exc * tau_syn_E p in
  weights_inh ← load weights_inh;
  rates_inh ← load rates_inh;
  d_inh ← lift_M (dot weights_inh rates_inh);
  let I_inh := d_inh * tau_syn_I p in
  let g_tot := g_l p in
  tau_eff ← lift_M (py_div (cm p) g_tot);
  let v_eff := (I_exc + I_inh) / g_l p + v_rest p in
  tau_g_exc ← lift_M (py_tau_g (tau_syn_E p) tau_eff);
  tau_g_inh ← lift_M (py_tau_g (tau_syn_I p) tau_eff);
  let S_exc := divide (divide (scale weights_exc tau_g_exc) tau_eff) g_tot in
  let S_inh := divide (divide (scale weights_inh tau_g_inh) tau_eff) g_tot in
  v_e ← lift_M (dot rates_exc (square S_exc));
  q_e ← lift_M (py_div (2 * tau_eff * tau_syn_E p) (tau_eff + tau_syn_E p));
  v_i ← lift_M (dot rates_inh (square S_inh));
  q_i ← lift_M (py_div (2 * tau_eff * tau_syn_I p) (tau_eff + tau_syn_I p));
  let var :=
    v_e * (tau_syn_E p / 2 + tau_eff / 2 - q_e)
    + v_i * (tau_syn_I p / 2 + tau_eff / 2 - q_i) in
  mret (v_eff, sqrt var, g_tot).

End LegacyUtils.

(* ===================================================================== *)
(** * Predicates and sample objects used in the statements                *)
(* ===================================================================== *)

(** The slope a sampler's conversion uses ([0] stands for "none"). *)
Definition alpha_of (s : LIFsampler) : Qc :=
  match calibration s with
  | Some c => alpha c
  | None => Q2Qc 0
  end.

(** [m[i, i] == 0] for every [i]. *)
Definition has_zero_diagonal (m : matrix) : bool :=
  forallb (fun i => bool_decide (entry m i i = Some (Q2Qc 0)))
    (seq 0 (Nat.min (nrows m) (ncols m))).

Definition qz (z : Z) : Qc := Qc_of_Z z.

(** A sampler with parameter-set id [i], refractory period [tau] and, if
    [a] is given, a calibration of slope [a]. *)
Definition sampler_of (i : Z) (tau : Z) (a : option Z) : LIFsampler :=
  {| neuron_params := {| id := i; tau_refrac := qz tau |};
     calibration := (fun a => {| alpha := qz a; v_p05 := qz 0 |}) <$> a |}.

(** A machine over the given samplers with nothing cached or recorded. *)
Definition machine_of (ss : list LIFsampler) : BoltzmannMachine :=
  {| num_samplers := length ss; samplers := ss;
     weights_theo_cache := None; weights_bio_cache := None;
     spike_data := None;
     selected_sampler_idx := map Z.of_nat (seq 0 (length ss)) |}.

Definition matrix_of (rs : list (list Z)) : matrix :=
  Matrix (length rs) (match rs with r :: _ => length r | [] => 0 end)
    (map (map qz) rs).


(** Two samplers (refractory periods 10 and 20), recorded for 1000 ms, with
    only the second sampler selected. *)
Definition two_sampler_machine (selected : list Z) : BoltzmannMachine :=
  {| num_samplers := 2;
     samplers := [sampler_of 1 10 None; sampler_of 2 20 None];
     weights_theo_cache := None; weights_bio_cache := None;
     spike_data :=
       Some {| spiketrains := [[qz 5]; [qz 100; qz 200; qz 300]];
               duration := qz 1000 |};
     selected_sampler_idx := selected |}.

(** The entry of the empirical marginal for sampler [i], before and after
    the division by the duration. *)
Definition marginal_weight (self : BoltzmannMachine) (sd : SpikeData) (i : nat)
  : option Qc :=
  s ← samplers self !! i;
  st ← spiketrains sd !! i;
  Some (Qc_of_Z (Z.of_nat (length st)) * tau_refrac (neuron_params s))%Qc.

Definition marginal_of (self : BoltzmannMachine) (sd : SpikeData) (i : nat)
  : option Qc :=
  (fun q => q / duration sd)%Qc <$> marginal_weight self sd i.


(** The records in the order in which [get_ordered_spike_idx] writes them:
    train by train, each train in its own order. *)
Definition flat_spikes (spiketrains : list (list Qc)) : list spike :=
  concat (imap (fun i st => map (Spike i) st) spiketrains).

Fixpoint is_sorted (l : list Qc) : bool :=
  match l with
  | a :: (b :: _) as tl => bool_decide (a <= b)%Qc && is_sorted tl
  | _ => true
  end.

(** What numpy promises of [argsort] whatever the [kind]: the result lists
    every index of [a] once, and reading [a] in that order is ascending. *)
Definition is_argsort (a : list Qc) (idx : list nat) : bool :=
  bool_decide (NoDup idx) && (length idx =? length a) &&
  forallb (fun k => k <? length a) idx &&
  is_sorted (map (fun k => default (Q2Qc 0) (a !! k)) idx).

(** Ascending by time. *)
Definition time_sorted (out : list spike) : Prop :=
  Sorted Qcle (map spike_t out).

(** Ties in time keep the order in which the records were written (train
    index first): in a time-sorted sequence tied records are neighbours, so
    it is enough to look at neighbours. *)
Definition ties_stable (out : list spike) : Prop :=
  Sorted (fun x y => spike_t x = spike_t y -> spike_id x <= spike_id y) out.

(** Eighteen samplers that each spike once, all at [t = 1]. *)
Definition eighteen_simultaneous : list (list Qc) := replicate 18 [qz 1].


(** A computation that leaves the store as it found it. *)
Definition readonly {A} (m : M store A) : Prop := forall h, snd (m h) = h.

(** The store after a kernel call on rate arrays [a] (at [re]) and [b] (at
    [ri]). *)
Definition scaled_store (re ri : loc) (a b : list float) (h : store) : store :=
  <[ri := Np.kHz b]> (<[re := Np.kHz a]> h).

(** Sample kernel inputs: references 0 to 3 hold [rates_exc], [rates_inh],
    [weights_exc], [weights_inh]. *)
Definition store_of (re ri we wi : list float) : store :=
  <[3 := wi]> (<[2 := we]> (<[1 := ri]> (<[0 := re]> ∅))).

Definition sample_params (leak : float) : kernel_params :=
  {| e_rev_E := 0; e_rev_I := (-100); tau_syn_E := 5; tau_syn_I := 10;
     g_l := leak; v_rest := (-65); cm := (0.25) |}%float.

(* ===================================================================== *)
(** * Further functions of [network.py]                                   *)
(* ===================================================================== *)

(** The decorated function [sim_name(self, name)]. *)
Definition sim_name (name : string) : string :=
  if String.prefix "pyNN." name then name else String.append "pyNN." name.

(** [_check_delays(self, delays)]: a scalar becomes a full matrix; anything
    else is returned as it came. *)
Definition _check_delays (self : BoltzmannMachine) (delays : ndarray) : ndarray :=
  match delays with
  | Nd0 scalar_delay =>
      Nd2 (np_full (num_samplers self) (num_samplers self) scalar_delay)
  | _ => delays
  end.

Section SamplerAttributes.

(** Attributes and methods of [LIFsampler] ([samplers.py], not among the
    sources) that the functions below only pass through: they are
    parameters. *)
Variable pynn_model : LIFsampler -> string.
Variable assign_bias : LIFsampler -> Qc -> LIFsampler.
Variable sync_bias_to_pynn : LIFsampler -> LIFsampler.

(** The generator inside [all(...)]: [self.samplers[0]] is evaluated anew
    for every sampler visited, and [all] stops at the first [False]. *)
Fixpoint all_same_model_gen (all_samplers rest : list LIFsampler) : result bool :=
  match rest with
  | [] => Ok true
  | sampler :: rest' =>
      first ← py_getitem all_samplers 0%Z;
      if String.eqb (pynn_model sampler) (pynn_model first)
      then all_same_model_gen all_samplers rest'
      else Ok false
  end.

(** [all_samplers_same_model(self)] *)
Definition all_samplers_same_model (self : BoltzmannMachine) : result bool :=
  all_same_model_gen (samplers self) (samplers self).

(** What the bias setters iterate over: [it.repeat(b)] for a scalar, the
    sequence itself otherwise. *)
Inductive bias_iter : Type :=
  | Repeat (b : Qc)
  | Seq (bs : list Qc).

Definition next_bias (it : bias_iter) : option (Qc * bias_iter) :=
  match it with
  | Repeat b => Some (b, Repeat b)
  | Seq [] => None
  | Seq (b :: bs) => Some (b, Seq bs)
  end.

(** [for b, sampler in it.izip(biases, self.samplers): ...]: [izip] stops
    as soon as either side is exhausted. *)
Fixpoint assign_biases_loop (is_created : bool) (biases : bias_iter)
    (ss : list LIFsampler) : list LIFsampler :=
  match ss with
  | [] => []
  | sampler :: ss' =>
      match next_bias biases with
      | None => sampler :: ss'
      | Some (b, biases') =>
          let sampler := assign_bias sampler b in
          let sampler := if is_created then sync_bias_to_pynn sampler else sampler in
          sampler :: assign_biases_loop is_created biases' ss'
      end
  end.

(** The setter part of [biases_theo] and of [biases_bio] (they differ in
    the sampler attribute assigned, [assign_bias] here). *)
Definition assign_biases (is_created : bool) (biases : bias_iter)
  : M BoltzmannMachine unit :=
  self ← get_M;
  modify_M (set_samplers (assign_biases_loop is_created biases (samplers self))).

End SamplerAttributes.

(* ===================================================================== *)
(** * Further functions of [sbs/utils.py]                                 *)
(* ===================================================================== *)

(** A Python number: an [int], or a [float] taken as an exact rational. *)
Inductive pynum : Type :=
  | PyInt (z : Z)
  | PyFloat (x : Qc).

(** [a / n] for an [int] [n] in Python 2: floor division between two
    [int]s, true division for a [float]; both raise on zero. *)
Definition py2_div (a : pynum) (n : Z) : result pynum :=
  if (n =? 0)%Z then Err ZeroDivisionError
  else match a with
       | PyInt z => Ok (PyInt (z / n))
       | PyFloat x => Ok (PyFloat (x / Qc_of_Z n)%Qc)
       end.

(** [for i in xrange(num_steps): sim.run(dT)].  The simulator is its log of
    [sim.run] calls, most recent last. *)
Fixpoint run_steps (n : nat) (dT : pynum) : M (list pynum) unit :=
  match n with
  | 0 => mret tt
  | S n' => _ ← modify_M (fun log => log ++ [dT]); run_steps n' dT
  end.

(** [run_with_eta(sim, duration, num_steps)] *)
Definition run_with_eta (duration : pynum) (num_steps : Z) : M (list pynum) unit :=
  dT ← lift_M (py2_div duration num_steps);
  run_steps (Z.to_nat num_steps) dT.

(** The simulated time a log of [sim.run] calls adds up to. *)
Definition pynum_value (a : pynum) : Qc :=
  match a with PyInt z => Qc_of_Z z | PyFloat x => x end.

(** The sum of a list of rationals. *)
Definition Qc_sum (l : list Qc) : Qc := foldr Qcplus (Q2Qc 0) l.


(* ===================================================================== *)
(** * Further functions of [utils.py]                                     *)
(* ===================================================================== *)

(** [np.empty((n,))]: [n] slots holding whatever was in memory. *)
Definition np_empty (garbage : nat -> Qc) (n : nat) : list Qc :=
  map garbage (seq 0 n).

(** The loop of [get_all_source_parameters]. *)
Fixpoint fill_source_arrays (db_sources : list GatherCalibration.source_cfg)
    (i_exc i_inh : nat) (rates_exc weights_exc rates_inh weights_inh : list Qc)
  : result (list Qc * list Qc * list Qc * list Qc) :=
  match db_sources with
  | [] => Ok (rates_exc, rates_inh, weights_exc, weights_inh)
  | src :: rest =>
      if GatherCalibration.is_exc src then
        rates_exc ← py_setitem rates_exc (Z.of_nat i_exc) (GatherCalibration.rate src);
        weights_exc ← py_setitem weights_exc (Z.of_nat i_exc) (GatherCalibration.weight src);
        fill_source_arrays rest (S i_exc) i_inh rates_exc weights_exc rates_inh weights_inh
      else
        rates_inh ← py_setitem rates_inh (Z.of_nat i_inh) (GatherCalibration.rate src);
        weights_inh ← py_setitem weights_inh (Z.of_nat i_inh) (GatherCalibration.weight src);
        fill_source_arrays rest i_exc (S i_inh) rates_exc weights_exc rates_inh weights_inh
  end.

(** [get_all_source_parameters(db_sources)] of [src/utils.py]; the four
    arguments stand for the contents of the four fresh [np.empty] arrays. *)
Definition get_all_source_parameters (g1 g2 g3 g4 : nat -> Qc)
    (db_sources : list GatherCalibration.source_cfg)
  : result (list Qc * list Qc * list Qc * list Qc) :=
  let num_sources := length db_sources in
  let num_sources_exc := length (List.filter GatherCalibration.is_exc db_sources) in
  let num_sources_inh := num_sources - num_sources_exc in
  let rates_exc := np_empty g1 num_sources_exc in
  let weights_exc := np_empty g2 num_sources_exc in
  let rates_inh := np_empty g3 num_sources_inh in
  let weights_inh := np_empty g4 num_sources_inh in
  fill_source_arrays db_sources 0 0 rates_exc weights_exc rates_inh weights_inh.


(* ===================================================================== *)
(** * [network.py]: [MixinRBM]                                            *)
(* ===================================================================== *)

(** [l[a:b]] for non-negative [a] and [b]. *)
Definition py_slice {A} (l : list A) (a b : nat) : list A :=
  take (b - a) (drop a l).

(** [m[j, :]] *)
Definition get_row (m : matrix) (j : nat) : result (list Qc) :=
  if j <? nrows m then
    match rows m !! j with Some r => Ok r | None => Err IndexError end
  else Err IndexError.

(** [m[j, :] = row]; a one-element [row] is broadcast along the row, any
    other length mismatch is numpy's [ValueError]. *)
Definition set_row (m : matrix) (j : nat) (row : list Qc) : result matrix :=
  if j <? nrows m then
    if length row =? ncols m then
      Ok (Matrix (nrows m) (ncols m) (<[j := row]> (rows m)))
    else
      match row with
      | [x] => Ok (Matrix (nrows m) (ncols m) (<[j := replicate (ncols m) x]> (rows m)))
      | _ => Err ValueError
      end
  else Err IndexError.

(** [for j, sampler in enumerate(ss):
       conv_weights[j, :] = sampler.convert(weights[j, :])] *)
Fixpoint convert_rows (convert : LIFsampler -> list Qc -> result (list Qc))
    (weights : matrix) (j : nat) (ss : list LIFsampler) (conv_weights : matrix)
  : result matrix :=
  match ss with
  | [] => Ok conv_weights
  | sampler :: ss' =>
      row ← get_row weights j;
      converted ← convert sampler row;
      conv_weights' ← set_row conv_weights j converted;
      convert_rows convert weights (S j) ss' conv_weights'
  end.

Module MixinRBM.

(** The attributes [MixinRBM.__init__] sets, and the [num_samplers] it
    hands to the base class. *)
Record rbm : Type := {
  num_units_per_layer : list nat;
  _layer_id_offset : list nat;
  num_layers : nat;
  num_samplers : nat
}.

Fixpoint np_cumsum_from (acc : nat) (l : list nat) : list nat :=
  match l with
  | [] => []
  | x :: r => (acc + x) :: np_cumsum_from (acc + x) r
  end.

Definition np_cumsum (l : list nat) : list nat := np_cumsum_from 0 l.

(** [MixinRBM.__init__(self, num_units_per_layer=None, ...)] *)
Definition __init__ (num_units_per_layer : option (list nat)) : result rbm :=
  match num_units_per_layer with
  | None => Err (AssertionError "")
  | Some n =>
      if 1 <? length n then
        Ok {| num_units_per_layer := n;
              _layer_id_offset := 0 :: np_cumsum n;
              num_layers := length n;
              num_samplers := sum_list n |}
      else Err (AssertionError "Need to have at least two layers")
  end.

(** What is passed as [weights]: a Python number, a bare array, or a list
    of arrays. *)
Inductive weights_arg : Type :=
  | WScalar (x : Qc)
  | WArray (a : ndarray)
  | WList (ws : list ndarray).

(** [for i in xrange(self.num_layers-1): ... all_weights.append(weights)] *)
Fixpoint fill_layers (self : rbm) (layers : list nat) (scalar_weight : Qc)
    (all_weights : list ndarray) : result (list ndarray) :=
  match layers with
  | [] => Ok all_weights
  | i :: rest =>
      a ← py_getitem (num_units_per_layer self) (Z.of_nat i);
      b ← py_getitem (num_units_per_layer self) (Z.of_nat (i + 1));
      fill_layers self rest scalar_weight
        (all_weights ++ [Nd2 (np_full a b scalar_weight)])
  end.

(** [for i, w in enumerate(weights): assert w.shape == expected_shape] *)
Fixpoint check_layers (self : rbm) (i : nat) (weights : list ndarray)
  : result unit :=
  match weights with
  | [] => Ok tt
  | w :: rest =>
      a ← py_getitem (num_units_per_layer self) (Z.of_nat i);
      b ← py_getitem (num_units_per_layer self) (Z.of_nat (i + 1));
      if bool_decide (shape w = [a; b]) then check_layers self (S i) rest
      else Err (AssertionError "Weight matrix shape")
  end.

(** [MixinRBM._check_weight_matrix(self, weights)] *)
Definition _check_weight_matrix (self : rbm) (weights : weights_arg)
  : result (list ndarray) :=
  match weights with
  | WList ws => _ ← check_layers self 0 ws; Ok ws
  | WScalar scalar_weight =>
      fill_layers self (seq 0 (num_layers self - 1)) scalar_weight []
  | WArray _ => Err (AssertionError "")
  end.

(** The [nest.Connect(pre, post, 'all_to_all')] calls of
    [_create_connectivity], in order, as pairs [(pre, post)]. *)
Fixpoint connect_layers {G} (self : rbm) (gids : list G) (layers : list nat)
  : result (list (list G * list G)) :=
  match layers with
  | [] => Ok []
  | i_l :: rest =>
      let offset := _layer_id_offset self in
      o0 ← py_getitem offset (Z.of_nat i_l);
      o1 ← py_getitem offset (Z.of_nat (i_l + 1));
      o2 ← py_getitem offset (Z.of_nat (i_l + 2));
      calls ← connect_layers self gids rest;
      Ok ((py_slice gids o0 o1, py_slice gids o1 o2)
          :: (py_slice gids o1 o2, py_slice gids o0 o1) :: calls)
  end.

Definition _create_connectivity {G} (self : rbm) (gids : list G)
  : result (list (list G * list G)) :=
  connect_layers self gids (seq 0 (num_layers self - 1)).

(** The loop over the layers of [MixinRBM.convert_weights_theo_to_bio].  An
    entry of [conv_weights] is an array of shape [(2, r, c)], kept as its two
    [(r, c)] halves. *)
Fixpoint convert_layers (convert : LIFsampler -> list Qc -> result (list Qc))
    (self : rbm) (samplers : list LIFsampler) (weights : list matrix)
    (layers : list nat) (conv_weights : list (matrix * matrix))
  : result (list (matrix * matrix)) :=
  match layers with
  | [] => Ok conv_weights
  | i_l :: rest =>
      let id_offset := _layer_id_offset self in
      l_weights ← py_getitem conv_weights (Z.of_nat i_l);
      l_theo_weights ← py_getitem weights (Z.of_nat i_l);
      o1 ← py_getitem id_offset (Z.of_nat (i_l + 1));
      o2 ← py_getitem id_offset (Z.of_nat (i_l + 2));
      first ← convert_columns convert l_theo_weights 0 (py_slice samplers o1 o2)
                (fst l_weights);
      o0 ← py_getitem id_offset (Z.of_nat i_l);
      o1 ← py_getitem id_offset (Z.of_nat (i_l + 1));
      second ← convert_rows convert l_theo_weights 0 (py_slice samplers o0 o1)
                 (snd l_weights);
      conv_weights ← py_setitem conv_weights (Z.of_nat i_l) (first, second);
      convert_layers convert self samplers weights rest conv_weights
  end.

(** [MixinRBM.convert_weights_theo_to_bio(self, weights)] with [out=None];
    [convert] is the samplers' [convert_weights_theo_to_bio]. *)
Definition convert_weights_theo_to_bio
    (convert : LIFsampler -> list Qc -> result (list Qc))
    (self : rbm) (samplers : list LIFsampler) (weights : list matrix)
  : result (list (matrix * matrix)) :=
  let conv_weights := map (fun w => (np_zeros_like w, np_zeros_like w)) weights in
  convert_layers convert self samplers weights (seq 0 (num_layers self - 1))
    conv_weights.

End MixinRBM.

(** The layers a flat list of units falls into, given the layer sizes. *)
Fixpoint split_layers {G} (sizes : list nat) (units : list G) : list (list G) :=
  match sizes with
  | [] => []
  | n :: rest => take n units :: split_layers rest (drop n units)
  end.

(* ===================================================================== *)
(** * [sbs/db/sources.py]: [sources_create_connect]                       *)
(* ===================================================================== *)

Section SourcesCreateConnect.

(** Samplers, their source configurations, the test
    [isinstance(a, b.__class__)] and the configurations' [create_connect]. *)
Variables (Sampler Config Created : Type).
Variable source_config : Sampler -> Config.
Variable isinstance_of_class : Config -> Config -> bool.
Variable create_connect : Config -> list Sampler -> result Created.

Fixpoint group_samplers (sampler_same_src_cfg : list (list Sampler))
    (rest : list Sampler) : result (list (list Sampler)) :=
  match rest with
  | [] => Ok sampler_same_src_cfg
  | s :: rest' =>
      last ← py_getitem sampler_same_src_cfg (-1);
      first ← py_getitem last 0;
      if isinstance_of_class (source_config s) (source_config first) then
        groups ← py_setitem sampler_same_src_cfg (-1) (last ++ [s]);
        group_samplers groups rest'
      else
        group_samplers (sampler_same_src_cfg ++ [[s]]) rest'
  end.

Definition create_for_group (l_samplers : list Sampler) : result Created :=
  first ← py_getitem l_samplers 0;
  create_connect (source_config first) l_samplers.

(** [sources_create_connect(sim, samplers, duration, **kwargs)] *)
Definition sources_create_connect (samplers : list Sampler)
  : result (list Created) :=
  s0 ← py_getitem samplers 0;
  sampler_same_src_cfg ← group_samplers [[s0]] (drop 1 samplers);
  mapM create_for_group sampler_same_src_cfg.

(** A group is a head followed by samplers whose configuration is an
    instance of the head's class. *)
Definition group_ok (g : list Sampler) : Prop :=
  match g with
  | [] => False
  | h :: t =>
      Forall (fun s => isinstance_of_class (source_config s) (source_config h) = true) t
  end.

(** The head of each group is not an instance of the class of the head of
    the group before it. *)
Fixpoint boundaries_ok (groups : list (list Sampler)) : Prop :=
  match groups with
  | g1 :: ((g2 :: _) as rest) =>
      match g1, g2 with
      | h1 :: _, h2 :: _ =>
          isinstance_of_class (source_config h2) (source_config h1) = false
      | _, _ => True
      end /\ boundaries_ok rest
  | _ => True
  end.

End SourcesCreateConnect.

Arguments group_samplers {Sampler Config} source_config isinstance_of_class.
Arguments create_for_group {Sampler Config Created} source_config create_connect.
Arguments sources_create_connect {Sampler Config Created}
  source_config isinstance_of_class create_connect.
Arguments group_ok {Sampler Config} source_config isinstance_of_class.
Arguments boundaries_ok {Sampler Config} source_config isinstance_of_class.


(* ===================================================================== *)
(** * [sbs/db/sources.py]: connecting sources to samplers                 *)
(* ===================================================================== *)

(** [np.abs(w)] *)
Definition np_abs (w : Qc) : Qc := if bool_decide (w < Q2Qc 0)%Qc then (- w)%Qc else w.

(** [np.where(idx)[0]], counting positions from [i]. *)
Fixpoint np_where_from (i : nat) (idx : list bool) : list nat :=
  match idx with
  | [] => []
  | b :: rest =>
      if b then i :: np_where_from (S i) rest else np_where_from (S i) rest
  end.

Definition np_where (idx : list bool) : list nat := np_where_from 0 idx.

(** [a[idx]] for a boolean mask [idx]; numpy raises [IndexError] when the
    mask is not as long as the array. *)
Fixpoint mask_items {A} (a : list A) (idx : list bool) : list A :=
  match a, idx with
  | x :: a', b :: idx' => if b then x :: mask_items a' idx' else mask_items a' idx'
  | _, _ => []
  end.

Definition mask_select {A} (a : list A) (idx : list bool) : result (list A) :=
  if length idx =? length a then Ok (mask_items a idx) else Err IndexError.

(** A connection tuple [(pre, post, weight)]. *)
Abbreviation connection := (nat * nat * Qc)%type.

Section SourceConnections.

(** The simulator's source populations and target populations;
    [population[a:b]] is a view of a population. *)
Variables (Sources Pop : Type).
Variable conductance_based : Pop -> bool.
Variable population_view : Pop -> nat -> nat -> Pop.

(** [population] is a [sim.Population] or a list of populations. *)
Inductive population_arg : Type :=
  | OnePopulation (p : Pop)
  | PopulationList (ps : list Pop).

(** [sim.Projection(pre, post, sim.FromListConnector(conn_list), receptor_type=...)] *)
Record Projection : Type := {
  presynaptic : Sources;
  postsynaptic : Pop;
  connector : list connection;
  receptor_type : string
}.

(** The connection list [connect_one_to_one] builds for receptor type
    number [i_r] of sampler [j]. *)
Definition one_to_one_conn_list (pop : Pop) (j i_r : nat) (s_weights : list Qc)
  : result (list connection) :=
  let is_exc := map (fun w => if bool_decide (Q2Qc 0 < w)%Qc then 1 else 0) s_weights in
  let idx := map (fun e => e =? i_r) is_exc in
  selected ← mask_select s_weights idx;
  Ok (map (fun p : nat * Qc =>
             let '(i, weight) := p in
             (i, j, if conductance_based pop then np_abs weight else weight))
          (zip (np_where idx) selected)).

(** [projections[rectype].append(p)] on a [defaultdict(list)]. *)
Definition defaultdict_append (projections : gmap string (list Projection))
    (rectype : string) (p : Projection) : gmap string (list Projection) :=
  <[rectype := default [] (projections !! rectype) ++ [p]]> projections.

Fixpoint one_to_one_receptors (s_sources : Sources) (pop : Pop) (j : nat)
    (s_weights : list Qc) (receptor_types : list (nat * string))
    (projections : gmap string (list Projection))
  : result (gmap string (list Projection)) :=
  match receptor_types with
  | [] => Ok projections
  | (i_r, rectype) :: rest =>
      conn_list ← one_to_one_conn_list pop j i_r s_weights;
      one_to_one_receptors s_sources pop j s_weights rest
        (defaultdict_append projections rectype
           {| presynaptic := s_sources; postsynaptic := pop;
              connector := conn_list; receptor_type := rectype |})
  end.

Fixpoint one_to_one_loop (population : population_arg) (j : nat)
    (pairs : list (list Qc * Sources))
    (projections : gmap string (list Projection))
  : result (gmap string (list Projection)) :=
  match pairs with
  | [] => Ok projections
  | (s_weights, s_sources) :: rest =>
      pop ← match population with
            | OnePopulation p => Ok (population_view p j (j + 1))
            | PopulationList ps => py_getitem ps (Z.of_nat j)
            end;
      projections ← one_to_one_receptors s_sources pop j s_weights
                      (imap pair ["inhibitory"; "excitatory"]) projections;
      one_to_one_loop population (S j) rest projections
  end.

(** [connect_one_to_one(sim, sources, population, weights)] *)
Definition connect_one_to_one (sources : list Sources)
    (population : population_arg) (weights : list (list Qc))
  : result (gmap string (list Projection)) :=
  one_to_one_loop population 0 (zip weights sources) ∅.

(** ** [FixedSpikeTrainConfiguration.connect_sources_regular] *)

Definition trans (pop : Pop) (w : Qc) : Qc :=
  if conductance_based pop then np_abs w else w.

Definition receptor_of (ct : string) : string :=
  if String.eqb ct "exc" then "excitatory" else "inhibitory".

(** [projections[ct].append(p)]; both keys are in the dictionary from the
    start. *)
Definition dict_append (projections : gmap string (list Projection))
    (ct : string) (p : Projection) : gmap string (list Projection) :=
  alter (fun l => l ++ [p]) ct projections.

Definition append_projections (sources : Sources) (pop : Pop)
    (conn_lists : list (list connection))
    (projections : gmap string (list Projection))
  : gmap string (list Projection) :=
  foldl (fun d p => let '(ct, cl) := (p : string * list connection) in
           dict_append d ct
             {| presynaptic := sources; postsynaptic := pop;
                connector := cl; receptor_type := receptor_of ct |})
        projections (zip ["inh"; "exc"] conn_lists).

Fixpoint regular_per_population (sources : Sources) (j : nat) (population : list Pop)
    (conn_list : list connection) (projections : gmap string (list Projection))
  : gmap string (list Projection) :=
  match population with
  | [] => projections
  | pop :: rest =>
      let conn_lists :=
        [ omap (fun c : connection =>
                  let '(pre, post, weight) := c in
                  if bool_decide (weight < Q2Qc 0)%Qc && (post =? j)
                  then Some (pre, 0, trans pop weight) else None) conn_list;
          omap (fun c : connection =>
                  let '(pre, post, weight) := c in
                  if bool_decide (Q2Qc 0 <= weight)%Qc && (post =? j)
                  then Some (pre, 0, trans pop weight) else None) conn_list ] in
      regular_per_population sources (S j) rest conn_list
        (append_projections sources pop conn_lists projections)
  end.

Definition connect_sources_regular (sources : Sources)
    (population : population_arg) (conn_list : list connection)
  : gmap string (list Projection) :=
  let projections : gmap string (list Projection) :=
    <["exc" := []]> (<["inh" := []]> ∅) in
  match population with
  | OnePopulation population =>
      let conn_lists :=
        [ omap (fun c : connection =>
                  let '(pre, post, weight) := c in
                  if bool_decide (weight < Q2Qc 0)%Qc
                  then Some (pre, post, trans population weight) else None) conn_list;
          omap (fun c : connection =>
                  let '(pre, post, weight) := c in
                  if bool_decide (Q2Qc 0 <= weight)%Qc
                  then Some (pre, post, trans population weight) else None) conn_list ] in
      append_projections sources population conn_lists projections
  | PopulationList population =>
      regular_per_population sources 0 population conn_list projections
  end.

End SourceConnections.

Arguments OnePopulation {Pop} p.
Arguments PopulationList {Pop} ps.
Arguments presynaptic {Sources Pop} _.
Arguments postsynaptic {Sources Pop} _.
Arguments connector {Sources Pop} _.
Arguments receptor_type {Sources Pop} _.
Arguments connect_one_to_one {Sources Pop}.
Arguments one_to_one_loop {Sources Pop}.
Arguments one_to_one_receptors {Sources Pop}.
Arguments one_to_one_conn_list {Pop}.
Arguments defaultdict_append {Sources Pop}.
Arguments dict_append {Sources Pop}.
Arguments append_projections {Sources Pop}.
Arguments regular_per_population {Sources Pop}.
Arguments connect_sources_regular {Sources Pop}.
Arguments trans {Pop}.

(** ** [FixedSpikeTrainConfiguration.create_connect_regular] *)

Module FixedSpikeTrain.

Record config : Type := {
  weights : list Qc;
  spike_times : list Qc;
  spike_ids : list nat
}.

(** [spike_times.size == st.size and np.all(st == spike_times)] *)
Definition same_train (spike_times st : list Qc) : bool :=
  (length spike_times =? length st) &&
  forallb (fun p : Qc * Qc => bool_decide (fst p = snd p)) (zip st spike_times).

(** [for i, st in enumerate(all_spike_times): if ...: return i] *)
Fixpoint find_train (spike_times : list Qc) (i : nat)
    (all_spike_times : list (list Qc)) : option nat :=
  match all_spike_times with
  | [] => None
  | st :: rest =>
      if same_train spike_times st then Some i
      else find_train spike_times (S i) rest
  end.

(** The closure [get_index]; the state is [all_spike_times]. *)
Definition get_index (spike_times : list Qc) : M (list (list Qc)) nat :=
  fun all_spike_times =>
    match find_train spike_times 0 all_spike_times with
    | Some i => (Ok i, all_spike_times)
    | None =>
        let all_spike_times := all_spike_times ++ [spike_times] in
        (Ok (length all_spike_times - 1), all_spike_times)
    end.

(** [sc.spike_times[sc.spike_ids == i]] *)
Definition train_of (sc : config) (i : nat) : result (list Qc) :=
  mask_select (spike_times sc) (map (fun k => k =? i) (spike_ids sc)).

(** The state of the loops: [all_spike_times] and [conn_list]. *)
Definition loop_state : Type := list (list Qc) * list connection.

Definition get_index' (spike_times : list Qc) : M loop_state nat :=
  fun s => let '(r, a) := get_index spike_times (fst s) in (r, (a, snd s)).

Definition conn_append (c : connection) : M loop_state unit :=
  modify_M (fun s => (fst s, snd s ++ [c])).

(** [for i, w in enumerate(sc.weights): ...] of the sampler-list branch. *)
Fixpoint connect_sampler (sc : config) (j i : nat) (ws : list Qc)
  : M loop_state unit :=
  match ws with
  | [] => mret tt
  | w :: rest =>
      st ← lift_M (train_of sc i);
      source_id ← get_index' st;
      _ ← conn_append (source_id, j, w);
      connect_sampler sc j (S i) rest
  end.

(** [for j, s in enumerate(samplers): ...] *)
Fixpoint connect_samplers (j : nat) (samplers : list config) : M loop_state unit :=
  match samplers with
  | [] => mret tt
  | sc :: rest =>
      _ ← connect_sampler sc j 0 (weights sc);
      connect_samplers (S j) rest
  end.

(** [for j in xrange(len(samplers)): conn_list.append((source_id, j, w))] *)
Fixpoint connect_all (source_id : nat) (w : Qc) (js : list nat) : M loop_state unit :=
  match js with
  | [] => mret tt
  | j :: rest => _ ← conn_append (source_id, j, w); connect_all source_id w rest
  end.

(** [for i, w in enumerate(self.weights): ...] of the population branch. *)
Fixpoint connect_population (self : config) (num : nat) (i : nat) (ws : list Qc)
  : M loop_state unit :=
  match ws with
  | [] => mret tt
  | w :: rest =>
      st ← lift_M (train_of self i);
      source_id ← get_index' st;
      _ ← connect_all source_id w (seq 0 num);
      connect_population self num (S i) rest
  end.

(** What [samplers] is: a population of [n] neurons, or a list of samplers
    given by their source configurations. *)
Inductive samplers_arg : Type :=
  | SamplerPopulation (n : nat)
  | SamplerList (scs : list config).

(** The part of [create_connect_regular] that fills [all_spike_times] and
    [conn_list]. *)
Definition build_conn_list (self : config) (samplers : samplers_arg)
  : result (list (list Qc) * list connection) :=
  let m := match samplers with
           | SamplerPopulation n => connect_population self n 0 (weights self)
           | SamplerList scs => connect_samplers 0 scs
           end in
  let '(r, s) := m ([], []) in
  _ ← r; Ok s.

End FixedSpikeTrain.


(** ** What the projections should hold *)

(** The connections the weights [ws] of sampler [j] give for the sources
    selected by [keep]: one per selected source, in order, with the source's
    index as [pre] and [j] as [post]. *)
Definition selected_connections (abs_weights : bool) (j : nat) (keep : Qc -> bool)
    (ws : list Qc) : list connection :=
  map (fun p : nat * Qc => (fst p, j, if abs_weights then np_abs (snd p) else snd p))
      (List.filter (fun p : nat * Qc => keep (snd p)) (imap pair ws)).

Section SourceConnectionSpecs.

Variables (Sources Pop : Type).
Variable conductance_based : Pop -> bool.
Variable population_view : Pop -> nat -> nat -> Pop.

(** The population sampler [j] lives in. *)
Definition pop_at (population : population_arg Pop) (j : nat) : option Pop :=
  match population with
  | OnePopulation p => Some (population_view p j (j + 1))
  | PopulationList ps => ps !! j
  end.

Definition projections_of (d : gmap string (list (Projection Sources Pop)))
    (key : string) : list (Projection Sources Pop) :=
  default [] (d !! key).

Definition one_to_one_projection (rectype : string) (keep : Qc -> bool)
    (j : nat) (ws : list Qc) (src : Sources) (pop : Pop) : Projection Sources Pop :=
  {| presynaptic := src; postsynaptic := pop;
     connector := selected_connections (conductance_based pop) j keep ws;
     receptor_type := rectype |}.

End SourceConnectionSpecs.

Arguments pop_at {Pop}.
Arguments projections_of {Sources Pop}.
Arguments one_to_one_projection {Sources Pop}.


Section RegularProjectionSpecs.

Variables (Sources Pop : Type).
Variable conductance_based : Pop -> bool.

(** What a projection made by [connect_sources_regular] holds: the
    connections of [conn_list] whose weight satisfies [keep] and whose
    target [post] is mapped by [target] to some index of [pop], with the
    weight transformed for [pop]. *)
Definition regular_projection_ok (sources : Sources) (pop : Pop)
    (receptor : string) (keep : Qc -> Prop) (target : nat -> option nat)
    (conn_list : list connection) (P : Projection Sources Pop) : Prop :=
  presynaptic P = sources /\ postsynaptic P = pop /\ receptor_type P = receptor /\
  forall pre post' w',
    (pre, post', w') ∈ connector P <->
    exists post w, (pre, post, w) ∈ conn_list /\ keep w /\
                   target post = Some post' /\ w' = trans conductance_based pop w.

End RegularProjectionSpecs.

Arguments regular_projection_ok {Sources Pop}.


(** ** What [conn_list] should hold for fixed spike trains *)

(** The sources of sampler [j], from source number [i] on: sampler, its
    configuration, the source's number and its weight. *)
Fixpoint sampler_sources (j : nat) (sc : FixedSpikeTrain.config) (i : nat)
    (ws : list Qc) : list (nat * FixedSpikeTrain.config * nat * Qc) :=
  match ws with
  | [] => []
  | w :: rest => (j, sc, i, w) :: sampler_sources j sc (S i) rest
  end.

Fixpoint all_sources (j : nat) (scs : list FixedSpikeTrain.config)
  : list (nat * FixedSpikeTrain.config * nat * Qc) :=
  match scs with
  | [] => []
  | sc :: rest =>
      sampler_sources j sc 0 (FixedSpikeTrain.weights sc) ++ all_sources (S j) rest
  end.

(** Connection [c] serves source [i] of sampler [j]: it targets [j] with the
    source's weight, from the entry of [all_spike_times] that holds the
    source's spike train. *)
Definition connection_ok (all_spike_times : list (list Qc)) (c : connection)
    (e : nat * FixedSpikeTrain.config * nat * Qc) : Prop :=
  let '(j, sc, i, w) := e in
  exists st, snd (fst c) = j /\ snd c = w /\
    FixedSpikeTrain.train_of sc i = Ok st /\
    all_spike_times !! fst (fst c) = Some st.


(** What one run of a loop adds to [all_spike_times] and [conn_list]. *)
Definition loop_grows (expected : list (nat * FixedSpikeTrain.config * nat * Qc))
    (all all' : list (list Qc)) (new : list connection) : Prop :=
  all `prefix_of` all' /\ (NoDup all -> NoDup all') /\
  Forall2 (connection_ok all') new expected /\
  (forall m, length all <= m < length all' -> exists c, c ∈ new /\ fst (fst c) = m).


(* ===================================================================== *)
(** * [network.py]: [ThoroughBM.create]                                   *)
(* ===================================================================== *)

Module ThoroughBM.

(** The names bound in the frame of [ThoroughBM.create]: its parameters,
    the variables it assigns, and [sim], which the [exec] of the import
    statement binds in [locals()]. *)
Definition create_locals : list string :=
  ["self"; "kwargs"; "sim"; "_nest_optimization"; "weight_is"; "receptor_type";
   "global_delay"; "column_names"; "tau_rec_overwritten"; "tau_rec"; "sampler";
   "pynn_params"; "wt"; "weights"; "connection_list"; "i_pre"; "i_post";
   "connection"; "tso_params"; "synapse_type"].

(** The global names of [network.py]: its imports and its classes.  (No
    builtin is called ["population"].) *)
Definition module_globals : list string :=
  ["c"; "it"; "np"; "logging"; "sys"; "copy"; "pf"; "p"; "log"; "db";
   "samplers"; "utils"; "cutils"; "gather_data"; "meta"; "bb";
   "BoltzmannMachineBase"; "ThoroughBM"; "RapidBMBase"; "RapidBMCurrentImprint";
   "RapidBMSpikeImprint"; "MixinRBM"; "RapidRBMCurrentImprint"].

(** Evaluating a name in [create]: the [exec] statement makes the function
    look names up at run time, in its frame, then in the module. *)
Definition load_name (name : string) : result unit :=
  if bool_decide (name ∈ create_locals ++ module_globals) then Ok tt
  else Err (NameError name).

(** ["exc"] and ["inh"] *)
Inductive conn_type : Type := Exc | Inh.

(** [self.weights_bio > 0.] and [self.weights_bio < 0.] *)
Definition weight_is (wt : conn_type) (weights_bio : matrix) : list (list bool) :=
  map (map (fun w : Qc =>
              match wt with
              | Exc => bool_decide (Q2Qc 0 < w)%Qc
              | Inh => bool_decide (w < Q2Qc 0)%Qc
              end)) (rows weights_bio).

(** [mask.sum()] *)
Definition mask_sum (mask : list (list bool)) : nat :=
  sum_list (map (fun r => length (List.filter (fun b : bool => b) r)) mask).

(** [np.nonzero(mask)], zipped: the index pairs of the true entries, row by
    row. *)
Definition np_nonzero (mask : list (list bool)) : list (nat * nat) :=
  concat (imap (fun i r => map (fun j => (i, j)) (np_where r)) mask).

(** An array of the given shape over [flat]. *)
Fixpoint chunks (fuel c : nat) (flat : list Qc) : list (list Qc) :=
  match fuel with
  | 0 => []
  | S fuel' => take c flat :: chunks fuel' c (drop c flat)
  end.

Definition nd_reshape (dims : list nat) (flat : list Qc) : ndarray :=
  match dims with
  | [] => Nd0 (default (Q2Qc 0) (head flat))
  | [n] => Nd1 flat
  | [r; c] => Nd2 (Matrix r c (chunks r c flat))
  | d1 :: d2 :: d3 :: ds => NdN d1 d2 d3 ds flat
  end.

(** [self.delays if global_delay else self.delays[i_pre, i_post]] *)
Definition delay_of (delays : ndarray) (i_pre i_post : nat) : result ndarray :=
  let global_delay := length (shape delays) =? 0 in
  if global_delay then Ok delays
  else
    match delays with
    | Nd0 x => Ok (Nd0 x)
    | Nd1 _ => Err IndexError
    | Nd2 m =>
        match entry m i_pre i_post with
        | Some x => Ok (Nd0 x)
        | None => Err IndexError
        end
    | NdN d1 d2 d3 ds flat =>
        if (i_pre <? d1) && (i_post <? d2) then
          let size := foldr Nat.mul 1 (d3 :: ds) in
          Ok (nd_reshape (d3 :: ds)
                (take size (drop ((i_pre * d2 + i_post) * size) flat)))
        else Err IndexError
    end.

(** A row of the connection list: [(i_pre, i_post, weight, delay)], with
    [tau_rec] appended for saturating synapses. *)
Record connection_row : Type := {
  row_pre : nat;
  row_post : nat;
  row_weight : Qc;
  row_delay : ndarray;
  row_tau_rec : option Qc
}.

Record projection : Type := {
  connection_list : list connection_row;
  receptor : string
}.

Section Create.

(** [self.saturating_synapses_enabled], [_nest_optimization],
    ["tau_rec" in self.tso_params], and the synaptic time constants
    [get_pynn_parameters()] reports for a sampler. *)
Variables (saturating_synapses_enabled _nest_optimization tau_rec_overwritten : bool).
Variable tau_syn : LIFsampler -> conn_type -> Qc.

Definition scaled_weight (wt : conn_type) (w : Qc) : Qc :=
  let w := match wt with Inh => (w * Qc_of_Z (-1))%Qc | Exc => w end in
  if saturating_synapses_enabled && _nest_optimization
  then (w * Qc_of_Z 1000)%Qc else w.

(** One round of [for i_pre, i_post in ...: connection_list.append(...)]. *)
Definition connection_for (self : BoltzmannMachine) (weights_bio : matrix)
    (delays : ndarray) (wt : conn_type) (idx : nat * nat) : result connection_row :=
  let '(i_pre, i_post) := idx in
  w ← match entry weights_bio i_pre i_post with
      | Some w => Ok (scaled_weight wt w)
      | None => Err IndexError
      end;
  d ← delay_of delays i_pre i_post;
  if saturating_synapses_enabled && negb tau_rec_overwritten then
    sampler ← py_getitem (samplers self) (Z.of_nat i_post);
    Ok {| row_pre := i_pre; row_post := i_post; row_weight := w; row_delay := d;
          row_tau_rec := Some (tau_syn sampler wt) |}
  else
    Ok {| row_pre := i_pre; row_post := i_post; row_weight := w; row_delay := d;
          row_tau_rec := None |}.

(** The body of [for wt in ["exc", "inh"]]; [continue] is [Ok None]. *)
Definition connect_type (self : BoltzmannMachine) (weights_bio : matrix)
    (delays : ndarray) (wt : conn_type) : result (option projection) :=
  if mask_sum (weight_is wt weights_bio) =? 0 then Ok None
  else
    connection_list ← mapM (connection_for self weights_bio delays wt)
                         (np_nonzero (weight_is wt weights_bio));
    _ ← load_name "sim";
    _ ← load_name "population";
    Ok (Some {| connection_list := connection_list;
                receptor := match wt with
                            | Exc => "excitatory"
                            | Inh => "inhibitory"
                            end |}).

(** [ThoroughBM.create(self, **kwargs)] after the call of the base class's
    [create], which is taken to succeed; the result is [self.projections]. *)
Definition create (self : BoltzmannMachine) (weights_bio : matrix)
    (delays : ndarray) : result (list (conn_type * projection)) :=
  exc ← connect_type self weights_bio delays Exc;
  inh ← connect_type self weights_bio delays Inh;
  Ok (match exc with Some p => [(Exc, p)] | None => [] end ++
      match inh with Some p => [(Inh, p)] | None => [] end).

End Create.

End ThoroughBM.



(* ===================================================================== *)
(** * [utils.py]: [save_pickle] and [load_pickle]                         *)
(* ===================================================================== *)

(** [s.split(sep)] for a one-character separator. *)
Fixpoint py_split (sep : Ascii.ascii) (s : string) : list string :=
  match s with
  | EmptyString => [EmptyString]
  | String c rest =>
      if Ascii.eqb c sep then EmptyString :: py_split sep rest
      else match py_split sep rest with
           | first :: parts => String c first :: parts
           | [] => [String c EmptyString]
           end
  end.

Module LegacyPickle.

(** [osp.extsep], the dot (character 46). *)
Definition extsep : Ascii.ascii := Ascii.ascii_of_nat 46.

(** [filename.split(osp.extsep)[0] + ".pkl.gz"], unless the extension is
    forced. *)
Definition pickle_filename (force_extension : bool) (filename : string)
  : result string :=
  if negb force_extension then
    first ← py_getitem (py_split extsep filename) 0;
    Ok (String.append first ".pkl.gz")
  else Ok filename.

(** What a file holds and how it can be read: [gzip.open] reads a
    compressed pickle, the builtin [open] a plain one; [pickle.load] fails
    on anything else. *)
Inductive content (Obj : Type) : Type :=
  | GzipPickle (obj : Obj)
  | PlainPickle (obj : Obj).
Arguments GzipPickle {Obj} obj.
Arguments PlainPickle {Obj} obj.

Inductive file_opener : Type := gzip_open | builtin_open.

Inductive loaded (Obj : Type) : Type :=
  | Loaded (obj : Obj)
  | NoSuchFile
  | NotAPickle.
Arguments Loaded {Obj} obj.
Arguments NoSuchFile {Obj}.
Arguments NotAPickle {Obj}.

Section Files.

Variable Obj : Type.

(** [save_pickle(obj, filename, force_extention)]: the file system after
    the call. *)
Definition save_pickle (obj : Obj) (filename : string) (force_extention : bool)
    (fs : gmap string (content Obj)) : result (gmap string (content Obj)) :=
  filename ← pickle_filename force_extention filename;
  Ok (<[filename := GzipPickle obj]> fs).

(** [load_pickle(filename, force_extension)] *)
Definition load_pickle (filename : string) (force_extension : bool)
    (fs : gmap string (content Obj)) : result (loaded Obj) :=
  filename ← pickle_filename force_extension filename;
  ext ← py_getitem (py_split extsep filename) (-1);
  let file_opener := if String.eqb ext "gz" then gzip_open else builtin_open in
  Ok match fs !! filename with
     | None => NoSuchFile
     | Some c =>
         match file_opener, c with
         | gzip_open, GzipPickle obj => Loaded obj
         | builtin_open, PlainPickle obj => Loaded obj
         | _, _ => NotAPickle
         end
     end.

End Files.

End LegacyPickle.


(* ===================================================================== *)
(** * [sbs/utils.py]: [get_pairwise_correlations]                         *)
(* ===================================================================== *)

(** [np.hstack(arrays)] of one-dimensional arrays; numpy needs at least one
    array to concatenate. *)
Definition np_hstack {A} (arrays : list (list A)) : result (list A) :=
  match arrays with
  | [] => Err ValueError
  | _ :: _ => Ok (concat arrays)
  end.

(** [tau_refs]: a scalar, or one value per neuron. *)
Inductive tau_refs_arg : Type :=
  | TauScalar (x : Qc)
  | TauList (l : list Qc).

Section PairwiseCorrelations.

(** The compiled routine [cutils.get_pairwise_correlations] and numpy's
    [argsort]. *)
Variable Corr : Type.
Variable cutils_get_pairwise_correlations :
  list nat -> list Qc -> list nat -> list Qc -> Qc -> Qc -> Corr.
Variable argsort : list Qc -> list nat.

(** [get_pairwise_correlations(spike_times, tau_refs, duration, ignore_until)] *)
Definition get_pairwise_correlations (spike_times : list (list Qc))
    (tau_refs : tau_refs_arg) (duration ignore_until : Qc) : result Corr :=
  let spike_ids := imap (fun i spikes => replicate (length spikes) i) spike_times in
  let num_neurons := length spike_times in
  spike_ids ← np_hstack spike_ids;
  spike_times ← np_hstack spike_times;
  let idx := argsort spike_times in
  spike_ids ← take_indices spike_ids idx;
  spike_times ← take_indices spike_times idx;
  tau_refs ← match tau_refs with
             | TauScalar x => Ok (replicate num_neurons x)
             | TauList l =>
                 if negb (length l =? num_neurons) then Err ValueError else Ok l
             end;
  Ok (cutils_get_pairwise_correlations spike_ids spike_times
        (seq 0 num_neurons) tau_refs duration ignore_until).

End PairwiseCorrelations.

Arguments get_pairwise_correlations {Corr}.


(** What the converted weights of layers [k] and [k+1] are, for samplers
    that convert each entry [w] to [f s w]: the first half holds the
    connections into layer [k+1], converted by the sampler they end at
    (the column), the second half those into layer [k], converted by the
    sampler of the row. *)
Definition layer_converted (f : LIFsampler -> Qc -> Qc)
    (layers : list (list LIFsampler)) (k : nat) (W : matrix)
    (AB : matrix * matrix) : Prop :=
  shape (Nd2 (fst AB)) = shape (Nd2 W) /\ shape (Nd2 (snd AB)) = shape (Nd2 W) /\
  (forall i j s, layers !! S k ≫= (.!! j) = Some s ->
     entry (fst AB) i j = f s <$> entry W i j) /\
  (forall i j s, layers !! k ≫= (.!! i) = Some s ->
     entry (snd AB) i j = f s <$> entry W i j).


(* ===================================================================== *)
(** * [sbs/db/sources.py]: [get_population_from_samplers]                 *)
(* ===================================================================== *)

Section GetPopulation.

Variable Pop : Type.

(** A sampler as this function sees it: [s.population],
    [s.network["population"]] and [s.network["index"]]. *)
Record placed_sampler : Type := {
  sampler_population : Pop;
  network_population : option Pop;
  network_index : Z
}.

(** [samplers]: a [sim.Population], or a list of samplers. *)
Inductive samplers_value : Type :=
  | SamplersPopulation (p : Pop)
  | SamplersList (l : list placed_sampler).

(** The result: a population, a list of populations, or the view
    [p[start:stop]]. *)
Inductive population_value : Type :=
  | WholePopulation (p : Pop)
  | Populations (ps : list Pop)
  | PopulationSlice (p : Pop) (start stop : Z).

(** [get_population_from_samplers(sim, samplers)] *)
Definition get_population_from_samplers (samplers : samplers_value)
  : result population_value :=
  match samplers with
  | SamplersPopulation p => Ok (WholePopulation p)
  | SamplersList l =>
      if length l =? 1 then
        s0 ← py_getitem l 0;
        Ok (WholePopulation (sampler_population s0))
      else
        s0 ← py_getitem l 0;
        match network_population s0 with
        | None => Ok (Populations (map sampler_population l))
        | Some net =>
            whole ← (if (network_index s0 =? 0)%Z then
                       last ← py_getitem l (-1);
                       Ok (network_index last - 1 =? Z.of_nat (length l))%Z
                     else Ok false);
            if whole : bool then Ok (WholePopulation net)
            else
              s0' ← py_getitem l 0;
              last ← py_getitem l (-1);
              Ok (PopulationSlice net (network_index s0') (network_index last))
        end
  end.

End GetPopulation.

Arguments sampler_population {Pop}.
Arguments network_population {Pop}.
Arguments network_index {Pop}.
Arguments SamplersPopulation {Pop}.
Arguments SamplersList {Pop}.
Arguments WholePopulation {Pop}.
Arguments Populations {Pop}.
Arguments PopulationSlice {Pop}.
Arguments get_population_from_samplers {Pop}.

(** The indices of the cells of [p[start:stop]], for
    [0 <= start <= stop <= len(p)]. *)
Definition slice_indices (start stop : Z) : list Z :=
  map (fun k => (start + Z.of_nat k)%Z) (seq 0 (Z.to_nat (stop - start))).


(* ===================================================================== *)
(** * [network.py]: [RapidBMBase]                                         *)
(* ===================================================================== *)

Module RapidBM.

(** [connectivity_matrix.shape == (self.population.size,) * 2]; the [dtype]
    of a boolean matrix is [np.bool]. *)
Definition shape_ok (size : nat) (m : list (list bool)) : bool :=
  (length m =? size) && forallb (fun r => length r =? size) m.

(** [self.weights_bio != 0.] *)
Definition nonzero_mask (weights_bio : matrix) : list (list bool) :=
  map (map (fun w : Qc => negb (bool_decide (w = Q2Qc 0)))) (rows weights_bio).

(** [a[mask]] for a two-dimensional boolean mask of the shape of [a]. *)
Definition mask_select2 (a : matrix) (mask : list (list bool)) : result (list Qc) :=
  if (length mask =? nrows a) && forallb (fun r => length r =? ncols a) mask
  then Ok (concat (zip_with mask_items (rows a) mask))
  else Err IndexError.

Section Connectivity.

(** The ids NEST gives the sampler neurons. *)
Variable G : Type.

(** [nest.Connect(src, tgt, weight, delay)] *)
Record connect_call : Type := {
  call_src : G;
  call_tgt : G;
  call_weight : Qc;
  call_delay : ndarray
}.

Definition connect_pair (gids : list G) (delays : ndarray) (idx : nat * nat)
  : result connect_call :=
  let '(src, tgt) := idx in
  g_src ← py_getitem gids (Z.of_nat src);
  g_tgt ← py_getitem gids (Z.of_nat tgt);
  d ← ThoroughBM.delay_of delays src tgt;
  Ok {| call_src := g_src; call_tgt := g_tgt; call_weight := Q2Qc 0;
        call_delay := d |}.

(** [RapidBMBase._create_connectivity(self, connectivity_matrix)]: the
    stored [self.connectivity_matrix] and the [nest.Connect] calls. *)
Definition _create_connectivity (population_size : nat) (gids : list G)
    (delays : ndarray) (weights_bio : matrix)
    (connectivity_matrix : option (list (list bool)))
  : result (list (list bool) * list connect_call) :=
  connectivity_matrix ←
    match connectivity_matrix with
    | None => Ok (nonzero_mask weights_bio)
    | Some m => if shape_ok population_size m then Ok m else Err (AssertionError "")
    end;
  calls ← mapM (connect_pair gids delays) (ThoroughBM.np_nonzero connectivity_matrix);
  Ok (connectivity_matrix, calls).

End Connectivity.

(** [RapidBMBase.update_weights(self)]: the weights handed to
    [nest.SetStatus(self._nest_connections, "weight", weights)]. *)
Definition update_weights (weights_bio : matrix)
    (connectivity_matrix : list (list bool)) : result (list Qc) :=
  let weights :=
    Matrix (nrows weights_bio) (ncols weights_bio)
      (map (map (fun w => w * Qc_of_Z 1000)%Qc) (rows weights_bio)) in
  mask_select2 weights connectivity_matrix.

End RapidBM.

Arguments RapidBM.call_src {G}.
Arguments RapidBM.call_tgt {G}.
Arguments RapidBM.call_weight {G}.
Arguments RapidBM.call_delay {G}.
Arguments RapidBM.connect_pair {G}.
Arguments RapidBM._create_connectivity {G}.

(** Connection [call] joins samplers [src] and [tgt]. *)
Definition call_joins {G} (gids : list G) (call : RapidBM.connect_call G)
    (src tgt : nat) : Prop :=
  gids !! src = Some (RapidBM.call_src call) /\
  gids !! tgt = Some (RapidBM.call_tgt call).


(* ===================================================================== *)
(** * [sbs/utils.py]: [group_identical_parameters]                        *)
(* ===================================================================== *)

Module GroupParameters.

(** A parameter value: a scalar, or a sequence with one value per element. *)
Inductive pvalue : Type :=
  | Scalar (x : Qc)
  | Sequence (l : list Qc).

(** [np.unique(v, return_inverse=True)]: the sorted distinct values, and for
    each entry of [v] its position among them. *)
Definition np_unique (v : list Qc) : list Qc * list nat :=
  let uniq := merge_sort Qcle (remove_dups v) in
  (uniq, map (fun x => default 0 (fst <$> list_find (fun y => y = x) uniq)) v).

(** What the generator yields: the indices of the elements of a group and
    the dictionary of their common parameter values. *)
Record group : Type := {
  elem_indices : list nat;
  values : gmap string pvalue
}.

(** [uniq_vals[k]] and [uniq_indices[k]] for the value [v] of key [k]. *)
Definition uniq_of (num_elements : nat) (v : pvalue) : list Qc * list nat :=
  match v with
  | Sequence l => np_unique l
  | Scalar x => ([x], replicate num_elements 0)
  end.

(** [elem_indices = np.ones(...); for k, i in izip(arg_names, indices):
    elem_indices *= (uniq_indices[k] == i)].  [uniq] lists the entries of
    [uniq_vals] and [uniq_indices] in the order of [arg_names]. *)
Definition select_elements (num_elements : nat)
    (uniq : list (string * (list Qc * list nat))) (indices : list nat) : list bool :=
  foldl (fun elem_indices (ki : string * (list Qc * list nat) * nat) =>
           zip_with andb elem_indices
             (map (fun u => u =? snd ki) (snd (snd (fst ki)))))
        (replicate num_elements true) (zip uniq indices).

(** [{k: uniq_vals[k][i] for k, i in zip(arg_names, indices)}] *)
Definition group_values (uniq : list (string * (list Qc * list nat)))
    (indices : list nat) : result (gmap string pvalue) :=
  vals ← mapM (fun ki : string * (list Qc * list nat) * nat =>
                 v ← py_getitem (fst (snd (fst ki))) (Z.of_nat (snd ki));
                 Ok (fst (fst ki), Scalar v))
              (zip uniq indices);
  Ok (list_to_map vals).

Section Grouping.

(** The order in which a [set] of tuples is iterated. *)
Variable set_iter : list (list nat) -> list (list nat).

(** [group_identical_parameters(parameters, num_elements)]; the result is
    the sequence of the generator's values.  The dictionary is iterated in
    the order of [map_to_list]. *)
Definition group_identical_parameters (parameters : gmap string pvalue)
    (num_elements : option nat) : result (list group) :=
  let items := map_to_list parameters in
  let all_num_elements :=
    omap (fun kv : string * pvalue =>
            match snd kv with
            | Sequence l => Some (length l)
            | Scalar _ => None
            end) items in
  match num_elements, all_num_elements with
  | None, [] => Ok [{| elem_indices := [0]; values := parameters |}]
  | _, _ =>
      num_elements ← match num_elements with
                     | Some n => Ok n
                     | None => py_getitem all_num_elements 0
                     end;
      if existsb (fun num_elems => negb (num_elements =? num_elems)) all_num_elements
      then Err ValueError
      else
        let uniq := map (fun kv : string * pvalue =>
                           (fst kv, uniq_of num_elements (snd kv))) items in
        combs ← mapM (fun i =>
                        mapM (fun u : string * (list Qc * list nat) =>
                                py_getitem (snd (snd u)) (Z.of_nat i)) uniq)
                     (seq 0 num_elements);
        let uniq_combs := set_iter combs in
        groups ← mapM (fun indices =>
                         let elem_indices := select_elements num_elements uniq indices in
                         if 0 <? length (List.filter (fun b : bool => b) elem_indices)
                         then
                           vals ← group_values uniq indices;
                           Ok (Some {| elem_indices := np_where elem_indices;
                                       values := vals |})
                         else Ok None)
                      uniq_combs;
        Ok (omap (fun g => g) groups)
  end.

End Grouping.

(** The value of a parameter for element [e]. *)
Definition value_at (v : pvalue) (e : nat) : option Qc :=
  match v with
  | Scalar x => Some x
  | Sequence l => l !! e
  end.

End GroupParameters.


(** The combination of unique-value indices of element [e]. *)
Definition code_of (uniq : list (string * (list Qc * list nat))) (e : nat)
  : list (option nat) :=
  map (fun u => snd (snd u) !! e) uniq.


Section GroupingSpecs.

Variable parameters : gmap string GroupParameters.pvalue.
Variable n : nat.

(** [uniq_vals] and [uniq_indices], in the order of [arg_names]. *)
Definition uniq_table : list (string * (list Qc * list nat)) :=
  map (fun kv : string * GroupParameters.pvalue =>
         (fst kv, GroupParameters.uniq_of n (snd kv))) (map_to_list parameters).

Definition num_code (e : nat) : list nat :=
  map (fun u : string * (list Qc * list nat) => default 0 (snd (snd u) !! e))
      uniq_table.

(** What the generator yields for the combination [c]. *)
Definition group_for (c : list nat) (g : GroupParameters.group) : Prop :=
  NoDup (GroupParameters.elem_indices g) /\
  (forall e, e ∈ GroupParameters.elem_indices g <->
             e < n /\ code_of uniq_table e = map Some c) /\
  forall e k v, e ∈ GroupParameters.elem_indices g -> parameters !! k = Some v ->
    exists x, GroupParameters.value_at v e = Some x /\
              GroupParameters.values g !! k = Some (GroupParameters.Scalar x).

End GroupingSpecs.


(* ===================================================================== *)
(** * [network.py]: [BoltzmannMachineBase.__init__]                       *)
(* ===================================================================== *)

Module BMInit.

(** [pynn_model]: [None], a string, or a list of strings. *)
Inductive model_arg : Type :=
  | NoModel
  | ModelName (name : string)
  | ModelList (names : list string).

Section Init.

(** A dictionary of neuron parameters. *)
Variable Params : Type.

(** [neuron_parameters]: [None], one dictionary, or a sequence of them. *)
Inductive params_arg : Type :=
  | NoParams
  | OneParams (p : Params)
  | ParamsList (ps : list Params).

(** [neuron_parameters_db_ids]: [None], one id, or a sequence of ids. *)
Inductive ids_arg : Type :=
  | NoIds
  | OneId (i : Z)
  | IdList (ids : list Z).

(** The arguments of one [samplers.LIFsampler(...)] call. *)
Inductive sampler_call : Type :=
  | FromParameters (pynn_model : string) (neuron_parameters : Params)
  | FromDatabase (id : Z).

(** How [__init__] ends: with [self.samplers] set, with one of the
    exceptions of [exn], or with the plain [Exception] of its last branch. *)
Inductive outcome : Type :=
  | Created (samplers : list sampler_call)
  | Raised (e : exn)
  | RaisedException (msg : string).

Definition of_result (r : result (list sampler_call)) : outcome :=
  match r with Ok ss => Created ss | Err e => Raised e end.

(** [BoltzmannMachineBase.__init__], up to the creation of the samplers. *)
Definition __init__ (num_samplers : nat) (pynn_model : model_arg)
    (neuron_parameters : params_arg)
    (neuron_index_to_parameters : option (list Z))
    (neuron_parameters_db_ids : ids_arg) : outcome :=
  match pynn_model, neuron_parameters with
  | NoModel, OneParams _ | NoModel, ParamsList _ =>
      Raised ValueError
  | _, _ =>
      let pynn_model :=
        match pynn_model with
        | ModelName name => Some (replicate num_samplers name)
        | ModelList names => Some names
        | NoModel => None
        end in
      match neuron_parameters with
      | OneParams _ | ParamsList _ =>
          let '(neuron_parameters, neuron_index_to_parameters) :=
            match neuron_parameters with
            | OneParams p => ([p], replicate num_samplers 0%Z)
            | ParamsList ps =>
                (ps, match neuron_index_to_parameters with
                     | None => map Z.of_nat (seq 0 num_samplers)
                     | Some idx => idx
                     end)
            | NoParams => ([], [])
            end in
          of_result
            (mapM (fun i =>
                     m ← match pynn_model with
                         | Some names => py_getitem names i
                         | None => Err TypeError
                         end;
                     p ← py_getitem neuron_parameters i;
                     Ok (FromParameters m p))
                  neuron_index_to_parameters)
      | NoParams =>
          match neuron_parameters_db_ids with
          | OneId i => Created (replicate num_samplers (FromDatabase i))
          | IdList ids => Created (map FromDatabase ids)
          | NoIds =>
              RaisedException
                "Please provide either parameters or ids in the database!"
          end
      end
  end.

End Init.

End BMInit.

Arguments BMInit.NoParams {Params}.
Arguments BMInit.OneParams {Params}.
Arguments BMInit.ParamsList {Params}.
Arguments BMInit.FromParameters {Params}.
Arguments BMInit.FromDatabase {Params}.
Arguments BMInit.Created {Params}.
Arguments BMInit.Raised {Params}.
Arguments BMInit.RaisedException {Params}.
Arguments BMInit.__init__ {Params}.

(* ===================================================================== *)
(** * Properties                                                          *)
(* ===================================================================== *)

(** ** The weight setter: shapes and scalar broadcast *)

Lemma entry_np_full r c x i j :
  i < r -> j < c -> entry (np_full r c x) i j = Some x.
Proof.
  intros Hi Hj. unfold entry, np_full. simpl.
  rewrite lookup_replicate_2 by done. simpl.
  by rewrite lookup_replicate_2.
Qed.

Lemma fill_diagonal_square (m : matrix) (value : Qc) :
  nrows m = ncols m ->
  fill_diagonal m value =
    Ok (Matrix (nrows m) (ncols m) (imap (fun i r => <[i := value]> r) (rows m))).
Proof.
  intros Heq. unfold fill_diagonal. simpl.
  rewrite Nat.eqb_refl, <- Heq, Nat.eqb_refl. reflexivity.
Qed.

Lemma entry_fill_diagonal (m m' : matrix) (value : Qc) i j :
  fill_diagonal m value = Ok m' ->
  is_Some (entry m i j) ->
  entry m' i j = if decide (i = j) then Some value else entry m i j.
Proof.
  unfold fill_diagonal.
  destruct (forallb _ _); [|discriminate].
  intros [= <-] [x Hx]. unfold entry in *. simpl.
  rewrite list_lookup_imap.
  destruct (rows m !! i) as [r|] eqn:Hr; simpl in *; [|discriminate].
  destruct (decide (i = j)) as [->|Hne].
  - apply list_lookup_insert_eq. by eapply lookup_lt_Some.
  - by rewrite list_lookup_insert_ne.
Qed.

Lemma check_weight_matrix_wrong_shape (self : BoltzmannMachine) (weights : ndarray) :
  shape weights <> [] ->
  shape weights <> [num_samplers self; num_samplers self] ->
  _check_weight_matrix self weights = Err (AssertionError "Weight matrix shape").
Proof.
  intros Hs Hn. unfold _check_weight_matrix.
  destruct weights as [x|v|m|d1 d2 d3 ds flat]; simpl in *; try done;
    by rewrite bool_decide_eq_false_2.
Qed.

Lemma check_weight_matrix_scalar (self : BoltzmannMachine) (s : Qc) :
  _check_weight_matrix self (Nd0 s) =
    fill_diagonal (np_full (num_samplers self) (num_samplers self) s) (Q2Qc 0).
Proof.
  unfold _check_weight_matrix. simpl.
  by rewrite bool_decide_eq_true_2.
Qed.

Lemma assign_weights_state (depth : nat) (a : weights_attr) (value : ndarray)
    (self : BoltzmannMachine) :
  assign_weights depth a value self =
    match _check_weight_matrix self value with
    | Ok w =>
        (Ok tt,
         match a with
         | WeightsTheo => set_weights_bio_cache None (set_weights_theo_cache (Some w) self)
         | WeightsBio => set_weights_theo_cache None (set_weights_bio_cache (Some w) self)
         end)
    | Err e => (Err e, self)
    end.
Proof.
  destruct a; unfold assign_weights, Meta.set, weights_theo, weights_bio;
    unfold mbind, M_bind, bind_M, get_M, lift_M, modify_M;
    by destruct (_check_weight_matrix self value).
Qed.

(** C8.  Assigning a weight matrix whose shape is neither scalar nor
    [(N, N)] fails (the shape assertion, the spec's [ShapeError]) and leaves
    the object, hence the stored weights, unchanged; assigning a scalar [s]
    succeeds and stores an [N x N] matrix with [s] off the diagonal and zero
    on it. *)
Theorem weight_setter_shape_and_broadcast (self : BoltzmannMachine)
    (depth : nat) (a : weights_attr) :
  (forall weights : ndarray,
      shape weights <> [] ->
      shape weights <> [num_samplers self; num_samplers self] ->
      assign_weights depth a weights self =
        (Err (AssertionError "Weight matrix shape"), self)) /\
  (forall s : Qc, exists m : matrix,
      _check_weight_matrix self (Nd0 s) = Ok m /\
      fst (assign_weights depth a (Nd0 s) self) = Ok tt /\
      match a with
      | WeightsTheo => weights_theo_cache
      | WeightsBio => weights_bio_cache
      end (snd (assign_weights depth a (Nd0 s) self)) = Some m /\
      nrows m = num_samplers self /\ ncols m = num_samplers self /\
      forall i j, i < num_samplers self -> j < num_samplers self ->
        entry m i j = if decide (i = j) then Some (Q2Qc 0) else Some s).
Proof.
  split.
  - intros weights Hs Hn. rewrite assign_weights_state.
    by rewrite check_weight_matrix_wrong_shape.
  - intros s.
    pose proof (fill_diagonal_square
                  (np_full (num_samplers self) (num_samplers self) s) (Q2Qc 0)
                  eq_refl) as Hfd.
    eexists. rewrite assign_weights_state, check_weight_matrix_scalar, Hfd.
    split; [reflexivity|]. split; [reflexivity|].
    split; [by destruct a|]. split; [reflexivity|]. split; [reflexivity|].
    intros i j Hi Hj.
    erewrite entry_fill_diagonal; [| exact Hfd | by rewrite entry_np_full].
    case_decide; [done|]. by rewrite entry_np_full.
Qed.

(** ** Column-wise conversion *)

Lemma matrix_wf_spec (m : matrix) :
  matrix_wf m = true <->
  length (rows m) = nrows m /\ Forall (fun r => length r = ncols m) (rows m).
Proof.
  unfold matrix_wf. rewrite andb_true_iff, Nat.eqb_eq, forallb_forall, Forall_forall.
  split; intros [H1 H2]; split; try done; intros r Hr.
  - apply Nat.eqb_eq, H2. by apply list_elem_of_In.
  - apply Nat.eqb_eq, H2. by apply list_elem_of_In.
Qed.

Lemma entry_is_Some (m : matrix) i j :
  matrix_wf m = true -> i < nrows m -> j < ncols m -> is_Some (entry m i j).
Proof.
  rewrite matrix_wf_spec. intros [Hlen Hall] Hi Hj. unfold entry.
  destruct (lookup_lt_is_Some_2 (rows m) i) as [r Hr]; [lia|].
  rewrite Hr. simpl. apply lookup_lt_is_Some_2.
  rewrite Forall_forall in Hall. rewrite (Hall r); [done|].
  by eapply list_elem_of_lookup_2.
Qed.

Lemma entry_None_row (m : matrix) i j :
  matrix_wf m = true -> nrows m <= i -> entry m i j = None.
Proof.
  rewrite matrix_wf_spec. intros [Hlen _] Hi. unfold entry.
  rewrite lookup_ge_None_2; [done | lia].
Qed.

Lemma entry_None_col (m : matrix) i j :
  matrix_wf m = true -> ncols m <= j -> entry m i j = None.
Proof.
  rewrite matrix_wf_spec. intros [_ Hall] Hj. unfold entry.
  destruct (rows m !! i) as [r|] eqn:Hr; [|done]. simpl.
  apply lookup_ge_None_2. rewrite Forall_forall in Hall.
  rewrite (Hall r); [done|]. by eapply list_elem_of_lookup_2.
Qed.

(** Two well-formed matrices of one shape with the same entries are equal. *)
Lemma matrix_ext (m1 m2 : matrix) :
  matrix_wf m1 = true -> matrix_wf m2 = true ->
  nrows m1 = nrows m2 -> ncols m1 = ncols m2 ->
  (forall i j, i < nrows m1 -> j < ncols m1 -> entry m1 i j = entry m2 i j) ->
  m1 = m2.
Proof.
  intros Hwf1 Hwf2 Hr Hc Hent.
  pose proof Hwf1 as [Hl1 Ha1]%matrix_wf_spec.
  pose proof Hwf2 as [Hl2 Ha2]%matrix_wf_spec.
  destruct m1 as [r1 c1 rs1], m2 as [r2 c2 rs2]. simpl in *. subst r2 c2.
  f_equal. apply list_eq. intros i.
  destruct (decide (i < r1)) as [Hi|Hi].
  - destruct (lookup_lt_is_Some_2 rs1 i) as [x Hx]; [lia|].
    destruct (lookup_lt_is_Some_2 rs2 i) as [y Hy]; [lia|].
    rewrite Hx, Hy. f_equal. apply list_eq. intros j.
    rewrite Forall_forall in Ha1, Ha2.
    pose proof (Ha1 x (list_elem_of_lookup_2 _ _ _ Hx)) as Hlx.
    pose proof (Ha2 y (list_elem_of_lookup_2 _ _ _ Hy)) as Hly.
    destruct (decide (j < c1)) as [Hj|Hj].
    + specialize (Hent i j Hi Hj). unfold entry in Hent. simpl in Hent.
      by rewrite Hx, Hy in Hent.
    + rewrite !lookup_ge_None_2; [done | lia | lia].
  - rewrite !lookup_ge_None_2; [done | lia | lia].
Qed.

Lemma omap_total_lookup {A B} (f : A -> option B) (l : list A) :
  Forall (fun x => is_Some (f x)) l ->
  length (omap f l) = length l /\ forall i, omap f l !! i = l !! i ≫= f.
Proof.
  induction 1 as [|x l [y Hy] _ [IHlen IHl]]; [by split; [|intros []]|].
  simpl. rewrite Hy. simpl. split; [by f_equal|].
  intros [|i]; simpl; [done | apply IHl].
Qed.

Lemma get_col_spec (m : matrix) (j : nat) :
  matrix_wf m = true -> j < ncols m ->
  exists col, get_col m j = Ok col /\ length col = nrows m /\
              forall i, col !! i = entry m i j.
Proof.
  intros Hwf Hj. pose proof Hwf as [Hlen Hall]%matrix_wf_spec.
  unfold get_col. rewrite (proj2 (Nat.ltb_lt _ _) Hj).
  destruct (omap_total_lookup (.!! j) (rows m)) as [Hl Hlk].
  { eapply Forall_impl; [exact Hall|]. intros r Hr. simpl in *.
    apply lookup_lt_is_Some_2. lia. }
  eexists. split; [reflexivity|]. split; [lia|]. intros i. by rewrite Hlk.
Qed.

Lemma set_col_spec (m : matrix) (j : nat) (col : list Qc) :
  matrix_wf m = true -> j < ncols m -> length col = nrows m ->
  exists m', set_col m j col = Ok m' /\ matrix_wf m' = true /\
             nrows m' = nrows m /\ ncols m' = ncols m /\
             forall i k, entry m' i k =
                         if decide (k = j) then col !! i else entry m i k.
Proof.
  intros Hwf Hj Hcol. pose proof Hwf as [Hlen Hall]%matrix_wf_spec.
  unfold set_col. rewrite (proj2 (Nat.ltb_lt _ _) Hj).
  rewrite (proj2 (Nat.eqb_eq _ _) Hcol).
  eexists. split; [reflexivity|].
  split; [|split; [done|split; [done|]]].
  - apply matrix_wf_spec. simpl. split.
    + rewrite length_zip_with. lia.
    + apply Forall_forall. intros r. rewrite list_elem_of_lookup.
      intros [i Hi]. rewrite lookup_zip_with in Hi.
      destruct (rows m !! i) as [r0|] eqn:Hr0; simpl in Hi; [|done].
      destruct (col !! i); simpl in Hi; [|done]. injection Hi as <-.
      rewrite length_insert. rewrite Forall_forall in Hall. apply Hall.
      by eapply list_elem_of_lookup_2.
  - intros i k. unfold entry. simpl. rewrite lookup_zip_with.
    destruct (rows m !! i) as [r|] eqn:Hr; simpl.
    + assert (length r = ncols m) as Hlr.
      { rewrite Forall_forall in Hall. apply Hall. by eapply list_elem_of_lookup_2. }
      destruct (col !! i) as [x|] eqn:Hx; simpl.
      * case_decide as Hk.
        -- subst k. apply list_lookup_insert_eq. lia.
        -- by rewrite list_lookup_insert_ne.
      * apply lookup_ge_None in Hx. apply lookup_lt_Some in Hr. lia.
    + case_decide; [|done]. symmetry. apply lookup_ge_None_2.
      apply lookup_ge_None in Hr. lia.
Qed.

Lemma entry_zeros_like (m : matrix) i j :
  i < nrows m -> j < ncols m -> entry (np_zeros_like m) i j = Some (Q2Qc 0).
Proof. apply entry_np_full. Qed.

Lemma np_zeros_like_wf (m : matrix) : matrix_wf (np_zeros_like m) = true.
Proof.
  apply matrix_wf_spec. simpl. split; [by rewrite length_replicate|].
  apply Forall_replicate. by rewrite length_replicate.
Qed.

(** The column loop, entry by entry: columns [j .. j + len ss) of the result
    hold the converted entries of [weights], the others what
    [conv_weights] held. *)
Lemma convert_columns_spec (convert : LIFsampler -> list Qc -> result (list Qc))
    (f : LIFsampler -> Qc -> Qc) (weights : matrix) :
  matrix_wf weights = true ->
  forall (ss : list LIFsampler) (j : nat) (acc : matrix),
    (forall s col, s ∈ ss -> convert s col = Ok (map (f s) col)) ->
    matrix_wf acc = true ->
    nrows acc = nrows weights -> ncols acc = ncols weights ->
    j + length ss <= ncols weights ->
    exists R, convert_columns convert weights j ss acc = Ok R /\
      matrix_wf R = true /\ nrows R = nrows weights /\ ncols R = ncols weights /\
      forall i k, entry R i k =
        match (if decide (j <= k) then ss !! (k - j) else None) with
        | Some s => f s <$> entry weights i k
        | None => entry acc i k
        end.
Proof.
  intros Hwf ss. induction ss as [|s ss IH]; intros j acc Hconv Hacc Hnr Hnc Hj.
  - exists acc. simpl. repeat split; try done.
    intros i k. by case_decide.
  - simpl in Hj. simpl.
    destruct (get_col_spec weights j Hwf) as (col & -> & Hlcol & Hcol); [lia|].
    simpl. rewrite Hconv by left. simpl.
    destruct (set_col_spec acc j (map (f s) col) Hacc) as
      (acc' & -> & Hacc' & Hnr' & Hnc' & Hent'); [lia | rewrite length_map; lia |].
    simpl.
    destruct (IH (S j) acc') as (R & -> & HR & HnrR & HncR & HentR);
      [ intros; apply Hconv; by right | done | lia | lia | lia |].
    exists R. repeat split; try done.
    intros i k. rewrite HentR, Hent'.
    destruct (decide (j <= k)) as [Hjk|Hjk].
    + destruct (decide (k = j)) as [->|Hne].
      * rewrite decide_False by lia. rewrite Nat.sub_diag. simpl.
        by rewrite list_lookup_fmap, Hcol.
      * rewrite decide_True by lia.
        replace (k - j) with (S (k - S j)) by lia. simpl.
        by destruct (ss !! (k - S j)).
    + rewrite decide_False by lia. rewrite decide_False by lia. done.
Qed.

Lemma valid_calibration_alpha (s : LIFsampler) :
  valid_calibration s = true ->
  alpha_of s <> Q2Qc 0 /\
  (forall col, Samplers.convert_weights_theo_to_bio s col =
                 Ok (map (fun w => w * alpha_of s)%Qc col)) /\
  (forall col, Samplers.convert_weights_bio_to_theo s col =
                 Ok (map (fun w => w / alpha_of s)%Qc col)).
Proof.
  unfold valid_calibration, alpha_of, Samplers.convert_weights_theo_to_bio,
    Samplers.convert_weights_bio_to_theo.
  destruct (calibration s) as [c|]; [|discriminate].
  intros Hpos%bool_decide_eq_true. split; [|done].
  intros Heq. rewrite Heq in Hpos. revert Hpos. by apply Qcle_not_lt, Qcle_refl.
Qed.

(** A whole-matrix conversion with calibrated samplers, entry by entry. *)
Lemma convert_weights_entries (self : BoltzmannMachine) (weights : matrix) :
  matrix_wf weights = true ->
  length (samplers self) = ncols weights ->
  forallb valid_calibration (samplers self) = true ->
  (exists B, convert_weights_theo_to_bio self weights = Ok B /\
     matrix_wf B = true /\ nrows B = nrows weights /\ ncols B = ncols weights /\
     forall i k s, samplers self !! k = Some s ->
       entry B i k = (fun w => w * alpha_of s)%Qc <$> entry weights i k) /\
  (exists T, convert_weights_bio_to_theo self weights = Ok T /\
     matrix_wf T = true /\ nrows T = nrows weights /\ ncols T = ncols weights /\
     forall i k s, samplers self !! k = Some s ->
       entry T i k = (fun w => w / alpha_of s)%Qc <$> entry weights i k).
Proof.
  intros Hwf Hlen Hval.
  assert (forall s, s ∈ samplers self -> valid_calibration s = true) as Hv.
  { intros s Hs. rewrite forallb_forall in Hval. apply Hval.
    by apply list_elem_of_In. }
  split.
  - destruct (convert_columns_spec Samplers.convert_weights_theo_to_bio
                (fun s w => w * alpha_of s)%Qc weights Hwf (samplers self) 0
                (np_zeros_like weights)) as (R & HR & Hwr & Hr & Hc & Hent);
      [ intros s col Hs; by apply valid_calibration_alpha, Hv
      | apply np_zeros_like_wf | done | done | lia |].
    exists R. repeat split; try done.
    intros i k s Hs. rewrite Hent. rewrite decide_True by lia.
    by rewrite Nat.sub_0_r, Hs.
  - destruct (convert_columns_spec Samplers.convert_weights_bio_to_theo
                (fun s w => w / alpha_of s)%Qc weights Hwf (samplers self) 0
                (np_zeros_like weights)) as (R & HR & Hwr & Hr & Hc & Hent);
      [ intros s col Hs; by apply valid_calibration_alpha, Hv
      | apply np_zeros_like_wf | done | done | lia |].
    exists R. repeat split; try done.
    intros i k s Hs. rewrite Hent. rewrite decide_True by lia.
    by rewrite Nat.sub_0_r, Hs.
Qed.

Lemma has_zero_diagonal_spec (m : matrix) :
  has_zero_diagonal m = true <->
  forall i, i < Nat.min (nrows m) (ncols m) -> entry m i i = Some (Q2Qc 0).
Proof.
  unfold has_zero_diagonal. rewrite forallb_forall. split.
  - intros H i Hi. eapply bool_decide_eq_true_1, H, in_seq. lia.
  - intros H i Hi%in_seq. apply bool_decide_eq_true_2, H. lia.
Qed.

(** ** C1: the round trip of the two conversions *)




Example weights_roundtrip_diagonal_values :
  match convert_weights_theo_to_bio (machine_of [sampler_of 1 10 (Some 2%Z)])
          (matrix_of [[3]]%Z) with
  | Ok B =>
      entry B 0 0 = Some (qz 6) /\
      match convert_weights_bio_to_theo (machine_of [sampler_of 1 10 (Some 2%Z)]) B with
      | Ok T => entry T 0 0 = Some (qz 3)
      | Err _ => False
      end
  | Err _ => False
  end.
Proof.
  cbn. split; cbn; f_equal; apply Qc_is_canon; reflexivity.
Qed.

(** The setter at a concrete input: a vector where a matrix is expected. *)
Lemma weight_setter_shape_and_broadcast_witness :
  assign_weights 2 WeightsTheo (Nd1 [qz 1; qz 2])
    (machine_of [sampler_of 1 10 None; sampler_of 2 10 None]) =
  (Err (AssertionError "Weight matrix shape"),
   machine_of [sampler_of 1 10 None; sampler_of 2 10 None]).
Proof.
  apply (weight_setter_shape_and_broadcast
           (machine_of [sampler_of 1 10 None; sampler_of 2 10 None]) 2 WeightsTheo);
    simpl; discriminate.
Defined.

(** ** C2: the two views of the weights *)

Lemma read_weights_after_write (d : nat) (a : weights_attr) (W : matrix)
    (self : BoltzmannMachine) :
  match a with
  | WeightsTheo =>
      weights_theo_cache self = Some W -> weights_bio_cache self = None ->
      read_weights (S (S d)) WeightsBio self =
        match convert_weights_theo_to_bio self W with
        | Ok B => (Ok B, set_weights_bio_cache (Some B) self)
        | Err e => (Err e, self)
        end
  | WeightsBio =>
      weights_bio_cache self = Some W -> weights_theo_cache self = None ->
      read_weights (S (S d)) WeightsTheo self =
        match convert_weights_bio_to_theo self W with
        | Ok T => (Ok T, set_weights_theo_cache (Some T) self)
        | Err e => (Err e, self)
        end
  end.
Proof.
  destruct a; intros Hset Hstale; simpl;
    unfold Meta.get, weights_bio, weights_theo, mbind, M_bind, bind_M, get_M,
      lift_M, modify_M, mret, M_ret, ret_M;
    rewrite Hstale, Hset.
  - by destruct (convert_weights_theo_to_bio self W).
  - by destruct (convert_weights_bio_to_theo self W).
Qed.

(** C2.  After a successful [weights_theo = X] the cached biological matrix
    is gone, the stored theoretical matrix is the checked [X], and the next
    read of [weights_bio] returns [convert_weights_theo_to_bio] of that
    stored matrix (and memoizes it), or raises what the conversion raises;
    symmetrically for [weights_bio = X] and a read of [weights_theo]. *)
Theorem weights_write_then_read (self self' : BoltzmannMachine)
    (depth d : nat) (X : ndarray) :
  (assign_weights depth WeightsTheo X self = (Ok tt, self') ->
   weights_bio_cache self' = None /\
   exists W, _check_weight_matrix self X = Ok W /\
     weights_theo_cache self' = Some W /\
     read_weights (S (S d)) WeightsBio self' =
       match convert_weights_theo_to_bio self' W with
       | Ok B => (Ok B, set_weights_bio_cache (Some B) self')
       | Err e => (Err e, self')
       end) /\
  (assign_weights depth WeightsBio X self = (Ok tt, self') ->
   weights_theo_cache self' = None /\
   exists W, _check_weight_matrix self X = Ok W /\
     weights_bio_cache self' = Some W /\
     read_weights (S (S d)) WeightsTheo self' =
       match convert_weights_bio_to_theo self' W with
       | Ok T => (Ok T, set_weights_theo_cache (Some T) self')
       | Err e => (Err e, self')
       end).
Proof.
  split; rewrite assign_weights_state;
    destruct (_check_weight_matrix self X) as [W|e]; try discriminate;
    intros [= <-]; (split; [reflexivity|]); exists W;
    (split; [reflexivity|]); (split; [reflexivity|]).
  - by apply (read_weights_after_write d WeightsTheo).
  - by apply (read_weights_after_write d WeightsBio).
Qed.

(** A write of [[0, 1], [1, 0]] to a calibrated two-sampler machine
    succeeds; the read that follows it. *)
Lemma weights_write_then_read_witness :
  let bm := machine_of [sampler_of 1 10 (Some 2%Z); sampler_of 2 10 (Some 3%Z)] in
  let bm' := snd (assign_weights 2 WeightsTheo (Nd2 (matrix_of [[0; 1]; [1; 0]]%Z)) bm) in
  weights_bio_cache bm' = None /\
  exists W, _check_weight_matrix bm (Nd2 (matrix_of [[0; 1]; [1; 0]]%Z)) = Ok W /\
    weights_theo_cache bm' = Some W /\
    read_weights 2 WeightsBio bm' =
      match convert_weights_theo_to_bio bm' W with
      | Ok B => (Ok B, set_weights_bio_cache (Some B) bm')
      | Err e => (Err e, bm')
      end.
Proof.
  intros bm bm'.
  apply (weights_write_then_read bm bm' 2 0 (Nd2 (matrix_of [[0; 1]; [1; 0]]%Z))).
  reflexivity.
Defined.

(** ** C9: loading calibrations in a batch *)

Section LoadCalibrationFacts.

Variable sampler_load_calibration : LIFsampler -> option Z -> bool * LIFsampler.

Lemma load_calibration_loop_spec (ids : list Z) (todo : list LIFsampler) :
  forall (i : nat) (done : list LIFsampler) (failed : list Z),
    load_calibration_loop sampler_load_calibration ids i todo done failed =
      (failed ++
       map (fun o => id (neuron_params (snd o)))
         (filter (fun o => fst o = false)
            (imap (fun k s => load_one sampler_load_calibration ids (i + k) s) todo)),
       reverse done ++
       map snd
         (imap (fun k s => load_one sampler_load_calibration ids (i + k) s) todo)).
Proof.
  induction todo as [|s todo IH]; intros i done failed.
  - simpl. by rewrite !app_nil_r.
  - cbn [load_calibration_loop].
    destruct (load_one sampler_load_calibration ids i s) as [ok s'] eqn:Hone.
    rewrite IH.
    rewrite (imap_cons _ s todo), Nat.add_0_r, Hone.
    rewrite (imap_ext (_ ∘ S)
               (fun k s0 => load_one sampler_load_calibration ids (S i + k) s0)
               todo) by (intros; simpl; f_equal; lia).
    rewrite filter_cons, reverse_cons, <- !app_assoc. cbn [fst snd map app].
    destruct ok; cbn [negb].
    + rewrite decide_False by discriminate. reflexivity.
    + rewrite decide_True by done. cbn [map snd]. by rewrite <- app_assoc.
Qed.

Lemma no_failed_outcome (os : list (bool * LIFsampler)) :
  Forall (fun o => fst o = true) os <-> filter (fun o => fst o = false) os = [].
Proof.
  induction os as [|o l IH]; [by split; [|constructor]|].
  rewrite filter_cons, Forall_cons, IH.
  destruct (decide (fst o = false)) as [Hf|Hf].
  - split; [intros [Ho _]; congruence | discriminate].
  - split; [tauto|]. intros Hl. split; [by destruct (fst o) | done].
Qed.

(** C9.  [load_calibration] runs the load of every sampler, in order, with
    the id given for its position (none beyond the ids given), whatever
    the earlier loads returned: the samplers it leaves behind are the
    outcomes of all these loads, and the list it returns holds the
    parameter ids of exactly the samplers whose load reported failure
    (empty when none did). *)
Theorem load_calibration_collects_failures (ids : list Z)
    (self : BoltzmannMachine) :
  let os := imap (fun k s => sampler_load_calibration s (ids !! k)) (samplers self) in
  load_calibration sampler_load_calibration ids self =
    (Ok (map (fun o => id (neuron_params (snd o)))
           (filter (fun o => fst o = false) os)),
     set_samplers (map snd os) self) /\
  length os = length (samplers self) /\
  (Forall (fun o => fst o = true) os <->
   fst (load_calibration sampler_load_calibration ids self) = Ok []).
Proof.
  intros os.
  assert (imap (fun k s => load_one sampler_load_calibration ids (0 + k) s)
            (samplers self) = os) as Hos.
  { unfold os. apply imap_ext. intros k s _. unfold load_one. simpl.
    destruct (k <? length ids) eqn:Hk; [done|].
    apply Nat.ltb_ge in Hk. by rewrite lookup_ge_None_2. }
  assert (load_calibration sampler_load_calibration ids self =
          (Ok (map (fun o => id (neuron_params (snd o)))
                 (filter (fun o => fst o = false) os)),
           set_samplers (map snd os) self)) as Heq.
  { unfold load_calibration, mbind, M_bind, bind_M, get_M, modify_M, mret,
      M_ret, ret_M.
    rewrite load_calibration_loop_spec, Hos. reflexivity. }
  split; [exact Heq|]. split; [unfold os; by rewrite length_imap|].
  rewrite Heq. simpl. split.
  - intros Hall. f_equal. by rewrite (proj1 (no_failed_outcome os)).
  - intros [= Hnil]. apply fmap_nil_inv in Hnil. by apply no_failed_outcome.
Qed.

End LoadCalibrationFacts.

(** ** C6: the empirical marginal distribution *)

Lemma py_norm_index_nat (len k : nat) :
  k < len -> py_norm_index len (Z.of_nat k) = Some k.
Proof.
  intros Hk. unfold py_norm_index.
  rewrite (proj2 (Z.leb_le _ _)) by lia.
  rewrite (proj2 (Z.ltb_lt _ _)) by lia.
  by rewrite Nat2Z.id.
Qed.

Lemma py_norm_index_out (len : nat) (i : Z) :
  (Z.of_nat len <= i)%Z -> py_norm_index len i = None.
Proof.
  intros Hi. unfold py_norm_index.
  rewrite (proj2 (Z.leb_le _ _)) by lia.
  by rewrite (proj2 (Z.ltb_ge _ _)) by lia.
Qed.

Lemma py_getitem_nat {A} (l : list A) (k : nat) (x : A) :
  l !! k = Some x -> py_getitem l (Z.of_nat k) = Ok x.
Proof.
  intros Hk. unfold py_getitem.
  rewrite py_norm_index_nat by (by eapply lookup_lt_Some). by rewrite Hk.
Qed.

Lemma py_setitem_nat {A} (l : list A) (k : nat) (x : A) :
  k < length l -> py_setitem l (Z.of_nat k) x = Ok (<[k := x]> l).
Proof. intros Hk. unfold py_setitem. by rewrite py_norm_index_nat. Qed.

Lemma dist_marginal_sim_loop_prefix (self : BoltzmannMachine) (sd : SpikeData)
    (n : nat) :
  spike_data self = Some sd ->
  forall (k : nat) (marginals : list Qc),
    k + n <= length marginals ->
    k + n <= length (samplers self) ->
    k + n <= length (spiketrains sd) ->
    exists out,
      dist_marginal_sim_loop self (map Z.of_nat (seq k n)) marginals = Ok out /\
      length out = length marginals /\
      forall i, out !! i =
        if decide (k <= i < k + n) then marginal_weight self sd i
        else marginals !! i.
Proof.
  intros Hsd. induction n as [|n IH]; intros k marginals Hm Hs Ht.
  - exists marginals. simpl. repeat split; try done.
    intros i. rewrite decide_False by lia. done.
  - destruct (lookup_lt_is_Some_2 (samplers self) k) as [s Hsk]; [lia|].
    destruct (lookup_lt_is_Some_2 (spiketrains sd) k) as [st Hst]; [lia|].
    cbn [seq map dist_marginal_sim_loop].
    rewrite (py_getitem_nat _ _ _ Hsk), Hsd. cbn [mbind result_bind].
    rewrite (py_getitem_nat _ _ _ Hst). cbn [mbind result_bind].
    rewrite py_setitem_nat by lia. cbn [mbind result_bind].
    edestruct (IH (S k)) as (out & -> & Hlen & Hout);
      [rewrite length_insert; lia | lia | lia |].
    exists out. rewrite length_insert in Hlen. repeat split; try done.
    intros i. rewrite Hout.
    destruct (decide (i = k)) as [->|Hne].
    + rewrite decide_False by lia. rewrite decide_True by lia.
      rewrite list_lookup_insert_eq by lia.
      unfold marginal_weight. rewrite Hsk, Hst. done.
    + rewrite list_lookup_insert_ne by done.
      destruct (decide (S k <= i < S k + n)).
      * rewrite decide_True by lia. done.
      * rewrite decide_False by lia. done.
Qed.

(** With the default selection (all samplers, in order) the function
    returns the marginal of every sampler. *)
Lemma dist_marginal_sim_all_selected (self : BoltzmannMachine) (sd : SpikeData) :
  spike_data self = Some sd ->
  length (spiketrains sd) = length (samplers self) ->
  selected_sampler_idx self = map Z.of_nat (seq 0 (length (samplers self))) ->
  exists out, dist_marginal_sim self = Ok out /\
    length out = length (samplers self) /\
    forall i, i < length (samplers self) -> out !! i = marginal_of self sd i.
Proof.
  intros Hsd Hlen Hsel. unfold dist_marginal_sim. rewrite Hsel, length_map, length_seq.
  destruct (dist_marginal_sim_loop_prefix self sd (length (samplers self)) Hsd 0
              (replicate (length (samplers self)) (Q2Qc 0)))
    as (out & -> & Hl & Hout); [rewrite length_replicate; lia | lia | lia |].
  simpl. rewrite Hsd. simpl. eexists. split; [reflexivity|].
  rewrite length_map, Hl, length_replicate. split; [done|].
  intros i Hi. rewrite list_lookup_fmap, Hout, decide_True by lia. done.
Qed.

(** C6 fails on the code for a selection that is not an initial segment of
    the sampler indices.  With two samplers and only sampler 1 selected,
    [marginals] has one entry and [marginals[1] = ...] raises [IndexError],
    where the claim expects the one-entry vector [[3 * 20 / 1000]]. *)
Theorem dist_marginal_sim_subset_fails :
  dist_marginal_sim (two_sampler_machine [1%Z]) = Err IndexError /\
  marginal_of (two_sampler_machine [1%Z])
    {| spiketrains := [[qz 5]; [qz 100; qz 200; qz 300]]; duration := qz 1000 |} 1
  = Some (Q2Qc (3 # 50)).
Proof.
  split; [reflexivity|].
  unfold marginal_of, marginal_weight. simpl. f_equal.
  apply Qc_is_canon. reflexivity.
Qed.

(** ** C7: the calibration sweep *)

Lemma load_global_spead :
  GatherCalibration.load_global "spead" = Err (NameError "spead").
Proof. vm_compute. reflexivity. Qed.

(** What the claim describes, for reference: [np.linspace] yields [num]
    points, the first at [start], consecutive ones one step apart. *)
Lemma np_linspace_spec (start stop : Qc) (num : nat) :
  length (GatherCalibration.np_linspace start stop num) = num /\
  (2 <= num ->
   forall i, i < num ->
     GatherCalibration.np_linspace start stop num !! i =
       Some (start + Qc_of_Z (Z.of_nat i)
                     * ((stop - start) / Qc_of_Z (Z.of_nat (num - 1))))%Qc).
Proof.
  unfold GatherCalibration.np_linspace.
  destruct num as [|[|num]]; [split; [done | lia] | split; [done | lia] |].
  split; [by rewrite length_map, length_seq|].
  intros _ i Hi. rewrite list_lookup_fmap, lookup_seq_lt by done. reflexivity.
Qed.

(** C7 fails on the code: whatever the sweep configuration, the simulator
    and the sources, [standalone_gather_calibration_data] raises
    [NameError] on the misspelt [spead] before any probe point exists, so it
    returns neither [num_samples] probe points nor ON probabilities. *)
Theorem standalone_gather_calibration_data_raises
    (sim : GatherCalibration.simulator) (cfg : GatherCalibration.calib_cfg)
    (tau_refrac : Qc) (sources_cfg : list GatherCalibration.source_cfg) :
  GatherCalibration.standalone_gather_calibration_data sim cfg tau_refrac sources_cfg
  = Err (NameError "spead").
Proof.
  unfold GatherCalibration.standalone_gather_calibration_data.
  rewrite load_global_spead. reflexivity.
Qed.

(** ** C5: the time-ordered spike index *)

Lemma zip_with_overwrite (i : nat) (st : list Qc) :
  forall X : list spike, length X = length st ->
    zip_with (fun r t => Spike (spike_id r) t)
      (zip_with (fun r (_ : Qc) => Spike i (spike_t r)) X st) st
    = map (Spike i) st.
Proof.
  induction st as [|t st IH]; intros [|x X] Hlen; simpl in *; try done.
  f_equal. apply IH. lia.
Qed.

(** The two slice assignments of one loop pass write the records of one
    train. *)
Lemma slice_assign_train (i : nat) (st : list Qc) (spikes : list spike) (current : nat) :
  current + length st <= length spikes ->
  slice_assign (fun r t => Spike (spike_id r) t)
    (slice_assign (fun r (_ : Qc) => Spike i (spike_t r)) spikes current st)
    current st
  = take current spikes ++ map (Spike i) st ++ drop (current + length st) spikes.
Proof.
  intros Hlen. unfold slice_assign.
  set (Z1 := zip_with (fun r (_ : Qc) => Spike i (spike_t r))
               (take (length st) (drop current spikes)) st).
  assert (length (take (length st) (drop current spikes)) = length st) as HX.
  { rewrite length_take, length_drop. lia. }
  assert (length Z1 = length st) as HZ1.
  { unfold Z1. rewrite length_zip_with. lia. }
  assert (length (take current spikes) = current) as Htk.
  { rewrite length_take. lia. }
  rewrite take_app_length' by done.
  rewrite drop_app_length' by done.
  rewrite take_app_length' by done.
  rewrite (app_assoc (take current spikes) Z1).
  rewrite drop_app_length' by (rewrite length_app; lia).
  unfold Z1. by rewrite zip_with_overwrite.
Qed.

Lemma fill_spikes_spec (spiketrains : list (list Qc)) :
  forall (i current : nat) (spikes : list spike),
    length spikes = current + sum_list (map length spiketrains) ->
    fill_spikes i spiketrains current spikes =
      take current spikes
      ++ concat (imap (fun k st => map (Spike (i + k)) st) spiketrains).
Proof.
  induction spiketrains as [|st rest IH]; intros i current spikes Hlen.
  - simpl in *. rewrite app_nil_r, take_ge; [done | lia].
  - cbn [fill_spikes]. simpl in Hlen.
    rewrite slice_assign_train by lia.
    rewrite IH.
    + rewrite (imap_cons _ st rest). cbn [concat]. rewrite Nat.add_0_r.
      rewrite (imap_ext (_ ∘ S) (fun k st0 => map (Spike (S i + k)) st0) rest)
        by (intros; simpl; do 2 f_equal; lia).
      rewrite (app_assoc (take current spikes)).
      rewrite take_app_length'; [by rewrite <- app_assoc|].
      rewrite length_app, length_take, length_map. lia.
    + rewrite !length_app, length_take, length_map, length_drop. lia.
Qed.

Lemma fill_spikes_flat (spiketrains : list (list Qc)) (d : spike) :
  fill_spikes 0 spiketrains 0
    (replicate (sum_list (map length spiketrains)) d) = flat_spikes spiketrains.
Proof.
  rewrite fill_spikes_spec by (by rewrite length_replicate).
  by rewrite take_0.
Qed.

Lemma take_indices_spec {A} (d : A) (a : list A) (idx : list nat) :
  Forall (fun k => k < length a) idx ->
  take_indices a idx = Ok (map (fun k => default d (a !! k)) idx).
Proof.
  unfold take_indices. induction 1 as [|k idx Hk _ IH]; [done|].
  cbn [mapM]. destruct (lookup_lt_is_Some_2 a k Hk) as [x Hx].
  cbn [map]. rewrite Hx. cbn [mbind result_bind]. rewrite IH. reflexivity.
Qed.

Lemma map_lookup_seq {A} (d : A) (a : list A) :
  map (fun k => default d (a !! k)) (seq 0 (length a)) = a.
Proof.
  apply list_eq. intros i. rewrite list_lookup_fmap.
  destruct (decide (i < length a)) as [Hi|Hi].
  - rewrite lookup_seq_lt by done. simpl.
    destruct (lookup_lt_is_Some_2 a i Hi) as [x Hx]. by rewrite Hx.
  - rewrite lookup_seq_ge by lia. simpl. symmetry. apply lookup_ge_None_2. lia.
Qed.

Lemma is_sorted_Sorted (l : list Qc) : is_sorted l = true -> Sorted Qcle l.
Proof.
  induction l as [|a [|b l] IH]; intros H.
  - constructor.
  - repeat constructor.
  - cbn [is_sorted] in H. apply andb_true_iff in H as [Hab Hl].
    constructor; [by apply IH|]. constructor. by apply bool_decide_eq_true_1 in Hab.
Qed.

Lemma is_argsort_spec (a : list Qc) (idx : list nat) :
  is_argsort a idx = true ->
  idx ≡ₚ seq 0 (length a) /\
  Forall (fun k => k < length a) idx /\
  Sorted Qcle (map (fun k => default (Q2Qc 0) (a !! k)) idx).
Proof.
  unfold is_argsort. rewrite !andb_true_iff.
  intros [[[Hnd Hlen] Hrange] Hsorted].
  apply bool_decide_eq_true_1 in Hnd. apply Nat.eqb_eq in Hlen.
  assert (Forall (fun k => k < length a) idx) as Hr.
  { apply Forall_forall. intros k Hk. rewrite forallb_forall in Hrange.
    apply Nat.ltb_lt, Hrange. by apply list_elem_of_In. }
  split; [|split; [done | by apply is_sorted_Sorted]].
  apply submseteq_length_Permutation; [|by rewrite length_seq, Hlen].
  apply NoDup_submseteq; [done|].
  intros k Hk. rewrite Forall_forall in Hr. apply elem_of_seq.
  specialize (Hr k Hk). lia.
Qed.

(** C5, as amended.  [get_ordered_spike_idx] returns a sequence of
    [(id, time)] records that holds exactly the input spikes and is ascending
    in time, for any index sort that does what numpy promises of [argsort].
    The order among records of equal time is whatever that sort yields; the
    default [kind] does not promise (and does not keep) appending order. *)
Theorem get_ordered_spike_idx_sorted_permutation
    (argsort : list Qc -> list nat) (spiketrains : list (list Qc)) :
  is_argsort (map spike_t (flat_spikes spiketrains))
    (argsort (map spike_t (flat_spikes spiketrains))) = true ->
  exists out,
    get_ordered_spike_idx argsort spiketrains = Ok out /\
    out ≡ₚ flat_spikes spiketrains /\
    time_sorted out.
Proof.
  intros (Hperm & Hrange & Hsorted)%is_argsort_spec.
  unfold get_ordered_spike_idx. rewrite fill_spikes_flat.
  set (spikes := flat_spikes spiketrains) in *.
  rewrite length_map in Hperm, Hrange.
  rewrite (take_indices_spec (Spike 0 (Q2Qc 0))) by done.
  eexists. split; [reflexivity|]. split.
  - rewrite Hperm. by rewrite map_lookup_seq.
  - unfold time_sorted. rewrite map_map.
    erewrite map_ext; [exact Hsorted|].
    intros k. simpl. rewrite list_lookup_fmap. by destruct (spikes !! k).
Qed.

(** Three spikes in two trains, sorted by numpy's default [argsort]. *)
Lemma get_ordered_spike_idx_sorted_permutation_witness :
  exists out,
    get_ordered_spike_idx np_argsort [[qz 3; qz 7]; [qz 5]] = Ok out /\
    out ≡ₚ flat_spikes [[qz 3; qz 7]; [qz 5]] /\
    time_sorted out.
Proof.
  apply (get_ordered_spike_idx_sorted_permutation np_argsort
           [[qz 3; qz 7]; [qz 5]]).
  vm_compute. reflexivity.
Defined.

(** The transcribed sort does sort: 25 keys with repetitions. *)
Example np_argsort_sorts :
  is_argsort
    (map qz [5; 3; 9; 1; 1; 3; 0; 22; 7; 6; 5; 4; 3; 2; 1; 9; 8; 7; 6; 5; 4; 3; 99; 0; 1]%Z)
    (np_argsort
       (map qz [5; 3; 9; 1; 1; 3; 0; 22; 7; 6; 5; 4; 3; 2; 1; 9; 8; 7; 6; 5; 4; 3; 99; 0; 1]%Z))
  = true.
Proof. vm_compute. reflexivity. Qed.

Example get_ordered_spike_idx_eighteen :
  (map spike_id <$> get_ordered_spike_idx np_argsort eighteen_simultaneous) =
  Ok [0; 15; 14; 13; 12; 11; 10; 9; 8; 7; 6; 5; 4; 3; 2; 1; 16; 17].
Proof. vm_compute. reflexivity. Qed.

(** C5 as stated fails on ties: for eighteen spikes at one instant, one per
    sampler, numpy's default [argsort] returns the records of samplers
    15, 14, ..., 1 in descending order of sampler, not in appending order. *)
Lemma get_ordered_spike_idx_ties_counterexample :
  ~ (exists out,
       get_ordered_spike_idx np_argsort eighteen_simultaneous = Ok out /\
       out ≡ₚ flat_spikes eighteen_simultaneous /\
       time_sorted out /\
       ties_stable out).
Proof.
  intros (out & Hout & _ & _ & Hstable).
  vm_compute in Hout. injection Hout as <-.
  unfold ties_stable in Hstable.
  apply Sorted_inv in Hstable as [Hstable _].
  apply Sorted_inv in Hstable as [_ Hhd].
  apply HdRel_inv in Hhd. simpl in Hhd.
  specialize (Hhd eq_refl). lia.
Qed.

(** ** The kernels and the caller's arrays *)

Lemma readonly_ret {A} (x : A) : readonly (mret x).
Proof. by intros h. Qed.

Lemma readonly_lift {A} (r : result A) : readonly (lift_M r).
Proof. by intros h. Qed.

Lemma readonly_load (l : loc) : readonly (Np.load l).
Proof. intros h. unfold Np.load. by destruct (h !! l). Qed.

Lemma readonly_bind {A B} (m : M store A) (f : A -> M store B) :
  readonly m -> (forall x, readonly (f x)) -> readonly (m ≫= f).
Proof.
  intros Hm Hf h. unfold mbind, M_bind, bind_M.
  specialize (Hm h). destruct (m h) as [[x|e] h']; simpl in *; subst h'.
  - apply Hf.
  - done.
Qed.

Lemma readonly_fmap {A B} (g : A -> B) (m : M store A) :
  readonly m -> readonly (g <$> m).
Proof.
  intros Hm. unfold fmap, M_fmap. apply (readonly_bind m); [done|].
  intros x h. done.
Qed.

Ltac readonly_tac :=
  repeat first
    [ apply readonly_ret | apply readonly_lift | apply readonly_load
    | apply readonly_fmap
    | (apply readonly_bind; [|intros ?]) ]; cbv zeta;
  repeat first
    [ apply readonly_ret | apply readonly_lift | apply readonly_load
    | apply readonly_fmap
    | (apply readonly_bind; [|intros ?; cbv zeta]) ].

Lemma idiv_bind {A} (l : loc) (c : float) (f : unit -> M store A) (h : store)
    (a : list float) :
  h !! l = Some a ->
  (Np.idiv l c ≫= f) h = f tt (<[l := map (fun x => PrimFloat.div x c) a]> h).
Proof. intros Hl. unfold mbind, M_bind, bind_M, Np.idiv. by rewrite Hl. Qed.

(** Every kernel starts with the two in-place divisions and only reads the
    store afterwards. *)
Lemma scaled_in_place {A} (re ri : loc) (rest : M store A) (h : store)
    (a b : list float) :
  readonly rest -> re <> ri -> h !! re = Some a -> h !! ri = Some b ->
  snd ((Np.idiv re 1000 ≫= fun _ => Np.idiv ri 1000 ≫= fun _ => rest) h)
  = scaled_store re ri a b h.
Proof.
  intros Hro Hne Ha Hb.
  rewrite (idiv_bind re _ _ h a Ha).
  rewrite (idiv_bind ri _ _ _ b) by (by rewrite lookup_insert_ne).
  apply Hro.
Qed.

(** With one array passed for both rates, a single call divides it twice. *)
Lemma scaled_in_place_aliased {A} (r : loc) (rest : M store A) (h : store)
    (a : list float) :
  readonly rest -> h !! r = Some a ->
  snd ((Np.idiv r 1000 ≫= fun _ => Np.idiv r 1000 ≫= fun _ => rest) h)
  = <[r := Np.kHz (Np.kHz a)]> h.
Proof.
  intros Hro Ha.
  rewrite (idiv_bind r _ _ h a Ha).
  rewrite (idiv_bind r _ _ _ (Np.kHz a)) by (by rewrite lookup_insert_eq).
  rewrite Hro. by rewrite insert_insert_eq.
Qed.

Lemma scaled_store_lookup (re ri : loc) (a b : list float) (h : store) :
  re <> ri ->
  scaled_store re ri a b h !! re = Some (Np.kHz a) /\
  scaled_store re ri a b h !! ri = Some (Np.kHz b) /\
  forall l, l <> re -> l <> ri -> scaled_store re ri a b h !! l = h !! l.
Proof.
  intros Hne. unfold scaled_store. repeat split.
  - rewrite lookup_insert_ne by done. by rewrite lookup_insert_eq.
  - by rewrite lookup_insert_eq.
  - intros l H1 H2. by rewrite !lookup_insert_ne.
Qed.



(** ** Running a kernel step by step *)

Lemma load_bind {A} (l : loc) (f : list float -> M store A) (h : store)
    (a : list float) :
  h !! l = Some a -> (Np.load l ≫= f) h = f a h.
Proof. intros Hl. unfold mbind, M_bind, bind_M, Np.load. by rewrite Hl. Qed.

Lemma fmap_load_bind {A} (g : list float -> list float) (l : loc)
    (f : list float -> M store A) (h : store) (a : list float) :
  h !! l = Some a -> ((g <$> Np.load l) ≫= f) h = f (g a) h.
Proof.
  intros Hl. unfold fmap, M_fmap, mbind, M_bind, bind_M, Np.load, ret_M.
  by rewrite Hl.
Qed.

Lemma lift_bind {A B} (x : A) (f : A -> M store B) (h : store) :
  (lift_M (Ok x) ≫= f) h = f x h.
Proof. reflexivity. Qed.

Lemma lift_bind_Err {A B} (e : exn) (f : A -> M store B) (h : store) :
  (lift_M (Err e) ≫= f) h = (Err e, h).
Proof. reflexivity. Qed.

Lemma lift_bind_inv {A B} (r : result A) (f : A -> M store B) (h : store) (y : B) :
  fst ((lift_M r ≫= f) h) = Ok y -> exists x, r = Ok x /\ fst (f x h) = Ok y.
Proof. destruct r as [x|e]; [by exists x | discriminate]. Qed.

Lemma ret_inv {A} (x y : A) (h : store) :
  fst ((mret x : M store A) h) = Ok y -> x = y.
Proof. by intros [= ->]. Qed.

Lemma dot_Ok (a b : list float) :
  length a = length b -> Np.dot a b = Ok (Np.dot_sum a b).
Proof. intros Hl. unfold Np.dot. by rewrite Hl, Nat.eqb_refl. Qed.

Lemma dot_inv (a b : list float) (x : float) :
  Np.dot a b = Ok x -> length a = length b /\ x = Np.dot_sum a b.
Proof.
  unfold Np.dot. destruct (length a =? length b) eqn:Hl; [|discriminate].
  intros [= <-]. by apply Nat.eqb_eq in Hl.
Qed.

Lemma py_div_Ok (a b : float) :
  PrimFloat.eqb b 0 = false -> Np.py_div a b = Ok (a / b)%float.
Proof. intros Hb. unfold Np.py_div. by rewrite Hb. Qed.

Lemma py_div_inv (a b x : float) :
  Np.py_div a b = Ok x -> PrimFloat.eqb b 0 = false /\ x = (a / b)%float.
Proof.
  unfold Np.py_div. destruct (PrimFloat.eqb b 0); [discriminate|].
  by intros [= <-].
Qed.

Lemma py_div_zero (a b : float) :
  PrimFloat.eqb b 0 = true -> Np.py_div a b = Err ZeroDivisionError.
Proof. intros Hb. unfold Np.py_div. by rewrite Hb. Qed.

(** The opening of every kernel, on four distinct arrays. *)
Lemma kernel_prologue (re ri we wi : loc) (h : store) (a b c d : list float) :
  NoDup [re; ri; we; wi] ->
  h !! re = Some a -> h !! ri = Some b -> h !! we = Some c -> h !! wi = Some d ->
  let h1 := scaled_store re ri a b h in
  <[re := Np.kHz a]> h !! ri = Some b /\
  h1 !! re = Some (Np.kHz a) /\ h1 !! ri = Some (Np.kHz b) /\
  h1 !! we = Some c /\ h1 !! wi = Some d.
Proof.
  intros Hnd Ha Hb Hc Hd h1.
  apply NoDup_cons in Hnd as [H1 Hnd]. apply NoDup_cons in Hnd as [H2 Hnd].
  apply NoDup_cons in Hnd as [H3 _].
  repeat rewrite not_elem_of_cons in H1.
  repeat rewrite not_elem_of_cons in H2.
  repeat rewrite not_elem_of_cons in H3.
  destruct H1 as (? & ? & ? & _), H2 as (? & ? & _), H3 as (? & _).
  unfold h1, scaled_store. repeat split.
  - by rewrite lookup_insert_ne.
  - rewrite lookup_insert_ne by done. by rewrite lookup_insert_eq.
  - by rewrite lookup_insert_eq.
  - by rewrite !lookup_insert_ne.
  - by rewrite !lookup_insert_ne.
Qed.

Ltac kernel_open Hnd Ha Hb Hc Hd :=
  let P := fresh "P" in
  pose proof (kernel_prologue _ _ _ _ _ _ _ _ _ Hnd Ha Hb Hc Hd) as P;
  cbv zeta in P;
  destruct P as (?Hb' & ?Ha1 & ?Hb1 & ?Hc1 & ?Hd1).

Ltac lift_inv H :=
  let x := fresh "x" in
  let Hx := fresh "Hx" in
  cbv beta zeta in H; apply lift_bind_inv in H as (x & Hx & H).

(** ** C4: conductances, rates and the effective time constant *)

Lemma cond_exp_returns (re ri we wi : loc) (p : kernel_params) (h : store)
    (a b c d : list float) (v s g t : float) :
  NoDup [re; ri; we; wi] ->
  h !! re = Some a -> h !! ri = Some b -> h !! we = Some c -> h !! wi = Some d ->
  fst (Utils.IF_cond_exp_distribution re ri we wi p h) = Ok (v, s, g, t) ->
  g = (Np.dot_sum (Np.abs c) (Np.kHz a) * tau_syn_E p
       + Np.dot_sum (Np.abs d) (Np.kHz b) * tau_syn_I p + g_l p)%float /\
  t = (cm p / g)%float.
Proof.
  intros Hnd Ha Hb Hc Hd H. kernel_open Hnd Ha Hb Hc Hd.
  unfold Utils.IF_cond_exp_distribution in H.
  rewrite (idiv_bind re _ _ h a Ha), (idiv_bind ri _ _ _ b Hb') in H.
  fold (Np.kHz a) in H. fold (Np.kHz b) in H.
  fold (scaled_store re ri a b h) in H.
  rewrite (fmap_load_bind _ we _ _ c Hc1), (fmap_load_bind _ wi _ _ d Hd1),
    (load_bind re _ _ _ Ha1), (load_bind ri _ _ _ Hb1) in H.
  lift_inv H. lift_inv H. lift_inv H. lift_inv H. lift_inv H. lift_inv H.
  apply ret_inv in H. injection H as Hv Hs Hg Ht.
  apply dot_inv in Hx as [_ ->]. apply dot_inv in Hx0 as [_ ->].
  split; [by symmetry|]. by rewrite <- Ht, Hg.
Qed.

Lemma cond_alpha_returns (re ri we wi : loc) (p : kernel_params) (h : store)
    (a b c d : list float) (v s g t : float) :
  NoDup [re; ri; we; wi] ->
  h !! re = Some a -> h !! ri = Some b -> h !! we = Some c -> h !! wi = Some d ->
  fst (Utils.IF_cond_alpha_distribution re ri we wi p h) = Ok (v, s, g, t) ->
  g = (Np.dot_sum (Np.abs c) (Np.kHz a) * tau_syn_E p * Np.exp1
       + Np.dot_sum (Np.abs d) (Np.kHz b) * tau_syn_I p * Np.exp1 + g_l p)%float /\
  t = (cm p / g)%float.
Proof.
  intros Hnd Ha Hb Hc Hd H. kernel_open Hnd Ha Hb Hc Hd.
  unfold Utils.IF_cond_alpha_distribution in H.
  rewrite (idiv_bind re _ _ h a Ha), (idiv_bind ri _ _ _ b Hb') in H.
  fold (Np.kHz a) in H. fold (Np.kHz b) in H.
  fold (scaled_store re ri a b h) in H.
  rewrite (fmap_load_bind _ we _ _ c Hc1), (fmap_load_bind _ wi _ _ d Hd1),
    (load_bind re _ _ _ Ha1), (load_bind ri _ _ _ Hb1) in H.
  do 12 lift_inv H.
  apply ret_inv in H. injection H as Hv Hs Hg Ht.
  apply dot_inv in Hx as [_ ->]. apply dot_inv in Hx0 as [_ ->].
  split; [by symmetry|]. by rewrite <- Ht, Hg.
Qed.

Lemma curr_exp_returns (re ri we wi : loc) (p : kernel_params) (h : store)
    (a b c d : list float) (v s g t : float) :
  NoDup [re; ri; we; wi] ->
  h !! re = Some a -> h !! ri = Some b -> h !! we = Some c -> h !! wi = Some d ->
  fst (Utils.IF_curr_exp_distribution re ri we wi p h) = Ok (v, s, g, t) ->
  g = g_l p /\ t = (cm p / g_l p)%float /\
  v = ((Np.dot_sum c (Np.kHz a) * tau_syn_E p
        + Np.dot_sum d (Np.kHz b) * tau_syn_I p) / g_l p + v_rest p)%float.
Proof.
  intros Hnd Ha Hb Hc Hd H. kernel_open Hnd Ha Hb Hc Hd.
  unfold Utils.IF_curr_exp_distribution in H.
  rewrite (idiv_bind re _ _ h a Ha), (idiv_bind ri _ _ _ b Hb') in H.
  fold (Np.kHz a) in H. fold (Np.kHz b) in H.
  fold (scaled_store re ri a b h) in H.
  rewrite (load_bind we _ _ _ Hc1), (load_bind re _ _ _ Ha1) in H.
  lift_inv H. cbv beta zeta in H.
  rewrite (load_bind wi _ _ _ Hd1), (load_bind ri _ _ _ Hb1) in H.
  do 8 lift_inv H.
  apply ret_inv in H. injection H as Hv Hs Hg Ht.
  apply dot_inv in Hx as [_ ->]. apply dot_inv in Hx0 as [_ ->].
  apply py_div_inv in Hx1 as [_ ->].
  repeat split; by symmetry.
Qed.

Lemma curr_alpha_returns (re ri we wi : loc) (p : kernel_params) (h : store)
    (a b c d : list float) (v s g t : float) :
  NoDup [re; ri; we; wi] ->
  h !! re = Some a -> h !! ri = Some b -> h !! we = Some c -> h !! wi = Some d ->
  fst (Utils.IF_curr_alpha_distribution re ri we wi p h) = Ok (v, s, g, t) ->
  g = g_l p /\ t = (cm p / g_l p)%float /\
  v = ((Np.dot_sum c (Np.kHz a) * tau_syn_E p * Np.exp1
        + Np.dot_sum d (Np.kHz b) * tau_syn_I p * Np.exp1) / g_l p + v_rest p)%float.
Proof.
  intros Hnd Ha Hb Hc Hd H. kernel_open Hnd Ha Hb Hc Hd.
  unfold Utils.IF_curr_alpha_distribution in H.
  rewrite (idiv_bind re _ _ h a Ha), (idiv_bind ri _ _ _ b Hb') in H.
  fold (Np.kHz a) in H. fold (Np.kHz b) in H.
  fold (scaled_store re ri a b h) in H.
  rewrite (load_bind we _ _ _ Hc1), (load_bind re _ _ _ Ha1) in H.
  lift_inv H. cbv beta zeta in H.
  rewrite (load_bind wi _ _ _ Hd1), (load_bind ri _ _ _ Hb1) in H.
  do 10 lift_inv H.
  apply ret_inv in H. injection H as Hv Hs Hg Ht.
  apply dot_inv in Hx as [_ ->]. apply dot_inv in Hx0 as [_ ->].
  apply py_div_inv in Hx1 as [_ ->].
  repeat split; by symmetry.
Qed.


Lemma NoDup_0123 : NoDup [0; 1; 2; 3].
Proof. repeat constructor; rewrite ?elem_of_cons, ?elem_of_nil; lia. Qed.



(** The older copy of [IF_cond_exp_distribution] in [src/utils.py] does not
    take absolute values either (and returns no [tau_eff]): the same call
    yields [g_tot = -49] there and [g_tot = 71] in [sbs/utils.py]. *)
Example legacy_cond_exp_signed_weights :
  (snd <$> fst (LegacyUtils.IF_cond_exp_distribution 0 1 2 3 (sample_params 1)
                  (store_of [1000%float] [2000%float] [2%float] [(-3)%float])))
    = Ok (-49)%float /\
  ((fun r => snd (fst r)) <$>
     fst (Utils.IF_cond_exp_distribution 0 1 2 3 (sample_params 1)
            (store_of [1000%float] [2000%float] [2%float] [(-3)%float])))
    = Ok 71%float.
Proof. split; vm_compute; reflexivity. Qed.

(** ** C3: non-positive total conductance *)

Ltac len_tac :=
  unfold Np.abs, Np.kHz, Np.square, Np.scale, Np.divide;
  rewrite ?length_map; congruence.

Ltac lift_run :=
  cbv beta zeta;
  repeat first [ rewrite dot_Ok by len_tac | rewrite py_div_Ok by assumption ];
  rewrite lift_bind.

(** [IF_cond_exp_distribution] has no check on [g_tot]: with aligned arrays
    and non-zero synaptic time constants it returns, whatever the value of
    [g_tot]. *)
Lemma cond_exp_total (re ri we wi : loc) (p : kernel_params) (h : store)
    (a b c d : list float) :
  NoDup [re; ri; we; wi] ->
  h !! re = Some a -> h !! ri = Some b -> h !! we = Some c -> h !! wi = Some d ->
  length c = length a -> length d = length b ->
  PrimFloat.eqb (tau_syn_E p) 0 = false ->
  PrimFloat.eqb (tau_syn_I p) 0 = false ->
  let g := (Np.dot_sum (Np.abs c) (Np.kHz a) * tau_syn_E p
            + Np.dot_sum (Np.abs d) (Np.kHz b) * tau_syn_I p + g_l p)%float in
  exists v s,
    fst (Utils.IF_cond_exp_distribution re ri we wi p h) = Ok (v, s, g, (cm p / g)%float).
Proof.
  intros Hnd Ha Hb Hc Hd Hlc Hld HE HI g. kernel_open Hnd Ha Hb Hc Hd.
  unfold Utils.IF_cond_exp_distribution.
  rewrite (idiv_bind re _ _ h a Ha), (idiv_bind ri _ _ _ b Hb').
  fold (Np.kHz a). fold (Np.kHz b). fold (scaled_store re ri a b h).
  rewrite (fmap_load_bind _ we _ _ c Hc1), (fmap_load_bind _ wi _ _ d Hd1),
    (load_bind re _ _ _ Ha1), (load_bind ri _ _ _ Hb1).
  eexists _, _.
  do 6 lift_run.
  reflexivity.
Qed.

(** The current-based kernels divide [cm] by [g_tot = g_l] as Python
    floats: a zero leak conductance raises [ZeroDivisionError]. *)
Lemma curr_exp_zero_leak (re ri we wi : loc) (p : kernel_params) (h : store)
    (a b c d : list float) :
  NoDup [re; ri; we; wi] ->
  h !! re = Some a -> h !! ri = Some b -> h !! we = Some c -> h !! wi = Some d ->
  length c = length a -> length d = length b ->
  PrimFloat.eqb (g_l p) 0 = true ->
  fst (Utils.IF_curr_exp_distribution re ri we wi p h) = Err ZeroDivisionError /\
  fst (Utils.IF_curr_alpha_distribution re ri we wi p h) = Err ZeroDivisionError.
Proof.
  intros Hnd Ha Hb Hc Hd Hlc Hld Hg. kernel_open Hnd Ha Hb Hc Hd.
  split.
  - unfold Utils.IF_curr_exp_distribution.
    rewrite (idiv_bind re _ _ h a Ha), (idiv_bind ri _ _ _ b Hb').
    fold (Np.kHz a). fold (Np.kHz b). fold (scaled_store re ri a b h).
    rewrite (load_bind we _ _ _ Hc1), (load_bind re _ _ _ Ha1).
    lift_run. cbv beta zeta.
    rewrite (load_bind wi _ _ _ Hd1), (load_bind ri _ _ _ Hb1).
    lift_run. cbv beta zeta.
    rewrite py_div_zero by done. reflexivity.
  - unfold Utils.IF_curr_alpha_distribution.
    rewrite (idiv_bind re _ _ h a Ha), (idiv_bind ri _ _ _ b Hb').
    fold (Np.kHz a). fold (Np.kHz b). fold (scaled_store re ri a b h).
    rewrite (load_bind we _ _ _ Hc1), (load_bind re _ _ _ Ha1).
    lift_run. cbv beta zeta.
    rewrite (load_bind wi _ _ _ Hd1), (load_bind ri _ _ _ Hb1).
    lift_run. cbv beta zeta.
    rewrite py_div_zero by done. reflexivity.
Qed.

(** With alpha-shaped synapses the conductance-based kernel also returns
    for any [g_tot], unless a power of a time constant overflows. *)
Lemma cond_alpha_total (re ri we wi : loc) (p : kernel_params) (h : store)
    (a b c d : list float) :
  NoDup [re; ri; we; wi] ->
  h !! re = Some a -> h !! ri = Some b -> h !! we = Some c -> h !! wi = Some d ->
  length c = length a -> length d = length b ->
  PrimFloat.eqb (tau_syn_E p) 0 = false ->
  PrimFloat.eqb (tau_syn_I p) 0 = false ->
  is_Ok (Np.py_pow Np.pow3 (tau_syn_E p)) = true ->
  is_Ok (Np.py_pow Np.pow3 (tau_syn_I p)) = true ->
  is_Ok (Np.py_pow Np.pow2 (tau_syn_E p)) = true ->
  is_Ok (Np.py_pow Np.pow2 (tau_syn_I p)) = true ->
  let g := (Np.dot_sum (Np.abs c) (Np.kHz a) * tau_syn_E p * Np.exp1
            + Np.dot_sum (Np.abs d) (Np.kHz b) * tau_syn_I p * Np.exp1
            + g_l p)%float in
  exists v s,
    fst (Utils.IF_cond_alpha_distribution re ri we wi p h)
    = Ok (v, s, g, (cm p / g)%float).
Proof.
  intros Hnd Ha Hb Hc Hd Hlc Hld HE HI H3E H3I H2E H2I g.
  kernel_open Hnd Ha Hb Hc Hd.
  destruct (Np.py_pow Np.pow3 (tau_syn_E p)) as [c3e|] eqn:E3E; [|discriminate].
  destruct (Np.py_pow Np.pow3 (tau_syn_I p)) as [c3i|] eqn:E3I; [|discriminate].
  destruct (Np.py_pow Np.pow2 (tau_syn_E p)) as [c2e|] eqn:E2E; [|discriminate].
  destruct (Np.py_pow Np.pow2 (tau_syn_I p)) as [c2i|] eqn:E2I; [|discriminate].
  unfold Utils.IF_cond_alpha_distribution.
  rewrite (idiv_bind re _ _ h a Ha), (idiv_bind ri _ _ _ b Hb').
  fold (Np.kHz a). fold (Np.kHz b). fold (scaled_store re ri a b h).
  rewrite (fmap_load_bind _ we _ _ c Hc1), (fmap_load_bind _ wi _ _ d Hd1),
    (load_bind re _ _ _ Ha1), (load_bind ri _ _ _ Hb1).
  eexists _, _.
  do 6 lift_run.
  cbv beta zeta. rewrite E3E, lift_bind.
  cbv beta zeta. rewrite E2E, lift_bind.
  cbv beta zeta. rewrite E3I, lift_bind.
  cbv beta zeta. rewrite E2I, lift_bind.
  do 2 lift_run.
  reflexivity.
Qed.



Example negative_conductance_value :
  (Np.dot_sum (Np.abs [2%float]) (Np.kHz [1000%float]) * 5
   + Np.dot_sum (Np.abs [(-3)%float]) (Np.kHz [2000%float]) * 10
   + -100)%float = (-30)%float.
Proof. vm_compute. reflexivity. Qed.


(* ===================================================================== *)
(** * Further properties                                                  *)
(* ===================================================================== *)

(** ** [fill_diagonal] *)

Lemma fill_diagonal_wf (m m' : matrix) (value : Qc) :
  matrix_wf m = true -> fill_diagonal m value = Ok m' ->
  matrix_wf m' = true /\ nrows m' = nrows m /\ ncols m' = ncols m.
Proof.
  intros [Hlen Hall]%matrix_wf_spec. unfold fill_diagonal.
  destruct (forallb _ _); [|discriminate]. intros [= <-].
  split; [|done]. apply matrix_wf_spec. simpl. split.
  - by rewrite length_imap.
  - apply Forall_forall. intros r. rewrite list_elem_of_lookup.
    intros [i Hi]. rewrite list_lookup_imap in Hi.
    destruct (rows m !! i) as [r0|] eqn:Hr0; simpl in Hi; [|done].
    injection Hi as <-. rewrite length_insert.
    rewrite Forall_forall in Hall. apply Hall. by eapply list_elem_of_lookup_2.
Qed.

(** X1.  On a square matrix [fill_diagonal] keeps the shape, writes [value]
    on the diagonal, leaves every other entry as it was, and filling again
    changes nothing; on a non-square matrix it raises [AssertionError]. *)
Theorem fill_diagonal_square_or_raises (m : matrix) (value : Qc) :
  matrix_wf m = true ->
  (nrows m <> ncols m -> fill_diagonal m value = Err (AssertionError "")) /\
  (nrows m = ncols m ->
   exists m', fill_diagonal m value = Ok m' /\
     matrix_wf m' = true /\ nrows m' = nrows m /\ ncols m' = ncols m /\
     (forall i j, i < nrows m -> j < ncols m ->
        entry m' i j = if decide (i = j) then Some value else entry m i j) /\
     fill_diagonal m' value = Ok m').
Proof.
  intros Hwf. split.
  - intros Hne. unfold fill_diagonal. simpl. rewrite Nat.eqb_refl. simpl.
    rewrite (proj2 (Nat.eqb_neq (ncols m) (nrows m))) by lia. done.
  - intros Heq. pose proof (fill_diagonal_square m value Heq) as Hfd.
    destruct (fill_diagonal_wf m _ value Hwf Hfd) as (Hwf' & Hnr & Hnc).
    eexists. split; [exact Hfd|]. split; [done|]. split; [done|]. split; [done|].
    assert (forall i j, i < nrows m -> j < ncols m ->
              entry {| nrows := nrows m; ncols := ncols m;
                       rows := imap (fun i0 r => <[i0:=value]> r) (rows m) |} i j
              = if decide (i = j) then Some value else entry m i j) as Hent.
    { intros i j Hi Hj. apply (entry_fill_diagonal m _ value i j Hfd).
      by apply entry_is_Some. }
    split; [exact Hent|].
    set (m' := {| nrows := nrows m; ncols := ncols m;
                  rows := imap (fun i0 r => <[i0:=value]> r) (rows m) |}) in *.
    destruct (fill_diagonal m' value) as [m''|e] eqn:Hfd'.
    + f_equal. destruct (fill_diagonal_wf m' m'' value Hwf' Hfd') as (Hwf'' & Hnr' & Hnc').
      apply matrix_ext; try done.
      intros i j Hi Hj. rewrite Hnr' in Hi. rewrite Hnc' in Hj.
      rewrite (entry_fill_diagonal m' m'' value i j Hfd')
        by (apply entry_is_Some; done).
      rewrite (Hent i j) by done. by case_decide.
    + rewrite (fill_diagonal_square m' value) in Hfd' by done. discriminate.
Qed.

Lemma fill_diagonal_square_or_raises_witness :
  exists m', fill_diagonal (matrix_of [[1; 2]; [3; 4]]%Z) (qz 0) = Ok m' /\
    matrix_wf m' = true /\ nrows m' = 2 /\ ncols m' = 2 /\
    (forall i j, i < 2 -> j < 2 ->
       entry m' i j = if decide (i = j) then Some (qz 0)
                      else entry (matrix_of [[1; 2]; [3; 4]]%Z) i j) /\
    fill_diagonal m' (qz 0) = Ok m'.
Proof.
  apply (fill_diagonal_square_or_raises (matrix_of [[1; 2]; [3; 4]]%Z) (qz 0));
    reflexivity.
Defined.

(** ** [sim_name] *)

Lemma prefix_append (p s : string) : String.prefix p (String.append p s) = true.
Proof.
  induction p as [|c p IH]; simpl; [by destruct s|].
  destruct (Ascii.ascii_dec c c); [exact IH | done].
Qed.

(** X2.  The simulator name is normalised to carry the prefix ["pyNN."]
    exactly once: the result always starts with it, a name that already
    has it is kept, and normalising twice is normalising once. *)
Theorem sim_name_normalised (name : string) :
  String.prefix "pyNN." (sim_name name) = true /\
  (String.prefix "pyNN." name = true -> sim_name name = name) /\
  sim_name (sim_name name) = sim_name name.
Proof.
  assert (String.prefix "pyNN." (sim_name name) = true) as Hp.
  { unfold sim_name. destruct (String.prefix "pyNN." name) eqn:Hn; [done|].
    apply prefix_append. }
  split; [exact Hp|]. split.
  - intros Hn. unfold sim_name. by rewrite Hn.
  - unfold sim_name at 1. by rewrite Hp.
Qed.

Lemma sim_name_normalised_witness : sim_name "pyNN.nest" = "pyNN.nest".
Proof. exact (proj1 (proj2 (sim_name_normalised "pyNN.nest")) eq_refl). Defined.

(** ** [_check_delays] *)

(** X3.  The delay setter validates nothing: an array of any shape is
    stored unchanged, and a scalar [d] becomes the full [N x N] matrix
    with [d] in every entry, the diagonal included. *)
Theorem check_delays_accepts_everything (self : BoltzmannMachine) :
  (forall delays, shape delays <> [] -> _check_delays self delays = delays) /\
  (forall d, exists m, _check_delays self (Nd0 d) = Nd2 m /\
     matrix_wf m = true /\
     nrows m = num_samplers self /\ ncols m = num_samplers self /\
     has_zero_diagonal m = bool_decide (num_samplers self = 0 \/ d = Q2Qc 0) /\
     forall i j, i < num_samplers self -> j < num_samplers self ->
       entry m i j = Some d).
Proof.
  split.
  - intros delays Hs. by destruct delays.
  - intros d. eexists. split; [reflexivity|].
    split; [|split; [done|split; [done|split]]].
    + apply matrix_wf_spec. simpl. split; [by rewrite length_replicate|].
      apply Forall_replicate. by rewrite length_replicate.
    + destruct (has_zero_diagonal _) eqn:Hz; symmetry.
      * apply bool_decide_eq_true_2.
        destruct (num_samplers self) as [|n] eqn:Hn; [by left|right].
        rewrite has_zero_diagonal_spec in Hz. specialize (Hz 0).
        simpl in Hz. rewrite entry_np_full in Hz by lia.
        specialize (Hz ltac:(lia)). by injection Hz.
      * apply bool_decide_eq_false_2. intros [H0| ->].
        -- unfold has_zero_diagonal in Hz. simpl in Hz. rewrite H0 in Hz. done.
        -- enough (has_zero_diagonal
                     (np_full (num_samplers self) (num_samplers self) (Q2Qc 0)) = true)
             by congruence.
           apply has_zero_diagonal_spec. intros i Hi. simpl in Hi.
           apply entry_np_full; lia.
    + intros i j Hi Hj. by apply entry_np_full.
Qed.

Lemma check_delays_accepts_everything_witness :
  _check_delays (machine_of [sampler_of 1 10 None; sampler_of 2 10 None])
    (Nd1 [qz 1; qz 2; qz 3]) = Nd1 [qz 1; qz 2; qz 3].
Proof.
  apply (check_delays_accepts_everything
           (machine_of [sampler_of 1 10 None; sampler_of 2 10 None])).
  simpl. discriminate.
Defined.

(** ** [all_samplers_same_model] and the bias setters *)

Section SamplerAttributeFacts.

Variable pynn_model : LIFsampler -> string.
Variable assign_bias : LIFsampler -> Qc -> LIFsampler.
Variable sync_bias_to_pynn : LIFsampler -> LIFsampler.

Lemma all_same_model_gen_spec (first : LIFsampler) (ss rest : list LIFsampler) :
  ss !! 0 = Some first ->
  exists b, all_same_model_gen pynn_model ss rest = Ok b /\
    (b = true <-> Forall (fun s => pynn_model s = pynn_model first) rest).
Proof.
  intros Hfirst. induction rest as [|s rest (b & IH & Hb)].
  - exists true. split; [done|]. split; [by constructor | done].
  - cbn [all_same_model_gen].
    change (py_getitem ss 0%Z) with (py_getitem ss (Z.of_nat 0)).
    rewrite (py_getitem_nat ss 0 first Hfirst). cbn [mbind result_bind].
    destruct (String.eqb_spec (pynn_model s) (pynn_model first)) as [Heq|Hne].
    + exists b. split; [done|]. rewrite Hb, Forall_cons. tauto.
    + exists false. split; [done|]. split; [discriminate|].
      intros [? _]%Forall_cons. done.
Qed.

(** X4.  [all_samplers_same_model] never raises, not even without
    samplers (where it answers [True]), and it answers [True] exactly when
    any two samplers have the same pyNN model. *)
Theorem all_samplers_same_model_pairwise (self : BoltzmannMachine) :
  exists b, all_samplers_same_model pynn_model self = Ok b /\
    (b = true <->
     forall s s', s ∈ samplers self -> s' ∈ samplers self ->
       pynn_model s = pynn_model s') /\
    (samplers self = [] -> b = true).
Proof.
  unfold all_samplers_same_model.
  destruct (samplers self) as [|first ss] eqn:Hss.
  - exists true. split; [done|]. split; [|done].
    split; [|done]. intros _ s s' Hs. by apply elem_of_nil in Hs.
  - destruct (all_same_model_gen_spec first (first :: ss) (first :: ss) eq_refl)
      as (b & Hb & Hiff).
    exists b. split; [done|]. split; [|discriminate].
    rewrite Hiff, Forall_forall. split.
    + intros Hall s s' Hs Hs'. by rewrite (Hall s Hs), (Hall s' Hs').
    + intros Hpair s Hs. apply Hpair; [done | by left].
Qed.

Lemma assign_biases_loop_spec (is_created : bool) (ss : list LIFsampler) :
  forall (biases : bias_iter),
    let upd s b :=
      if is_created then sync_bias_to_pynn (assign_bias s b) else assign_bias s b in
    let bias_at i :=
      match biases with Repeat b => Some b | Seq bs => bs !! i end in
    length (assign_biases_loop assign_bias sync_bias_to_pynn is_created biases ss)
      = length ss /\
    forall i,
      assign_biases_loop assign_bias sync_bias_to_pynn is_created biases ss !! i =
        match bias_at i with
        | Some b => (fun s => upd s b) <$> ss !! i
        | None => ss !! i
        end.
Proof.
  induction ss as [|s ss IH]; intros biases upd bias_at.
  - split; [done|]. intros i. unfold bias_at.
    destruct biases as [b|bs]; [done|]. by destruct (bs !! i).
  - cbn [assign_biases_loop].
    destruct biases as [b|[|b bs]]; cbn [next_bias].
    + destruct (IH (Repeat b)) as [Hlen Hlk]. split; [simpl; by f_equal|].
      intros [|i]; [done|]. apply Hlk.
    + split; [done|]. intros i. unfold bias_at. by rewrite lookup_nil.
    + destruct (IH (Seq bs)) as [Hlen Hlk]. split; [simpl; by f_equal|].
      intros [|i]; [done|]. apply Hlk.
Qed.

(** X5.  The bias setters never check lengths.  A scalar is assigned to
    every sampler; of a sequence, entry [i] is assigned to sampler [i] as far
    as both exist: a sequence that is too short leaves the remaining
    samplers untouched, one that is too long has its tail ignored, and no
    error is raised.  The number of samplers does not change. *)
Theorem assign_biases_zips (is_created : bool) (biases : bias_iter)
    (self : BoltzmannMachine) :
  let upd s b :=
    if is_created then sync_bias_to_pynn (assign_bias s b) else assign_bias s b in
  let bias_at i :=
    match biases with Repeat b => Some b | Seq bs => bs !! i end in
  exists ss',
    assign_biases assign_bias sync_bias_to_pynn is_created biases self
      = (Ok tt, set_samplers ss' self) /\
    length ss' = length (samplers self) /\
    forall i, ss' !! i =
      match bias_at i with
      | Some b => (fun s => upd s b) <$> samplers self !! i
      | None => samplers self !! i
      end.
Proof.
  intros upd bias_at. eexists. split; [reflexivity|].
  apply assign_biases_loop_spec.
Qed.

End SamplerAttributeFacts.

(** ** [run_with_eta] *)

Lemma run_steps_spec (n : nat) (dT : pynum) (log : list pynum) :
  run_steps n dT log = (Ok tt, log ++ replicate n dT).
Proof.
  revert log. induction n as [|n IH]; intros log.
  - simpl. by rewrite app_nil_r.
  - cbn [run_steps]. unfold mbind, M_bind, bind_M, modify_M.
    rewrite IH. by rewrite <- app_assoc.
Qed.

Lemma Qc_sum_replicate (n : nat) (x : Qc) :
  Qc_sum (replicate n x) = (Qc_of_Z (Z.of_nat n) * x)%Qc.
Proof.
  induction n as [|n IH].
  - change (Z.of_nat 0) with 0%Z. rewrite Z2Qc_inj_0, Qcmult_0_l. reflexivity.
  - cbn [replicate Qc_sum foldr]. fold (Qc_sum (replicate n x)). rewrite IH.
    rewrite Nat2Z.inj_succ. unfold Z.succ. rewrite Z2Qc_inj_add, Z2Qc_inj_1. ring.
Qed.

(** X6.  [run_with_eta] makes [num_steps] calls of [sim.run], each of
    [duration / num_steps].  For an [int] duration that is Python 2's floor
    division, so the run falls short of [duration] by
    [duration mod num_steps] and covers it only when [num_steps] divides
    it; for a [float] duration the segments add up to [duration] in exact
    arithmetic.  With [num_steps = 0] it raises [ZeroDivisionError] before
    the simulator is touched, and with a negative [num_steps] it returns
    without running anything. *)
Theorem run_with_eta_segments (duration : pynum) (num_steps : Z) (log : list pynum) :
  ((0 < num_steps)%Z ->
   exists dT,
     run_with_eta duration num_steps log
       = (Ok tt, log ++ replicate (Z.to_nat num_steps) dT) /\
     let total := Qc_sum (pynum_value <$> replicate (Z.to_nat num_steps) dT) in
     match duration with
     | PyInt d =>
         dT = PyInt (d / num_steps) /\
         total = Qc_of_Z (d - d mod num_steps) /\
         (total = Qc_of_Z d <-> (num_steps | d)%Z)
     | PyFloat x =>
         dT = PyFloat (x / Qc_of_Z num_steps)%Qc /\ total = x
     end) /\
  (num_steps = 0%Z ->
   run_with_eta duration num_steps log = (Err ZeroDivisionError, log)) /\
  ((num_steps < 0)%Z -> run_with_eta duration num_steps log = (Ok tt, log)).
Proof.
  unfold run_with_eta, py2_div. split; [|split].
  - intros Hn. rewrite (proj2 (Z.eqb_neq _ _)) by lia.
    destruct duration as [d|x]; eexists; (split; [apply run_steps_spec|]);
      cbn zeta; rewrite fmap_replicate, Qc_sum_replicate, Z2Nat.id by lia;
      cbn [pynum_value].
    + split; [done|]. rewrite <- Z2Qc_inj_mul.
      assert (num_steps * (d / num_steps) = d - d mod num_steps)%Z as ->.
      { pose proof (Z.div_mod d num_steps ltac:(lia)). lia. }
      split; [done|]. split.
      * intros Heq%Z2Qc_inj. apply Z.mod_divide; lia.
      * intros Hdiv%Z.mod_divide; [|lia]. f_equal. lia.
    + split; [done|]. apply Qcmult_div_r.
      rewrite <- Z2Qc_inj_0. intros H0%Z2Qc_inj. lia.
  - by intros ->.
  - intros Hn. rewrite (proj2 (Z.eqb_neq _ _)) by lia.
    destruct duration; unfold mbind, M_bind, bind_M, lift_M;
      rewrite run_steps_spec; destruct num_steps; try lia; simpl;
      by rewrite app_nil_r.
Qed.

Lemma run_with_eta_segments_witness :
  exists dT,
    run_with_eta (PyInt 1000) 3 [] = (Ok tt, [] ++ replicate (Z.to_nat 3) dT) /\
    dT = PyInt 333 /\
    Qc_sum (pynum_value <$> replicate (Z.to_nat 3) dT) = Qc_of_Z 999.
Proof.
  destruct (proj1 (run_with_eta_segments (PyInt 1000) 3 []) ltac:(lia))
    as (dT & Hrun & HdT & Htot & _).
  exists dT. split; [exact Hrun|]. split; [exact HdT|exact Htot].
Defined.

(** ** [get_all_source_parameters] *)

Lemma insert_fill {A} (l : list A) (i : nat) (x : A) (mid : list A) :
  i < length l ->
  take (S i) (<[i:=x]> l) ++ mid ++ drop (S i + length mid) (<[i:=x]> l)
  = take i l ++ (x :: mid) ++ drop (i + length (x :: mid)) l.
Proof.
  intros Hi.
  rewrite (take_S_r _ i x) by (by apply list_lookup_insert_eq).
  rewrite take_insert_ge by lia. rewrite drop_insert_lt by lia.
  rewrite <- app_assoc. cbn [app length].
  replace (i + S (length mid)) with (S i + length mid) by lia. reflexivity.
Qed.

Lemma fill_source_arrays_spec (rest : list GatherCalibration.source_cfg) :
  forall (ie ii : nat) (re we ri wi : list Qc),
    let E := List.filter GatherCalibration.is_exc rest in
    let I := List.filter (fun s => negb (GatherCalibration.is_exc s)) rest in
    ie + length E <= length re -> ie + length E <= length we ->
    ii + length I <= length ri -> ii + length I <= length wi ->
    fill_source_arrays rest ie ii re we ri wi =
      Ok (take ie re ++ map GatherCalibration.rate E ++ drop (ie + length (map GatherCalibration.rate E)) re,
          take ii ri ++ map GatherCalibration.rate I ++ drop (ii + length (map GatherCalibration.rate I)) ri,
          take ie we ++ map GatherCalibration.weight E ++ drop (ie + length (map GatherCalibration.weight E)) we,
          take ii wi ++ map GatherCalibration.weight I ++ drop (ii + length (map GatherCalibration.weight I)) wi).
Proof.
  induction rest as [|src rest IH]; intros ie ii re we ri wi E I Hre Hwe Hri Hwi.
  - simpl. rewrite !Nat.add_0_r, !take_drop. reflexivity.
  - cbn [fill_source_arrays]. unfold E, I in *. cbn [List.filter] in *.
    destruct (GatherCalibration.is_exc src); cbn [negb length map] in *.
    + rewrite !py_setitem_nat by lia. cbn [mbind result_bind].
      rewrite IH by (rewrite ?length_insert; lia).
      rewrite !insert_fill by lia. reflexivity.
    + rewrite !py_setitem_nat by lia. cbn [mbind result_bind].
      rewrite IH by (rewrite ?length_insert; lia).
      rewrite !insert_fill by lia. reflexivity.
Qed.

(** X7.  [get_all_source_parameters] never raises and leaves no slot of its
    [np.empty] arrays unwritten: it returns the rates and weights of the
    excitatory sources and those of the other sources, each in input order,
    whatever the arrays held before; the two groups together have as many
    entries as there are sources. *)
Theorem get_all_source_parameters_partitions (g1 g2 g3 g4 : nat -> Qc)
    (db_sources : list GatherCalibration.source_cfg) :
  let E := List.filter GatherCalibration.is_exc db_sources in
  let I := List.filter (fun s => negb (GatherCalibration.is_exc s)) db_sources in
  get_all_source_parameters g1 g2 g3 g4 db_sources =
    Ok (map GatherCalibration.rate E, map GatherCalibration.rate I,
        map GatherCalibration.weight E, map GatherCalibration.weight I) /\
  length E + length I = length db_sources.
Proof.
  intros E I. pose proof (filter_length GatherCalibration.is_exc db_sources) as Hlen.
  fold E I in Hlen. split; [|exact Hlen].
  unfold get_all_source_parameters. fold E.
  assert (forall g n, length (np_empty g n) = n) as Hne.
  { intros g n. unfold np_empty. by rewrite length_map, length_seq. }
  rewrite fill_source_arrays_spec by (rewrite Hne; fold E I; lia).
  fold E I. rewrite !take_0. cbn [app].
  rewrite !drop_ge by (rewrite Hne, length_map; lia).
  by rewrite !app_nil_r.
Qed.

(** ** [MixinRBM] *)

Lemma py_getitem_nat_ge {A} (l : list A) (k : nat) :
  length l <= k -> py_getitem l (Z.of_nat k) = Err IndexError.
Proof.
  intros Hk. unfold py_getitem, py_norm_index.
  rewrite (proj2 (Z.leb_le _ _)) by lia.
  by rewrite (proj2 (Z.ltb_ge _ _)) by lia.
Qed.

Lemma firstn_S_cons_sum (i x : nat) (l : list nat) :
  sum_list (take (S i) (x :: l)) = x + sum_list (take i l).
Proof. reflexivity. Qed.

Lemma np_cumsum_from_lookup (l : list nat) :
  forall acc i, i < length l ->
    MixinRBM.np_cumsum_from acc l !! i = Some (acc + sum_list (take (S i) l)).
Proof.
  induction l as [|x l IH]; intros acc i Hi; simpl in Hi; [lia|].
  destruct i as [|i]; cbn [MixinRBM.np_cumsum_from lookup list_lookup].
  - rewrite (firstn_S_cons_sum 0), take_0. simpl. f_equal. lia.
  - rewrite IH by lia. rewrite (firstn_S_cons_sum (S i)). f_equal. lia.
Qed.

Lemma layer_id_offset_lookup (n : list nat) (i : nat) :
  i <= length n ->
  (0 :: MixinRBM.np_cumsum n) !! i = Some (sum_list (take i n)).
Proof.
  intros Hi. destruct i as [|i]; [by rewrite take_0|].
  simpl. unfold MixinRBM.np_cumsum. by rewrite np_cumsum_from_lookup by lia.
Qed.

Lemma split_layers_lookup {G} (sizes : list nat) :
  forall (units : list G) i k, sizes !! i = Some k ->
    split_layers sizes units !! i =
      Some (py_slice units (sum_list (take i sizes)) (sum_list (take (S i) sizes))).
Proof.
  induction sizes as [|n sizes IH]; intros units i k Hk; [done|].
  destruct i as [|i]; cbn [split_layers lookup list_lookup] in *.
  - rewrite (firstn_S_cons_sum 0), !take_0. unfold py_slice.
    cbn [sum_list sum_list_with]. rewrite drop_0. do 2 f_equal. lia.
  - rewrite (IH _ _ _ Hk). rewrite !firstn_S_cons_sum. unfold py_slice.
    rewrite drop_drop. do 2 f_equal. lia.
Qed.

Lemma split_layers_length {G} (sizes : list nat) (units : list G) :
  length (split_layers sizes units) = length sizes.
Proof.
  revert units. induction sizes as [|n sizes IH]; intros units; simpl; [done|].
  by rewrite IH.
Qed.

Lemma split_layers_concat {G} (sizes : list nat) :
  forall units : list G, length units <= sum_list sizes ->
    concat (split_layers sizes units) = units.
Proof.
  induction sizes as [|n sizes IH]; intros units Hlen; simpl in *.
  - destruct units; simpl in *; [done|lia].
  - rewrite IH; [apply take_drop|]. rewrite length_drop. lia.
Qed.

Lemma split_layers_sizes {G} (sizes : list nat) :
  forall units : list G, sum_list sizes <= length units ->
    Forall2 (fun l k => length l = k) (split_layers sizes units) sizes.
Proof.
  induction sizes as [|n sizes IH]; intros units Hlen; simpl in *; constructor.
  - rewrite length_take. lia.
  - apply IH. rewrite length_drop. lia.
Qed.

Lemma connect_layers_spec {G} (n : list nat) (self : MixinRBM.rbm) (gids : list G) :
  MixinRBM._layer_id_offset self = 0 :: MixinRBM.np_cumsum n ->
  forall k s, s + k < length n ->
    MixinRBM.connect_layers self gids (seq s k) =
      Ok (flat_map (fun i =>
            [(split_layers n gids !!! i, split_layers n gids !!! S i);
             (split_layers n gids !!! S i, split_layers n gids !!! i)])
          (seq s k)).
Proof.
  intros Hoff. induction k as [|k IH]; intros s Hs; [done|].
  cbn [seq MixinRBM.connect_layers flat_map]. rewrite Hoff.
  rewrite (py_getitem_nat _ _ _ (layer_id_offset_lookup n s ltac:(lia))).
  rewrite (py_getitem_nat _ _ _ (layer_id_offset_lookup n (s + 1) ltac:(lia))).
  rewrite (py_getitem_nat _ _ _ (layer_id_offset_lookup n (s + 2) ltac:(lia))).
  cbn [mbind result_bind]. rewrite IH by lia. cbn [mbind result_bind].
  destruct (lookup_lt_is_Some_2 n s ltac:(lia)) as [a Ha].
  destruct (lookup_lt_is_Some_2 n (S s) ltac:(lia)) as [b Hb].
  rewrite (list_lookup_total_correct _ _ _ (split_layers_lookup n gids s a Ha)).
  rewrite (list_lookup_total_correct _ _ _ (split_layers_lookup n gids (S s) b Hb)).
  replace (s + 1) with (S s) by lia. replace (s + 2) with (S (S s)) by lia.
  reflexivity.
Qed.

(** X8.  An RBM needs at least two layers; given the layer sizes, the units
    (one per sampler, in order) fall into consecutive layers of exactly those
    sizes, and [_create_connectivity] connects each layer all-to-all with the
    next one and back, and nothing else: no layer is connected to itself or
    to a layer further away. *)
Theorem rbm_layers_connected {G} (n : list nat) (gids : list G) :
  (length n <= 1 -> exists msg, MixinRBM.__init__ (Some n) = Err (AssertionError msg)) /\
  (1 < length n -> length gids = sum_list n ->
   exists self, MixinRBM.__init__ (Some n) = Ok self /\
     MixinRBM.num_samplers self = length gids /\
     let layers := split_layers n gids in
     concat layers = gids /\
     Forall2 (fun l k => length l = k) layers n /\
     MixinRBM._create_connectivity self gids =
       Ok (flat_map (fun i => [(layers !!! i, layers !!! S i);
                               (layers !!! S i, layers !!! i)])
             (seq 0 (length n - 1)))).
Proof.
  split.
  - intros Hn. unfold MixinRBM.__init__.
    rewrite (proj2 (Nat.ltb_ge _ _)) by lia. by eexists.
  - intros Hn Hlen. unfold MixinRBM.__init__.
    rewrite (proj2 (Nat.ltb_lt _ _)) by lia. eexists. split; [reflexivity|].
    cbn [MixinRBM.num_samplers]. split; [done|]. cbn zeta.
    split; [apply split_layers_concat; lia|].
    split; [apply split_layers_sizes; lia|].
    unfold MixinRBM._create_connectivity. cbn [MixinRBM.num_layers].
    apply connect_layers_spec; [reflexivity|lia].
Qed.

Lemma rbm_layers_connected_witness :
  exists self, MixinRBM.__init__ (Some [2; 1; 1]) = Ok self /\
    MixinRBM.num_samplers self = 4 /\
    MixinRBM._create_connectivity self [10; 11; 12; 13] =
      Ok [([10; 11], [12]); ([12], [10; 11]); ([12], [13]); ([13], [12])].
Proof.
  destruct (proj2 (rbm_layers_connected [2; 1; 1] [10; 11; 12; 13]))
    as (self & Hinit & Hnum & _ & _ & Hconn); [simpl; lia|reflexivity|].
  exists self. split; [exact Hinit|]. split; [exact Hnum|]. exact Hconn.
Defined.

Lemma check_layers_spec (self : MixinRBM.rbm) (ws : list ndarray) :
  forall i,
    MixinRBM.check_layers self i ws = Ok tt <->
    (forall k w, ws !! k = Some w ->
       exists a b, MixinRBM.num_units_per_layer self !! (i + k) = Some a /\
                   MixinRBM.num_units_per_layer self !! S (i + k) = Some b /\
                   shape w = [a; b]).
Proof.
  induction ws as [|w ws IH]; intros i; cbn [MixinRBM.check_layers].
  - split; [intros _ k w Hk; by rewrite lookup_nil in Hk|done].
  - set (n := MixinRBM.num_units_per_layer self).
    destruct (n !! i) as [a|] eqn:Ha.
    2:{ rewrite (py_getitem_nat_ge n i) by (by apply lookup_ge_None_1). split; [done|].
        intros H. destruct (H 0 w eq_refl) as (a & b & Ha' & _).
        rewrite Nat.add_0_r in Ha'. fold n in Ha'. congruence. }
    rewrite (py_getitem_nat _ _ _ Ha). cbn [mbind result_bind].
    replace (i + 1) with (S i) by lia.
    destruct (n !! S i) as [b|] eqn:Hb.
    2:{ rewrite (py_getitem_nat_ge n (S i)) by (by apply lookup_ge_None_1). split; [done|].
        intros H. destruct (H 0 w eq_refl) as (a' & b & _ & Hb' & _).
        rewrite Nat.add_0_r in Hb'. fold n in Hb'. congruence. }
    rewrite (py_getitem_nat _ _ _ Hb). cbn [mbind result_bind].
    case_bool_decide as Hs.
    + rewrite IH. split.
      * intros H [|k] w' Hk; simpl in Hk.
        -- injection Hk as <-. exists a, b. by rewrite Nat.add_0_r.
        -- destruct (H k w' Hk) as (a' & b' & ? & ? & ?). exists a', b'.
           by replace (i + S k) with (S i + k) by lia.
      * intros H k w' Hk. destruct (H (S k) w' Hk) as (a' & b' & ? & ? & ?).
        exists a', b'. by replace (S i + k) with (i + S k) by lia.
    + split; [done|]. intros H.
      destruct (H 0 w eq_refl) as (a' & b' & Ha' & Hb' & Hs').
      rewrite Nat.add_0_r in Ha', Hb'. fold n in Ha', Hb'. congruence.
Qed.

Lemma check_layers_too_long (self : MixinRBM.rbm) (ws : list ndarray) :
  let n := MixinRBM.num_units_per_layer self in
  forall i,
    i <= length n - 1 -> length n - 1 < i + length ws ->
    (forall k w a b, ws !! k = Some w -> n !! (i + k) = Some a ->
       n !! S (i + k) = Some b -> shape w = [a; b]) ->
    MixinRBM.check_layers self i ws = Err IndexError.
Proof.
  intros n. induction ws as [|w ws IH]; intros i Hi Hlen Hgood;
    cbn [MixinRBM.check_layers length] in *; [lia|]. fold n.
  destruct (n !! i) as [a|] eqn:Ha.
  2:{ by rewrite (py_getitem_nat_ge n i) by (by apply lookup_ge_None_1). }
  rewrite (py_getitem_nat _ _ _ Ha). cbn [mbind result_bind].
  replace (i + 1) with (S i) by lia.
  destruct (n !! S i) as [b|] eqn:Hb.
  2:{ by rewrite (py_getitem_nat_ge n (S i)) by (by apply lookup_ge_None_1). }
  rewrite (py_getitem_nat _ _ _ Hb). cbn [mbind result_bind].
  apply lookup_lt_Some in Hb as Hb'.
  rewrite bool_decide_eq_true_2.
  2:{ apply (Hgood 0 w a b); by rewrite ?Nat.add_0_r. }
  apply IH; [lia|lia|].
  intros k w' a' b' Hk Ha' Hb''. apply (Hgood (S k) w' a' b' Hk);
    by replace (i + S k) with (S i + k) by lia.
Qed.

(** X9.  Given a list, the RBM's [_check_weight_matrix] returns it unchanged
    exactly when each matrix it holds has the shape of its pair of adjacent
    layers; how many matrices there are is not asserted: a list that stops
    early (even an empty one) is accepted, and a list with more matrices than
    layer pairs, all of them of the right shape as far as the layers go,
    ends in an [IndexError], not in the assertion. *)
Theorem rbm_check_weight_list (self : MixinRBM.rbm) (ws : list ndarray) :
  let n := MixinRBM.num_units_per_layer self in
  let shapes_fit (l : list ndarray) :=
    forall k w, l !! k = Some w ->
      exists a b, n !! k = Some a /\ n !! S k = Some b /\ shape w = [a; b] in
  (MixinRBM._check_weight_matrix self (MixinRBM.WList ws) = Ok ws <-> shapes_fit ws) /\
  (shapes_fit ws -> forall m,
     MixinRBM._check_weight_matrix self (MixinRBM.WList (take m ws)) = Ok (take m ws)) /\
  (length n - 1 < length ws -> shapes_fit (take (length n - 1) ws) ->
     MixinRBM._check_weight_matrix self (MixinRBM.WList ws) = Err IndexError).
Proof.
  intros n shapes_fit.
  assert (forall l, MixinRBM._check_weight_matrix self (MixinRBM.WList l) = Ok l
                    <-> shapes_fit l) as Hiff.
  { intros l. unfold MixinRBM._check_weight_matrix.
    pose proof (check_layers_spec self l 0) as Hspec. cbn [Nat.add] in Hspec.
    destruct (MixinRBM.check_layers self 0 l) as [[]|e] eqn:Hc; cbn [mbind result_bind].
    - split; [intros _; exact (proj1 Hspec eq_refl)|done].
    - split; [done|]. intros H. by apply (proj2 Hspec) in H. }
  split; [apply Hiff|]. split.
  - intros Hfit m. apply Hiff. intros k w Hk.
    apply lookup_take_Some in Hk as [Hk _]. by apply Hfit.
  - intros Hlen Hfit. clear Hiff. subst shapes_fit n. cbn beta in *.
    unfold MixinRBM._check_weight_matrix.
    rewrite check_layers_too_long; [done|lia|cbn [Nat.add]; lia|].
    cbn [Nat.add]. intros k w a b Hk Ha Hb.
    apply lookup_lt_Some in Hb as Hb'.
    destruct (Hfit k w) as (a' & b' & Ha' & Hb'' & Hs).
    { apply lookup_take_Some. split; [done|lia]. }
    congruence.
Qed.

Lemma rbm_check_weight_list_witness :
  let self := {| MixinRBM.num_units_per_layer := [2; 1];
                 MixinRBM._layer_id_offset := [0; 2; 3];
                 MixinRBM.num_layers := 2;
                 MixinRBM.num_samplers := 3 |} in
  MixinRBM._check_weight_matrix self (MixinRBM.WList (take 0 [Nd2 (np_full 2 1 (qz 1))]))
    = Ok [] /\
  MixinRBM._check_weight_matrix self
    (MixinRBM.WList [Nd2 (np_full 2 1 (qz 1)); Nd2 (np_full 1 1 (qz 1))])
    = Err IndexError.
Proof.
  intros self.
  pose (good (l : list ndarray) := forall k w, l !! k = Some w ->
          exists a b, [2; 1] !! k = Some a /\ [2; 1] !! S k = Some b /\ shape w = [a; b]).
  assert (good [Nd2 (np_full 2 1 (qz 1))]) as Hgood.
  { intros [|[|k]] w Hk; simpl in Hk; try discriminate.
    injection Hk as <-. by exists 2, 1. }
  split.
  - exact (proj1 (proj2 (rbm_check_weight_list self [Nd2 (np_full 2 1 (qz 1))])) Hgood 0).
  - apply (proj2 (proj2 (rbm_check_weight_list self
             [Nd2 (np_full 2 1 (qz 1)); Nd2 (np_full 1 1 (qz 1))]))); [simpl; lia|].
    exact Hgood.
Defined.

Lemma fill_layers_spec (self : MixinRBM.rbm) (x : Qc) :
  let n := MixinRBM.num_units_per_layer self in
  forall k s acc, s + k < length n \/ k = 0 ->
    MixinRBM.fill_layers self (seq s k) x acc =
      Ok (acc ++ map (fun i => Nd2 (np_full (n !!! i) (n !!! S i) x)) (seq s k)).
Proof.
  intros n. induction k as [|k IH]; intros s acc Hk.
  - simpl. by rewrite app_nil_r.
  - cbn [seq MixinRBM.fill_layers map]. fold n.
    destruct (lookup_lt_is_Some_2 n s ltac:(lia)) as [a Ha].
    destruct (lookup_lt_is_Some_2 n (S s) ltac:(lia)) as [b Hb].
    rewrite (py_getitem_nat n s a Ha). cbn [mbind result_bind].
    replace (s + 1) with (S s) by lia.
    rewrite (py_getitem_nat n (S s) b Hb). cbn [mbind result_bind].
    rewrite IH by lia. rewrite <- app_assoc. cbn [app].
    by rewrite (list_lookup_total_correct _ _ _ Ha),
               (list_lookup_total_correct _ _ _ Hb).
Qed.

(** X10.  Given a number, the RBM's [_check_weight_matrix] builds one matrix
    per pair of adjacent layers, of that pair's shape and holding the number
    at every entry (nothing is zeroed, unlike in the single-matrix machines);
    the list it builds passes the list check unchanged. *)
Theorem rbm_check_weight_scalar (n : list nat) (self : MixinRBM.rbm) (x : Qc) :
  MixinRBM.__init__ (Some n) = Ok self ->
  exists ws,
    MixinRBM._check_weight_matrix self (MixinRBM.WScalar x) = Ok ws /\
    MixinRBM._check_weight_matrix self (MixinRBM.WList ws) = Ok ws /\
    length ws = length n - 1 /\
    forall k a b, n !! k = Some a -> n !! S k = Some b ->
      exists m, ws !! k = Some (Nd2 m) /\ shape (Nd2 m) = [a; b] /\
        forall i j, i < a -> j < b -> entry m i j = Some x.
Proof.
  unfold MixinRBM.__init__. destruct (1 <? length n) eqn:Hn; [|done].
  apply Nat.ltb_lt in Hn. intros [= <-].
  set (self := {| MixinRBM.num_units_per_layer := n |}).
  set (ws := map (fun i => Nd2 (np_full (n !!! i) (n !!! S i) x)) (seq 0 (length n - 1))).
  assert (forall k a b, n !! k = Some a -> n !! S k = Some b ->
            ws !! k = Some (Nd2 (np_full a b x))) as Hws.
  { intros k a b Ha Hb. apply lookup_lt_Some in Hb as Hlt.
    unfold ws. rewrite list_lookup_fmap, lookup_seq_lt by lia. simpl.
    by rewrite (list_lookup_total_correct _ _ _ Ha),
               (list_lookup_total_correct _ _ _ Hb). }
  assert (length ws = length n - 1) as Hlen.
  { unfold ws. by rewrite length_map, length_seq. }
  exists ws. split; [|split; [|split]].
  - unfold MixinRBM._check_weight_matrix. cbn [MixinRBM.num_layers self].
    by rewrite (fill_layers_spec self x (length n - 1) 0 []) by (left; simpl; lia).
  - unfold MixinRBM._check_weight_matrix.
    rewrite (proj2 (check_layers_spec self ws 0)); [done|].
    cbn [Nat.add MixinRBM.num_units_per_layer self]. intros k w Hk.
    apply lookup_lt_Some in Hk as Hlt. rewrite Hlen in Hlt.
    destruct (lookup_lt_is_Some_2 n k ltac:(lia)) as [a Ha].
    destruct (lookup_lt_is_Some_2 n (S k) ltac:(lia)) as [b Hb].
    exists a, b. rewrite (Hws k a b Ha Hb) in Hk. injection Hk as <-. done.
  - exact Hlen.
  - intros k a b Ha Hb. exists (np_full a b x).
    split; [by apply Hws|]. split; [done|]. intros i j. apply entry_np_full.
Qed.

Lemma rbm_check_weight_scalar_witness :
  exists self, MixinRBM.__init__ (Some [2; 2]) = Ok self /\
    exists ws, MixinRBM._check_weight_matrix self (MixinRBM.WScalar (qz 3)) = Ok ws /\
      exists m, ws !! 0 = Some (Nd2 m) /\ entry m 0 0 = Some (qz 3).
Proof.
  eexists. split; [reflexivity|].
  destruct (rbm_check_weight_scalar [2; 2] _ (qz 3) eq_refl)
    as (ws & Hs & _ & _ & Hall).
  exists ws. split; [exact Hs|].
  destruct (Hall 0 2 2 eq_refl eq_refl) as (m & Hm & _ & He).
  exists m. split; [exact Hm|]. apply He; lia.
Defined.

(** ** [sources_create_connect] *)

Lemma py_getitem_last {A} (init : list A) (x : A) :
  py_getitem (init ++ [x]) (-1) = Ok x.
Proof.
  unfold py_getitem, py_norm_index. rewrite length_app. simpl.
  rewrite (proj2 (Z.leb_le _ _)) by lia.
  replace (Z.to_nat (Z.of_nat (length init + 1) + -1)) with (length init + 0) by lia.
  by rewrite lookup_app_r, Nat.add_comm, Nat.add_sub by lia.
Qed.

Lemma py_setitem_last {A} (init : list A) (x y : A) :
  py_setitem (init ++ [x]) (-1) y = Ok (init ++ [y]).
Proof.
  unfold py_setitem, py_norm_index. rewrite length_app. simpl.
  rewrite (proj2 (Z.leb_le _ _)) by lia.
  replace (Z.to_nat (Z.of_nat (length init + 1) + -1)) with (length init + 0) by lia.
  by rewrite insert_app_r.
Qed.

Lemma mapM_result_ext {A B} (f g : A -> result B) (l : list A) :
  Forall (fun x => f x = g x) l -> mapM f l = mapM g l.
Proof.
  induction 1 as [|x l Hx _ IH]; [done|]. simpl. by rewrite Hx, IH.
Qed.

Section SourcesCreateConnectFacts.

Variables (Sampler Config Created : Type).
Variable source_config : Sampler -> Config.
Variable isinstance_of_class : Config -> Config -> bool.
Variable create_connect : Config -> list Sampler -> result Created.

Lemma group_samplers_spec (rest : list Sampler) :
  forall init h t,
    group_ok source_config isinstance_of_class (h :: t) ->
    exists t' more,
      group_samplers source_config isinstance_of_class (init ++ [h :: t]) rest
        = Ok (init ++ (h :: t') :: more) /\
      concat ((h :: t') :: more) = (h :: t) ++ rest /\
      Forall (group_ok source_config isinstance_of_class) ((h :: t') :: more) /\
      boundaries_ok source_config isinstance_of_class ((h :: t') :: more).
Proof.
  induction rest as [|s rest IH]; intros init h t Hg.
  - exists t, []. cbn [group_samplers concat boundaries_ok]. rewrite !app_nil_r.
    split; [done|]. split; [done|]. split; [|done]. by constructor.
  - cbn [group_samplers]. rewrite py_getitem_last. cbn [mbind result_bind].
    change (py_getitem (h :: t) 0) with (Ok (A:=Sampler) h). cbn [mbind result_bind].
    destruct (isinstance_of_class (source_config s) (source_config h)) eqn:Hi.
    + rewrite py_setitem_last. cbn [mbind result_bind].
      destruct (IH init h (t ++ [s])) as (t' & more & Hrun & Hcat & Hok & Hb).
      { simpl in *. apply Forall_app. split; [done|]. by constructor. }
      exists t', more. split; [exact Hrun|]. split; [|done].
      rewrite Hcat. simpl. by rewrite <- app_assoc.
    + destruct (IH (init ++ [h :: t]) s []) as (t' & more & Hrun & Hcat & Hok & Hb).
      { simpl. constructor. }
      exists t, ((s :: t') :: more). rewrite Hrun, <- app_assoc. split; [done|].
      split; [|split].
      * change (concat ((h :: t) :: (s :: t') :: more))
          with ((h :: t) ++ concat ((s :: t') :: more)).
        by rewrite Hcat.
      * by constructor.
      * cbn [boundaries_ok]. split; [exact Hi|exact Hb].
Qed.

(** X11.  [sources_create_connect] raises [IndexError] on an empty list of
    samplers.  Otherwise it cuts the samplers, in order and without dropping
    or repeating any, into non-empty runs: within a run every sampler's
    source configuration is an instance of the class of the run's first one,
    and a new run starts exactly where that test fails.  [create_connect] is
    then called once per run, on the configuration of the run's first
    sampler. *)
Theorem sources_create_connect_groups :
  sources_create_connect source_config isinstance_of_class create_connect []
    = Err IndexError /\
  (forall s0 rest, let samplers := s0 :: rest in
   exists groups,
     concat groups = samplers /\
     Forall (group_ok source_config isinstance_of_class) groups /\
     boundaries_ok source_config isinstance_of_class groups /\
     sources_create_connect source_config isinstance_of_class create_connect samplers
       = mapM (fun g => create_connect (source_config (List.hd s0 g)) g) groups).
Proof.
  split; [reflexivity|].
  intros s0 rest samplers. unfold samplers, sources_create_connect.
  change (py_getitem (s0 :: rest) 0) with (Ok (A:=Sampler) s0).
  cbn [mbind result_bind]. rewrite skipn_cons, drop_0.
  destruct (group_samplers_spec rest [] s0 []) as (t' & more & Hrun & Hcat & Hok & Hb).
  { simpl. constructor. }
  cbn [app] in Hrun. rewrite Hrun. cbn [mbind result_bind].
  exists ((s0 :: t') :: more). split; [exact Hcat|]. split; [exact Hok|].
  split; [exact Hb|].
  apply mapM_result_ext. eapply Forall_impl; [exact Hok|].
  intros [|h t] Hg; [destruct Hg|]. reflexivity.
Qed.

End SourcesCreateConnectFacts.

(** ** Connecting sources to samplers *)

Lemma where_mask_zip {A} (P : A -> bool) (a : list A) :
  forall s,
    zip (np_where_from s (map P a)) (mask_items a (map P a)) =
    List.filter (fun p : nat * A => P (snd p)) (imap (fun i x => (s + i, x)) a).
Proof.
  induction a as [|x a IH]; intros s; [done|].
  cbn [map np_where_from mask_items]. rewrite imap_cons. cbn [List.filter snd].
  rewrite (imap_ext _ (fun i x => (S s + i, x))) by (intros; simpl; f_equal; lia).
  rewrite Nat.add_0_r. destruct (P x); cbn [zip zip_with]; by rewrite IH.
Qed.

Lemma selected_connections_ext (abs_weights : bool) (j : nat)
    (keep keep' : Qc -> bool) (ws : list Qc) :
  (forall w, keep w = keep' w) ->
  selected_connections abs_weights j keep ws
  = selected_connections abs_weights j keep' ws.
Proof.
  intros Hk. unfold selected_connections. f_equal.
  apply List.filter_ext. intros p. apply Hk.
Qed.

Section SourceConnectionFacts.

Variables (Sources Pop : Type).
Variable conductance_based : Pop -> bool.
Variable population_view : Pop -> nat -> nat -> Pop.

Lemma one_to_one_conn_list_spec (pop : Pop) (j i_r : nat) (ws : list Qc) :
  one_to_one_conn_list conductance_based pop j i_r ws =
    Ok (selected_connections (conductance_based pop) j
          (fun w => (if bool_decide (Q2Qc 0 < w)%Qc then 1 else 0) =? i_r) ws).
Proof.
  unfold one_to_one_conn_list, mask_select.
  rewrite !length_map, Nat.eqb_refl. cbn [mbind result_bind].
  unfold np_where. rewrite map_map.
  rewrite (where_mask_zip
             (fun w => (if bool_decide (Q2Qc 0 < w)%Qc then 1 else 0) =? i_r) ws 0).
  unfold selected_connections. f_equal. apply map_ext. by intros [i w].
Qed.

Lemma projections_of_append_eq d key (p : Projection Sources Pop) :
  projections_of (defaultdict_append d key p) key = projections_of d key ++ [p].
Proof. unfold projections_of, defaultdict_append. by rewrite lookup_insert_eq. Qed.

Lemma projections_of_append_ne d key key' (p : Projection Sources Pop) :
  key <> key' ->
  projections_of (defaultdict_append d key p) key' = projections_of d key'.
Proof.
  intros Hne. unfold projections_of, defaultdict_append.
  by rewrite lookup_insert_ne.
Qed.

Lemma one_to_one_loop_spec (population : population_arg Pop)
    (pairs : list (list Qc * Sources)) :
  forall j d,
    (forall k, k < length pairs -> is_Some (pop_at population_view population (j + k))) ->
    exists d' ei ee,
      one_to_one_loop conductance_based population_view population j pairs d = Ok d' /\
      projections_of d' "inhibitory" = projections_of d "inhibitory" ++ ei /\
      projections_of d' "excitatory" = projections_of d "excitatory" ++ ee /\
      length ei = length pairs /\ length ee = length pairs /\
      forall k ws src pop,
        pairs !! k = Some (ws, src) -> pop_at population_view population (j + k) = Some pop ->
        ei !! k = Some (one_to_one_projection conductance_based "inhibitory"
                          (fun w => negb (bool_decide (Q2Qc 0 < w)%Qc)) (j + k) ws src pop) /\
        ee !! k = Some (one_to_one_projection conductance_based "excitatory"
                          (fun w => bool_decide (Q2Qc 0 < w)%Qc) (j + k) ws src pop).
Proof.
  induction pairs as [|[ws src] pairs IH]; intros j d Havail.
  - exists d, [], []. cbn [one_to_one_loop]. rewrite !app_nil_r.
    repeat split; try done; by rewrite lookup_nil in *.
  - cbn [one_to_one_loop].
    destruct (Havail 0 ltac:(simpl; lia)) as [pop Hpop]. rewrite Nat.add_0_r in Hpop.
    assert (match population with
            | OnePopulation p => Ok (population_view p j (j + 1))
            | PopulationList ps => py_getitem ps (Z.of_nat j)
            end = Ok pop) as ->.
    { destruct population as [p|ps]; simpl in Hpop.
      - by injection Hpop as <-.
      - by apply py_getitem_nat. }
    change (imap pair ["inhibitory"; "excitatory"])
      with [(0, "inhibitory"); (1, "excitatory")].
    cbn [mbind result_bind one_to_one_receptors].
    rewrite !one_to_one_conn_list_spec. cbn [mbind result_bind].
    match goal with |- context [one_to_one_loop _ _ _ _ _ ?d1] =>
      destruct (IH (S j) d1) as (d' & ei & ee & Hrun & Hi & He & Hli & Hle & Hall)
    end.
    { intros k Hk. replace (S j + k) with (j + S k) by lia.
      apply Havail. simpl. lia. }
    rewrite projections_of_append_ne, projections_of_append_eq in Hi by done.
    rewrite projections_of_append_eq, projections_of_append_ne in He by done.
    rewrite <- app_assoc in Hi, He.
    eexists d', _, _. split; [exact Hrun|]. split; [exact Hi|]. split; [exact He|].
    split; [simpl; lia|]. split; [simpl; lia|].
    intros [|k] ws' src' pop' Hk Hp; cbn [lookup list_lookup app] in *.
    + rewrite Nat.add_0_r in *. injection Hk as <- <-.
      assert (pop' = pop) as -> by congruence.
      split; f_equal; unfold one_to_one_projection; f_equal;
        apply selected_connections_ext; intros w; by destruct (bool_decide _).
    + replace (j + S k) with (S j + k) in * by lia. by apply Hall.
Qed.

(** X12.  [connect_one_to_one] makes two projections for every sampler that
    has both weights and sources, an inhibitory and an excitatory one, also
    when one of them has no connection.  Each source of sampler [j] gets
    exactly one connection, to [j]: sources with a positive weight in the
    excitatory projection, all others (a zero weight among them) in the
    inhibitory one, with the absolute value of the weight when the target is
    conductance based.  With a list of populations shorter than that it
    raises [IndexError]. *)
Theorem connect_one_to_one_projections (sources : list Sources)
    (population : population_arg Pop) (weights : list (list Qc)) :
  let n := length weights `min` length sources in
  ((forall j, j < n -> is_Some (pop_at population_view population j)) ->
   exists d,
     connect_one_to_one conductance_based population_view sources population weights
       = Ok d /\
     length (projections_of d "inhibitory") = n /\
     length (projections_of d "excitatory") = n /\
     forall j ws src pop,
       weights !! j = Some ws -> sources !! j = Some src ->
       pop_at population_view population j = Some pop ->
       projections_of d "inhibitory" !! j =
         Some (one_to_one_projection conductance_based "inhibitory"
                 (fun w => negb (bool_decide (Q2Qc 0 < w)%Qc)) j ws src pop) /\
       projections_of d "excitatory" !! j =
         Some (one_to_one_projection conductance_based "excitatory"
                 (fun w => bool_decide (Q2Qc 0 < w)%Qc) j ws src pop)) /\
  (forall ps, population = PopulationList ps -> length ps < n ->
     connect_one_to_one conductance_based population_view sources population weights
       = Err IndexError).
Proof.
  intros n. split.
  - intros Havail. unfold connect_one_to_one.
    destruct (one_to_one_loop_spec population (zip weights sources) 0 ∅)
      as (d & ei & ee & Hrun & Hi & He & Hli & Hle & Hall).
    { intros k Hk. rewrite length_zip in Hk. by apply Havail. }
    unfold projections_of in Hi at 2, He at 2. rewrite lookup_empty in Hi, He.
    cbn [default app] in Hi, He. rewrite length_zip in Hli, Hle.
    exists d. rewrite Hi, He. split; [exact Hrun|]. split; [exact Hli|].
    split; [exact Hle|]. intros j ws src pop Hw Hs Hp.
    apply (Hall j ws src pop); [|exact Hp].
    apply lookup_zip_with_Some. by exists ws, src.
  - intros ps -> Hlt. unfold connect_one_to_one.
    assert (forall (pairs : list (list Qc * Sources)) j d,
      j <= length ps -> length ps < j + length pairs ->
      one_to_one_loop conductance_based population_view (PopulationList ps) j pairs d
        = Err IndexError) as Hgen.
    { induction pairs as [|[ws src] pairs IH]; intros j d Hj Hlen;
        cbn [length] in Hlen; [lia|]. cbn [one_to_one_loop].
      destruct (ps !! j) as [pop|] eqn:Hp.
      - rewrite (py_getitem_nat _ _ _ Hp).
        change (imap pair ["inhibitory"; "excitatory"])
          with [(0, "inhibitory"); (1, "excitatory")].
        cbn [mbind result_bind one_to_one_receptors].
        rewrite !one_to_one_conn_list_spec. cbn [mbind result_bind].
        apply lookup_lt_Some in Hp. apply IH; lia.
      - by rewrite py_getitem_nat_ge by (by apply lookup_ge_None_1). }
    apply Hgen; [lia|]. rewrite length_zip. fold n. lia.
Qed.

Lemma omap_if_elem {A B} (f : A -> option B) (test : A -> bool) (h : A -> B)
    (l : list A) (y : B) :
  (forall c, f c = if test c then Some (h c) else None) ->
  y ∈ omap f l <-> exists c, c ∈ l /\ test c = true /\ y = h c.
Proof.
  intros Hf. rewrite list_elem_of_omap. split.
  - intros (c & Hc & Hy). rewrite Hf in Hy. exists c.
    destruct (test c); [|done]. by injection Hy as <-.
  - intros (c & Hc & Ht & ->). exists c. split; [done|]. by rewrite Hf, Ht.
Qed.

Lemma omap_if_lengths {A B} (f1 f2 : A -> option B) (t1 t2 t : A -> bool)
    (h1 h2 : A -> B) (l : list A) :
  (forall c, f1 c = if t1 c then Some (h1 c) else None) ->
  (forall c, f2 c = if t2 c then Some (h2 c) else None) ->
  (forall c, t1 c = negb (t2 c) && t c) -> (forall c, t2 c = true -> t c = true) ->
  length (omap f1 l) + length (omap f2 l) = length (List.filter t l).
Proof.
  intros H1 H2 Hex Hsub. induction l as [|c l IH]; [done|].
  cbn [omap list_omap List.filter]. rewrite H1, H2, Hex.
  pose proof (Hsub c) as Hs.
  destruct (t2 c), (t c); cbn [negb andb length]; lia.
Qed.

Lemma append_projections_lookup (sources : Sources) (pop : Pop)
    (cl1 cl2 : list connection) d Li Le :
  d !! "inh" = Some Li -> d !! "exc" = Some Le ->
  let d' := append_projections sources pop [cl1; cl2] d in
  d' !! "inh" = Some (Li ++ [{| presynaptic := sources; postsynaptic := pop;
                                connector := cl1; receptor_type := "inhibitory" |}]) /\
  d' !! "exc" = Some (Le ++ [{| presynaptic := sources; postsynaptic := pop;
                                connector := cl2; receptor_type := "excitatory" |}]).
Proof.
  intros Hi He. unfold append_projections. cbn [zip zip_with foldl]. unfold dict_append.
  split.
  - by rewrite lookup_alter_ne, lookup_alter_eq, Hi by done.
  - by rewrite lookup_alter_eq, lookup_alter_ne, He by done.
Qed.


Lemma Qc_neg_or_not (w : Qc) :
  bool_decide (w < Q2Qc 0)%Qc = negb (bool_decide (Q2Qc 0 <= w)%Qc).
Proof.
  destruct (Qclt_le_dec w (Q2Qc 0)) as [Hlt|Hle].
  - rewrite bool_decide_eq_true_2, bool_decide_eq_false_2; [done| |done].
    by apply Qclt_not_le.
  - rewrite bool_decide_eq_false_2, bool_decide_eq_true_2; [done|done|].
    by apply Qcle_not_lt.
Qed.

Lemma filter_all {A} (l : list A) : List.filter (fun _ => true) l = l.
Proof. induction l as [|x l IH]; [done|]. simpl. by rewrite IH. Qed.

Lemma regular_per_population_spec (sources : Sources) (conn_list : list connection)
    (ps : list Pop) :
  forall j d Li Le,
    d !! "inh" = Some Li -> d !! "exc" = Some Le ->
    exists ei ee,
      regular_per_population conductance_based sources j ps conn_list d !! "inh"
        = Some (Li ++ ei) /\
      regular_per_population conductance_based sources j ps conn_list d !! "exc"
        = Some (Le ++ ee) /\
      length ei = length ps /\ length ee = length ps /\
      forall k pop, ps !! k = Some pop ->
        ei !! k = Some
          {| presynaptic := sources; postsynaptic := pop;
             connector :=
               omap (fun c : connection =>
                       let '(pre, post, weight) := c in
                       if bool_decide (weight < Q2Qc 0)%Qc && (post =? j + k)
                       then Some (pre, 0, trans conductance_based pop weight)
                       else None) conn_list;
             receptor_type := "inhibitory" |} /\
        ee !! k = Some
          {| presynaptic := sources; postsynaptic := pop;
             connector :=
               omap (fun c : connection =>
                       let '(pre, post, weight) := c in
                       if bool_decide (Q2Qc 0 <= weight)%Qc && (post =? j + k)
                       then Some (pre, 0, trans conductance_based pop weight)
                       else None) conn_list;
             receptor_type := "excitatory" |}.
Proof.
  induction ps as [|pop ps IH]; intros j d Li Le Hi He.
  - exists [], []. cbn [regular_per_population]. rewrite !app_nil_r.
    repeat split; try done; by rewrite lookup_nil in *.
  - cbn [regular_per_population].
    match goal with |- context [append_projections sources pop [?c1; ?c2] d] =>
      destruct (append_projections_lookup sources pop c1 c2 d Li Le Hi He) as [Hi1 He1]
    end.
    destruct (IH (S j) _ _ _ Hi1 He1) as (ei & ee & Hi' & He' & Hli & Hle & Hall).
    rewrite <- app_assoc in Hi', He'.
    eexists _, _. split; [exact Hi'|]. split; [exact He'|].
    split; [simpl; lia|]. split; [simpl; lia|].
    intros [|k] pop' Hk; cbn [lookup list_lookup app] in *.
    + injection Hk as <-. by rewrite Nat.add_0_r.
    + replace (j + S k) with (S j + k) by lia. by apply Hall.
Qed.

(** X13.  [connect_sources_regular] always returns both an ["inh"] and an
    ["exc"] list.  For one population each list holds one projection, and
    every connection goes to exactly one of them: to the inhibitory one when
    its weight is negative, to the excitatory one otherwise, so also when the
    weight is zero.  For a list of populations each list holds one
    projection per population; the projections of population [j] hold the
    connections whose target is [j], split in the same way and with the
    target rewritten to [0]; connections to a target beyond the list appear
    nowhere.  Weights are passed through [trans]. *)
Theorem connect_sources_regular_partition (sources : Sources)
    (population : population_arg Pop) (conn_list : list connection) :
  let d := connect_sources_regular conductance_based sources population conn_list in
  let ok := regular_projection_ok conductance_based sources in
  exists Li Le, d !! "inh" = Some Li /\ d !! "exc" = Some Le /\
    match population with
    | OnePopulation p =>
        exists pi pe, Li = [pi] /\ Le = [pe] /\
          ok p "inhibitory" (fun w => w < Q2Qc 0)%Qc Some conn_list pi /\
          ok p "excitatory" (fun w => Q2Qc 0 <= w)%Qc Some conn_list pe /\
          length (connector pi) + length (connector pe) = length conn_list
    | PopulationList ps =>
        length Li = length ps /\ length Le = length ps /\
        forall j pop, ps !! j = Some pop ->
          let target post := if post =? j then Some 0 else None in
          exists pi pe, Li !! j = Some pi /\ Le !! j = Some pe /\
            ok pop "inhibitory" (fun w => w < Q2Qc 0)%Qc target conn_list pi /\
            ok pop "excitatory" (fun w => Q2Qc 0 <= w)%Qc target conn_list pe /\
            length (connector pi) + length (connector pe)
              = length (List.filter (fun c : connection => snd (fst c) =? j) conn_list)
    end.
Proof.
  intros d ok. unfold d, connect_sources_regular.
  set (d0 := <["exc" := []]> (<["inh" := []]> ∅)
       : gmap string (list (Projection Sources Pop))).
  assert (d0 !! "inh" = Some []) as Hi0 by done.
  assert (d0 !! "exc" = Some []) as He0 by done.
  destruct population as [p|ps].
  - match goal with |- context [append_projections sources p [?c1; ?c2] d0] =>
      destruct (append_projections_lookup sources p c1 c2 d0 [] [] Hi0 He0) as [Hi He]
    end.
    eexists _, _. split; [exact Hi|]. split; [exact He|].
    eexists _, _. split; [reflexivity|]. split; [reflexivity|].
    unfold ok, regular_projection_ok. cbn [presynaptic postsynaptic connector receptor_type].
    split; [|split].
    + do 3 (split; [done|]). intros pre post' w'.
      rewrite (omap_if_elem _ (fun c : connection => bool_decide (snd c < Q2Qc 0)%Qc)
                 (fun c : connection =>
                    (fst (fst c), snd (fst c), trans conductance_based p (snd c))))
        by (by intros [[? ?] ?]).
      split.
      * intros ([[pre0 post0] w0] & Hin & Ht & [= -> -> ->]). simpl in *.
        exists post0, w0. by apply bool_decide_eq_true_1 in Ht.
      * intros (post & w & Hin & Hw & [= <-] & ->).
        exists (pre, post, w). simpl. by rewrite bool_decide_eq_true_2.
    + do 3 (split; [done|]). intros pre post' w'.
      rewrite (omap_if_elem _ (fun c : connection => bool_decide (Q2Qc 0 <= snd c)%Qc)
                 (fun c : connection =>
                    (fst (fst c), snd (fst c), trans conductance_based p (snd c))))
        by (by intros [[? ?] ?]).
      split.
      * intros ([[pre0 post0] w0] & Hin & Ht & [= -> -> ->]). simpl in *.
        exists post0, w0. by apply bool_decide_eq_true_1 in Ht.
      * intros (post & w & Hin & Hw & [= <-] & ->).
        exists (pre, post, w). simpl. by rewrite bool_decide_eq_true_2.
    + rewrite <- (filter_all conn_list) at 3.
      apply (omap_if_lengths _ _
               (fun c : connection => bool_decide (snd c < Q2Qc 0)%Qc)
               (fun c : connection => bool_decide (Q2Qc 0 <= snd c)%Qc) _
               (fun c : connection =>
                  (fst (fst c), snd (fst c), trans conductance_based p (snd c)))
               (fun c : connection =>
                  (fst (fst c), snd (fst c), trans conductance_based p (snd c))));
        try (by intros [[? ?] ?]).
      intros c. by rewrite Qc_neg_or_not, andb_true_r.
  - destruct (regular_per_population_spec sources conn_list ps 0 d0 [] [] Hi0 He0)
      as (ei & ee & Hi & He & Hli & Hle & Hall).
    cbn [app] in Hi, He.
    exists ei, ee. split; [exact Hi|]. split; [exact He|].
    split; [exact Hli|]. split; [exact Hle|].
    intros j pop Hj. destruct (Hall j pop Hj) as [Hpi Hpe]. cbn [Nat.add] in *.
    eexists _, _. split; [exact Hpi|]. split; [exact Hpe|].
    unfold ok, regular_projection_ok. cbn [presynaptic postsynaptic connector receptor_type].
    split; [|split].
    + do 3 (split; [done|]). intros pre post' w'.
      rewrite (omap_if_elem _
                 (fun c : connection =>
                    bool_decide (snd c < Q2Qc 0)%Qc && (snd (fst c) =? j))
                 (fun c : connection =>
                    (fst (fst c), 0, trans conductance_based pop (snd c))))
        by (by intros [[? ?] ?]).
      split.
      * intros ([[pre0 post0] w0] & Hin & Ht & [= -> -> ->]). simpl in *.
        apply andb_true_iff in Ht as [Hw Hp]. apply Nat.eqb_eq in Hp as ->.
        exists j, w0. rewrite Nat.eqb_refl. by apply bool_decide_eq_true_1 in Hw.
      * intros (post & w & Hin & Hw & Hp & ->).
        destruct (post =? j) eqn:Hpj; [|done]. injection Hp as <-.
        exists (pre, post, w). simpl. by rewrite bool_decide_eq_true_2, Hpj.
    + do 3 (split; [done|]). intros pre post' w'.
      rewrite (omap_if_elem _
                 (fun c : connection =>
                    bool_decide (Q2Qc 0 <= snd c)%Qc && (snd (fst c) =? j))
                 (fun c : connection =>
                    (fst (fst c), 0, trans conductance_based pop (snd c))))
        by (by intros [[? ?] ?]).
      split.
      * intros ([[pre0 post0] w0] & Hin & Ht & [= -> -> ->]). simpl in *.
        apply andb_true_iff in Ht as [Hw Hp]. apply Nat.eqb_eq in Hp as ->.
        exists j, w0. rewrite Nat.eqb_refl. by apply bool_decide_eq_true_1 in Hw.
      * intros (post & w & Hin & Hw & Hp & ->).
        destruct (post =? j) eqn:Hpj; [|done]. injection Hp as <-.
        exists (pre, post, w). simpl. by rewrite bool_decide_eq_true_2, Hpj.
    + apply (omap_if_lengths _ _
               (fun c : connection =>
                  bool_decide (snd c < Q2Qc 0)%Qc && (snd (fst c) =? j))
               (fun c : connection =>
                  bool_decide (Q2Qc 0 <= snd c)%Qc && (snd (fst c) =? j)) _
               (fun c : connection =>
                  (fst (fst c), 0, trans conductance_based pop (snd c)))
               (fun c : connection =>
                  (fst (fst c), 0, trans conductance_based pop (snd c))));
        try (by intros [[? ?] ?]).
      * intros c. rewrite Qc_neg_or_not.
        by destruct (bool_decide _), (snd (fst c) =? j).
      * intros c Hc. by apply andb_true_iff in Hc as [_ ?].
Qed.

End SourceConnectionFacts.

Lemma connect_one_to_one_projections_witness :
  let ws := [qz 1; qz 0; qz (-2)] in
  exists d,
    connect_one_to_one (fun p : bool => p) (fun p _ _ => p) [7]
      (PopulationList [true]) [ws] = Ok d /\
    length (projections_of d "inhibitory") = 1 /\
    projections_of d "excitatory" !! 0 =
      Some (one_to_one_projection (fun p : bool => p) "excitatory"
              (fun w => bool_decide (Q2Qc 0 < w)%Qc) 0 ws 7 true).
Proof.
  intros ws.
  destruct (proj1 (connect_one_to_one_projections nat bool (fun p => p)
                     (fun p _ _ => p) [7] (PopulationList [true]) [ws]))
    as (d & Hrun & Hli & _ & Hall).
  { intros [|j] Hj; [by eexists|simpl in Hj; lia]. }
  exists d. split; [exact Hrun|]. split; [exact Hli|].
  exact (proj2 (Hall 0 ws 7 true eq_refl eq_refl eq_refl)).
Defined.

Lemma connect_sources_regular_partition_witness :
  let conn_list := [(0, 0, qz 0); (1, 1, qz (-3)); (2, 5, qz 1)] in
  let d := connect_sources_regular (fun p : bool => p) tt
             (PopulationList [true; false]) conn_list in
  exists Li Le pi pe, d !! "inh" = Some Li /\ d !! "exc" = Some Le /\
    Li !! 0 = Some pi /\ Le !! 0 = Some pe /\
    length (connector pi) + length (connector pe) = 1.
Proof.
  intros conn_list d.
  destruct (connect_sources_regular_partition unit bool (fun p => p) tt
              (PopulationList [true; false]) conn_list)
    as (Li & Le & Hi & He & _ & _ & Hall).
  destruct (Hall 0 true eq_refl) as (pi & pe & Hpi & Hpe & _ & _ & Hlen).
  exists Li, Le, pi, pe. repeat split; assumption.
Defined.

(** ** Fixed spike trains *)

Lemma same_train_spec (a b : list Qc) :
  FixedSpikeTrain.same_train a b = true <-> a = b.
Proof.
  unfold FixedSpikeTrain.same_train. revert b.
  induction a as [|x a IH]; intros [|y b]; cbn; try (split; [done|congruence]).
  specialize (IH b). rewrite andb_true_iff in IH.
  rewrite andb_true_iff, andb_true_iff, bool_decide_eq_true, Nat.eqb_eq.
  rewrite Nat.eqb_eq in IH. split.
  - intros (Hl & -> & Hall). f_equal. apply IH. by split.
  - intros [= -> ->]. split; [done|]. split; [done|]. by apply IH.
Qed.

Lemma find_train_Some (st : list Qc) (all : list (list Qc)) :
  forall i k, FixedSpikeTrain.find_train st i all = Some k ->
    exists k', k = i + k' /\ all !! k' = Some st.
Proof.
  induction all as [|x all IH]; intros i k; cbn [FixedSpikeTrain.find_train]; [done|].
  destruct (FixedSpikeTrain.same_train st x) eqn:Heq.
  - intros [= <-]. exists 0. apply same_train_spec in Heq as ->.
    split; [lia|done].
  - intros (k' & -> & Hk')%IH. exists (S k'). split; [lia|done].
Qed.

Lemma find_train_None (st : list Qc) (all : list (list Qc)) :
  forall i, FixedSpikeTrain.find_train st i all = None -> st ∉ all.
Proof.
  induction all as [|x all IH]; intros i; cbn [FixedSpikeTrain.find_train].
  - intros _. apply not_elem_of_nil.
  - destruct (FixedSpikeTrain.same_train st x) eqn:Heq; [done|].
    intros Hn%IH. apply not_elem_of_cons. split; [|done].
    intros ->. rewrite (proj2 (same_train_spec x x) eq_refl) in Heq. done.
Qed.

Lemma get_index_spec (st : list Qc) (all : list (list Qc)) :
  exists id all',
    FixedSpikeTrain.get_index st all = (Ok id, all') /\
    all' !! id = Some st /\
    (all' = all \/ (all' = all ++ [st] /\ id = length all /\ st ∉ all)).
Proof.
  unfold FixedSpikeTrain.get_index.
  destruct (FixedSpikeTrain.find_train st 0 all) as [k|] eqn:Hf.
  - apply find_train_Some in Hf as (k' & -> & Hk').
    exists k', all. split; [done|]. split; [done|by left].
  - apply find_train_None in Hf.
    exists (length all), (all ++ [st]). rewrite length_app. cbn [length].
    replace (length all + 1 - 1) with (length all) by lia.
    split; [done|]. split; [|by right].
    by rewrite lookup_app_r, Nat.sub_diag by lia.
Qed.

Lemma train_of_Ok (sc : FixedSpikeTrain.config) (i : nat) :
  length (FixedSpikeTrain.spike_times sc) = length (FixedSpikeTrain.spike_ids sc) ->
  exists st, FixedSpikeTrain.train_of sc i = Ok st.
Proof.
  intros Hlen. unfold FixedSpikeTrain.train_of, mask_select.
  rewrite length_map, Hlen, Nat.eqb_refl. by eexists.
Qed.

Lemma connection_ok_mono (all all' : list (list Qc)) c e :
  all `prefix_of` all' -> connection_ok all c e -> connection_ok all' c e.
Proof.
  intros Hp. destruct e as [[[j sc] i] w]. intros (st & ? & ? & ? & Hl).
  exists st. repeat split; try done. by eapply prefix_lookup_Some.
Qed.

Lemma connect_sampler_spec (sc : FixedSpikeTrain.config) (j : nat) (ws : list Qc) :
  length (FixedSpikeTrain.spike_times sc) = length (FixedSpikeTrain.spike_ids sc) ->
  forall i all cl, exists all' new,
    FixedSpikeTrain.connect_sampler sc j i ws (all, cl) = (Ok tt, (all', cl ++ new)) /\
    loop_grows (sampler_sources j sc i ws) all all' new.
Proof.
  intros Hlen. induction ws as [|w ws IH]; intros i all cl.
  - exists all, []. rewrite app_nil_r. split; [done|].
    split; [done|]. split; [done|]. split; [constructor|]. intros m Hm. lia.
  - cbn [FixedSpikeTrain.connect_sampler sampler_sources].
    destruct (train_of_Ok sc i Hlen) as [st Hst].
    destruct (get_index_spec st all) as (id & all1 & Hget & Hid & Hall1).
    destruct (IH (S i) all1 (cl ++ [(id, j, w)])) as (all' & new & Hrun & Hp & Hnd & Hok & Hused).
    exists all', ((id, j, w) :: new).
    unfold mbind, M_bind, bind_M, lift_M, FixedSpikeTrain.get_index',
      FixedSpikeTrain.conn_append, modify_M in *.
    rewrite Hst. cbn [fst snd]. rewrite Hget. cbn [fst snd]. rewrite Hrun.
    rewrite <- app_assoc. split; [done|].
    assert (all `prefix_of` all1) as Hp1.
    { destruct Hall1 as [->|(-> & _)]; [done|by apply prefix_app_r]. }
    split; [by etrans|]. split.
    { intros Ha. apply Hnd. destruct Hall1 as [->|(-> & _ & Hnew)]; [done|].
      apply NoDup_app. split; [done|]. split; [|apply NoDup_singleton].
      intros x Hx ->%list_elem_of_singleton. done. }
    split.
    { constructor; [|done]. exists st. repeat split; try done.
      by eapply prefix_lookup_Some. }
    intros m Hm. destruct (decide (length all1 <= m)) as [Hge|Hlt].
    + destruct (Hused m ltac:(lia)) as (c & Hc & Hcm). exists c.
      split; [by right|done].
    + destruct Hall1 as [->|(-> & -> & _)]; [lia|].
      rewrite length_app in Hlt. cbn [length] in Hlt.
      exists (length all, j, w). split; [by left|]. cbn. lia.
Qed.

Lemma connect_samplers_spec (scs : list FixedSpikeTrain.config) :
  Forall (fun sc => length (FixedSpikeTrain.spike_times sc)
                    = length (FixedSpikeTrain.spike_ids sc)) scs ->
  forall j all cl, exists all' new,
    FixedSpikeTrain.connect_samplers j scs (all, cl) = (Ok tt, (all', cl ++ new)) /\
    loop_grows (all_sources j scs) all all' new.
Proof.
  induction 1 as [|sc scs Hlen _ IH]; intros j all cl.
  - exists all, []. rewrite app_nil_r. split; [done|].
    split; [done|]. split; [done|]. split; [constructor|]. intros m Hm. lia.
  - cbn [FixedSpikeTrain.connect_samplers all_sources].
    destruct (connect_sampler_spec sc j (FixedSpikeTrain.weights sc) Hlen 0 all cl)
      as (all1 & new1 & Hrun1 & Hp1 & Hnd1 & Hok1 & Hused1).
    destruct (IH (S j) all1 (cl ++ new1))
      as (all' & new & Hrun & Hp & Hnd & Hok & Hused).
    exists all', (new1 ++ new).
    unfold mbind, M_bind, bind_M in *. rewrite Hrun1, Hrun, <- app_assoc.
    split; [done|]. split; [by etrans|]. split; [auto|]. split.
    { apply Forall2_app; [|done].
      eapply Forall2_impl; [exact Hok1|]. intros c e. by apply connection_ok_mono. }
    intros m Hm. destruct (decide (length all1 <= m)) as [Hge|Hlt].
    + destruct (Hused m ltac:(lia)) as (c & Hc & Hcm). exists c.
      split; [|done]. apply elem_of_app. by right.
    + destruct (Hused1 m ltac:(lia)) as (c & Hc & Hcm). exists c.
      split; [|done]. apply elem_of_app. by left.
Qed.



(** ** [ThoroughBM.create] *)

Lemma load_name_population :
  ThoroughBM.load_name "sim" = Ok tt /\
  ThoroughBM.load_name "population" = Err (NameError "population").
Proof. split; vm_compute; reflexivity. Qed.

Lemma mask_sum_zero (mask : list (list bool)) :
  ThoroughBM.mask_sum mask = 0 <-> Forall (Forall (fun b => b = false)) mask.
Proof.
  unfold ThoroughBM.mask_sum. induction mask as [|r mask IH]; cbn [map sum_list sum_list_with].
  - split; [constructor|done].
  - rewrite Forall_cons, <- IH.
    assert (length (List.filter (fun b : bool => b) r) = 0
            <-> Forall (fun b => b = false) r) as Hr.
    { clear. induction r as [|b r IHr]; cbn [List.filter].
      - split; [constructor|done].
      - rewrite Forall_cons. destruct b; cbn [length]; [|tauto].
        split; [lia|]. intros [? _]. done. }
    rewrite <- Hr. unfold Datatypes.id. lia.
Qed.

Lemma weight_is_all_false (wt : ThoroughBM.conn_type) (m : matrix) :
  Forall (Forall (fun b => b = false)) (ThoroughBM.weight_is wt m) <->
  forall i j w, entry m i j = Some w ->
    match wt with
    | ThoroughBM.Exc => bool_decide (Q2Qc 0 < w)%Qc
    | ThoroughBM.Inh => bool_decide (w < Q2Qc 0)%Qc
    end = false.
Proof.
  unfold ThoroughBM.weight_is, entry. rewrite Forall_fmap, Forall_lookup. split.
  - intros H i j w Hij. destruct (rows m !! i) as [r|] eqn:Hr; [|done].
    specialize (H i r Hr). cbn in H, Hij. rewrite Forall_fmap, Forall_lookup in H.
    exact (H j w Hij).
  - intros H i r Hr. cbn. rewrite Forall_fmap, Forall_lookup. intros j w Hj.
    apply (H i j w). by rewrite Hr.
Qed.

Lemma np_where_from_elem (r : list bool) :
  forall s k, k ∈ np_where_from s r -> exists j, k = s + j /\ r !! j = Some true.
Proof.
  induction r as [|b r IH]; intros s k; cbn [np_where_from].
  - by intros ?%elem_of_nil.
  - destruct b.
    + intros [->|Hk]%elem_of_cons.
      * exists 0. split; [lia|done].
      * destruct (IH _ _ Hk) as (j & -> & Hj). exists (S j). split; [lia|done].
    + intros Hk. destruct (IH _ _ Hk) as (j & -> & Hj). exists (S j).
      split; [lia|done].
Qed.

Lemma elem_of_concat {A} (x : A) (ls : list (list A)) :
  x ∈ concat ls -> exists l, x ∈ l /\ l ∈ ls.
Proof.
  induction ls as [|l ls IH]; cbn [concat]; [by intros ?%elem_of_nil|].
  intros [Hl|Hr]%elem_of_app.
  - exists l. split; [done|by left].
  - destruct (IH Hr) as (l' & ? & ?). exists l'. split; [done|by right].
Qed.

Lemma np_nonzero_elem (mask : list (list bool)) (i j : nat) :
  (i, j) ∈ ThoroughBM.np_nonzero mask ->
  exists r, mask !! i = Some r /\ r !! j = Some true.
Proof.
  unfold ThoroughBM.np_nonzero. intros (l & Hin & Hl)%elem_of_concat.
  apply elem_of_lookup_imap in Hl as (i' & r & -> & Hr).
  apply list_elem_of_fmap in Hin as (j' & [= -> ->] & Hj).
  apply np_where_from_elem in Hj as (j & -> & Hj). exists r. by split.
Qed.

Lemma mapM_result_Ok {A B} (f : A -> result B) (l : list A) :
  (forall x, x ∈ l -> exists y, f x = Ok y) -> exists ys, mapM f l = Ok ys.
Proof.
  induction l as [|x l IH]; intros H; [by eexists|].
  destruct (H x ltac:(by left)) as [y Hy].
  destruct IH as [ys Hys]; [intros x' Hx'; apply H; by right|].
  exists (y :: ys). cbn [mapM]. by rewrite Hy, Hys.
Qed.

Section ThoroughCreateFacts.

Variables (saturating_synapses_enabled _nest_optimization tau_rec_overwritten : bool).
Variable tau_syn : LIFsampler -> ThoroughBM.conn_type -> Qc.

Lemma connect_type_skips_or_raises (self : BoltzmannMachine) (weights_bio : matrix)
    (delays : ndarray) (wt : ThoroughBM.conn_type) :
  let r := ThoroughBM.connect_type saturating_synapses_enabled _nest_optimization
             tau_rec_overwritten tau_syn self weights_bio delays wt in
  (ThoroughBM.mask_sum (ThoroughBM.weight_is wt weights_bio) = 0 -> r = Ok None) /\
  (ThoroughBM.mask_sum (ThoroughBM.weight_is wt weights_bio) <> 0 ->
   exists e, r = Err e /\
     ((forall idx, idx ∈ ThoroughBM.np_nonzero (ThoroughBM.weight_is wt weights_bio) ->
         exists c, ThoroughBM.connection_for saturating_synapses_enabled
                     _nest_optimization tau_rec_overwritten tau_syn
                     self weights_bio delays wt idx = Ok c) ->
      e = NameError "population")).
Proof.
  cbn zeta. unfold ThoroughBM.connect_type. split.
  - intros ->. reflexivity.
  - intros Hne. rewrite (proj2 (Nat.eqb_neq _ _) Hne).
    destruct (mapM _ _) as [l|e] eqn:Hm; cbn [mbind result_bind].
    + rewrite (proj1 load_name_population), (proj2 load_name_population).
      cbn [mbind result_bind]. by eexists.
    + exists e. split; [done|]. intros Hall.
      apply mapM_result_Ok in Hall as [ys Hys]. congruence.
Qed.

(** X15.  [ThoroughBM.create] never builds a projection.  When every
    biological weight is zero it returns an empty [projections] dictionary;
    as soon as one weight is not zero it raises, because it passes the name
    [population] to [sim.Projection], a name that is bound neither in its
    frame nor in the module: a [NameError], unless the indexing of the delays
    or of the samplers has failed before. *)
Theorem thorough_create_never_connects (self : BoltzmannMachine)
    (weights_bio : matrix) (delays : ndarray) :
  let r := ThoroughBM.create saturating_synapses_enabled _nest_optimization
             tau_rec_overwritten tau_syn self weights_bio delays in
  ((forall i j w, entry weights_bio i j = Some w -> w = Q2Qc 0) -> r = Ok []) /\
  (forall i j w, entry weights_bio i j = Some w -> w <> Q2Qc 0 ->
     exists e, r = Err e /\
       (forall d, delays = Nd2 d ->
          (forall i j, is_Some (entry weights_bio i j) ->
             is_Some (entry d i j) /\ j < length (samplers self)) ->
          e = NameError "population")) /\
  (forall ps, r = Ok ps -> ps = []).
Proof.
  cbn zeta.
  assert (forall wt,
    ThoroughBM.mask_sum (ThoroughBM.weight_is wt weights_bio) = 0 <->
    forall i j w, entry weights_bio i j = Some w ->
      match wt with
      | ThoroughBM.Exc => bool_decide (Q2Qc 0 < w)%Qc
      | ThoroughBM.Inh => bool_decide (w < Q2Qc 0)%Qc
      end = false) as Hzero.
  { intros wt. by rewrite mask_sum_zero, weight_is_all_false. }
  assert (forall wt d,
    delays = Nd2 d ->
    (forall i j, is_Some (entry weights_bio i j) ->
       is_Some (entry d i j) /\ j < length (samplers self)) ->
    forall idx, idx ∈ ThoroughBM.np_nonzero (ThoroughBM.weight_is wt weights_bio) ->
      exists c, ThoroughBM.connection_for saturating_synapses_enabled
                  _nest_optimization tau_rec_overwritten tau_syn
                  self weights_bio delays wt idx = Ok c) as Hconn.
  { intros wt d -> Hd [i j] (r & Hr & Hj)%np_nonzero_elem.
    unfold ThoroughBM.weight_is in Hr. rewrite list_lookup_fmap in Hr.
    destruct (rows weights_bio !! i) as [row|] eqn:Hrow; [|done].
    injection Hr as <-. rewrite list_lookup_fmap in Hj.
    destruct (row !! j) as [w|] eqn:Hw; [|done].
    assert (entry weights_bio i j = Some w) as He.
    { unfold entry. by rewrite Hrow. }
    destruct (Hd i j ltac:(by rewrite He)) as [[x Hx] Hlt].
    destruct (lookup_lt_is_Some_2 _ _ Hlt) as [s Hs].
    unfold ThoroughBM.connection_for, ThoroughBM.delay_of.
    rewrite He. cbn [mbind result_bind shape length Nat.eqb]. rewrite Hx.
    cbn [mbind result_bind]. rewrite (py_getitem_nat _ _ _ Hs).
    cbn [mbind result_bind]. destruct (_ && _); by eexists. }
  pose proof (connect_type_skips_or_raises self weights_bio delays ThoroughBM.Exc)
    as [Hexc0 Hexc1].
  pose proof (connect_type_skips_or_raises self weights_bio delays ThoroughBM.Inh)
    as [Hinh0 Hinh1].
  cbn zeta in *. unfold ThoroughBM.create.
  assert (forall i j w, entry weights_bio i j = Some w -> w <> Q2Qc 0 ->
            exists e, ThoroughBM.create saturating_synapses_enabled _nest_optimization
                        tau_rec_overwritten tau_syn self weights_bio delays = Err e /\
              (forall d, delays = Nd2 d ->
                 (forall i j, is_Some (entry weights_bio i j) ->
                    is_Some (entry d i j) /\ j < length (samplers self)) ->
                 e = NameError "population")) as Hraise.
  { intros i j w He Hw. unfold ThoroughBM.create.
    destruct (decide (ThoroughBM.mask_sum (ThoroughBM.weight_is ThoroughBM.Exc weights_bio) = 0))
      as [Hz|Hnz].
    - rewrite (Hexc0 Hz). cbn [mbind result_bind].
      destruct Hinh1 as (e & -> & Hname).
      { intros Hzi. pose proof (proj1 (Hzero ThoroughBM.Exc) Hz i j w He) as Hp.
        pose proof (proj1 (Hzero ThoroughBM.Inh) Hzi i j w He) as Hn.
        cbn in Hp, Hn. apply bool_decide_eq_false_1 in Hp, Hn.
        apply Hw. apply Qcle_antisym; [by apply Qcnot_lt_le|by apply Qcnot_lt_le]. }
      exists e. split; [done|]. intros d Hd Hcov. apply Hname. by eapply Hconn.
    - destruct (Hexc1 Hnz) as (e & -> & Hname).
      exists e. split; [done|]. intros d Hd Hcov. apply Hname. by eapply Hconn. }
  split; [|split].
  - intros Hall. rewrite Hexc0, Hinh0; [done| |].
    + apply Hzero. intros i j w ->%Hall. by apply bool_decide_eq_false_2.
    + apply Hzero. intros i j w ->%Hall. by apply bool_decide_eq_false_2.
  - exact Hraise.
  - intros ps Hps.
    destruct (decide (ThoroughBM.mask_sum (ThoroughBM.weight_is ThoroughBM.Exc weights_bio) = 0))
      as [Hz|Hnz]; [|destruct (Hexc1 Hnz) as (e & He & _); rewrite He in Hps; done].
    rewrite (Hexc0 Hz) in Hps. cbn [mbind result_bind] in Hps.
    destruct (decide (ThoroughBM.mask_sum (ThoroughBM.weight_is ThoroughBM.Inh weights_bio) = 0))
      as [Hzi|Hnzi]; [|destruct (Hinh1 Hnzi) as (e & He & _); rewrite He in Hps; done].
    rewrite (Hinh0 Hzi) in Hps. cbn [mbind result_bind app] in Hps. congruence.
Qed.

End ThoroughCreateFacts.

Lemma thorough_create_never_connects_witness :
  let self := machine_of [sampler_of 1 10 (Some 2%Z); sampler_of 2 10 (Some 2%Z)] in
  let weights_bio := matrix_of [[0; 1]; [1; 0]]%Z in
  ThoroughBM.create false false false (fun _ _ => qz 5) self weights_bio
    (Nd2 (np_full 2 2 (qz 1))) = Err (NameError "population").
Proof.
  intros self weights_bio.
  destruct (proj1 (proj2 (thorough_create_never_connects false false false
              (fun _ _ => qz 5) self weights_bio (Nd2 (np_full 2 2 (qz 1)))))
              0 1 (qz 1) eq_refl ltac:(done)) as (e & -> & Hname).
  f_equal. apply (Hname _ eq_refl).
  intros [|[|i]] [|[|j]] [x Hx]; try discriminate Hx; split; try (by eexists); simpl; lia.
Defined.

(** ** [save_pickle] and [load_pickle] *)

Lemma py_split_nonempty (sep : Ascii.ascii) (s : string) : py_split sep s <> [].
Proof.
  destruct s as [|c s]; cbn [py_split]; [done|].
  destruct (Ascii.eqb c sep); [done|]. by destruct (py_split sep s).
Qed.

Lemma py_split_app_sep (sep : Ascii.ascii) (s t : string) :
  exists p pre,
    py_split sep (String.append s (String sep t)) = (p :: pre) ++ py_split sep t /\
    head (py_split sep s) = Some p.
Proof.
  induction s as [|c s (p & pre & IH & Hh)].
  - change (String.append "" (String sep t)) with (String sep t).
    cbn [py_split]. rewrite Ascii.eqb_refl. by exists EmptyString, [].
  - change (String.append (String c s) (String sep t))
      with (String c (String.append s (String sep t))). cbn [py_split].
    destruct (Ascii.eqb c sep).
    + exists EmptyString, (p :: pre). by rewrite IH.
    + rewrite IH. cbn [app]. exists (String c p), pre. split; [done|].
      destruct (py_split sep s); [done|]. cbn in *. congruence.
Qed.

Lemma py_split_head_plain (sep : Ascii.ascii) (s : string) :
  exists h, head (py_split sep s) = Some h /\ py_split sep h = [h].
Proof.
  induction s as [|c s (h & Hh & Hp)]; cbn [py_split].
  - by exists EmptyString.
  - destruct (Ascii.eqb c sep) eqn:Hc.
    + by exists EmptyString.
    + destruct (py_split sep s) as [|h' parts]; [done|]. cbn in Hh. injection Hh as ->.
      exists (String c h). split; [done|]. cbn [py_split]. by rewrite Hc, Hp.
Qed.

Lemma py_getitem_0_head {A} (l : list A) (x : A) :
  head l = Some x -> py_getitem l 0 = Ok x.
Proof. destruct l; [done|]. by intros [= ->]. Qed.

Lemma py_getitem_last_Some {A} (l : list A) (x : A) :
  last l = Some x -> py_getitem l (-1) = Ok x.
Proof. intros (l' & ->)%last_Some. apply py_getitem_last. Qed.

Lemma pickle_filename_default (filename : string) :
  exists first,
    head (py_split LegacyPickle.extsep filename) = Some first /\
    py_split LegacyPickle.extsep first = [first] /\
    LegacyPickle.pickle_filename false filename = Ok (String.append first ".pkl.gz") /\
    py_getitem (py_split LegacyPickle.extsep (String.append first ".pkl.gz")) (-1)
      = Ok "gz" /\
    LegacyPickle.pickle_filename false (String.append first ".pkl.gz")
      = Ok (String.append first ".pkl.gz").
Proof.
  destruct (py_split_head_plain LegacyPickle.extsep filename) as (first & Hh & Hp).
  exists first. split; [done|]. split; [done|].
  unfold LegacyPickle.pickle_filename. cbn [negb].
  rewrite (py_getitem_0_head _ _ Hh). cbn [mbind result_bind]. split; [done|].
  destruct (py_split_app_sep LegacyPickle.extsep first "pkl.gz") as (p & pre & Hs & Hp').
  change (String LegacyPickle.extsep "pkl.gz") with ".pkl.gz" in Hs.
  rewrite Hs. rewrite Hp in Hp'. injection Hp' as <-. split.
  - apply py_getitem_last_Some. change (py_split LegacyPickle.extsep "pkl.gz")
      with ["pkl"; "gz"]. by rewrite last_app.
  - done.
Qed.

(** X16.  With the default [force_extension=False], [save_pickle] and
    [load_pickle] of [utils.py] both use the text before the first dot of
    [filename], followed by [.pkl.gz]: the name is stable under the
    renaming, a load returns what was last saved under any name with the
    same text before its first dot (a dot in a directory name included),
    and the file is read with [gzip.open].  With the extension forced on
    both sides, the object saved comes back only when the last extension is
    [gz]; otherwise the compressed file is opened as a plain one and is not
    a pickle. *)
Theorem pickle_names_and_round_trip (Obj : Type) (obj : Obj) (filename : string)
    (fs : gmap string (LegacyPickle.content Obj)) :
  (exists first name fs',
     head (py_split LegacyPickle.extsep filename) = Some first /\
     name = String.append first ".pkl.gz" /\
     LegacyPickle.pickle_filename false filename = Ok name /\
     LegacyPickle.pickle_filename false name = Ok name /\
     LegacyPickle.save_pickle Obj obj filename false fs = Ok fs' /\
     forall filename',
       head (py_split LegacyPickle.extsep filename') = Some first ->
       LegacyPickle.load_pickle Obj filename' false fs' = Ok (LegacyPickle.Loaded obj)) /\
  (exists fs' ext,
     LegacyPickle.save_pickle Obj obj filename true fs = Ok fs' /\
     last (py_split LegacyPickle.extsep filename) = Some ext /\
     LegacyPickle.load_pickle Obj filename true fs' =
       Ok (if String.eqb ext "gz" then LegacyPickle.Loaded obj
           else LegacyPickle.NotAPickle)).
Proof.
  split.
  - destruct (pickle_filename_default filename) as (first & Hh & Hp & Hn & Hext & Hidem).
    eexists first, _, _. split; [done|]. split; [reflexivity|]. split; [done|].
    split; [done|]. unfold LegacyPickle.save_pickle. rewrite Hn.
    cbn [mbind result_bind]. split; [reflexivity|].
    intros filename' Hh'. unfold LegacyPickle.load_pickle.
    destruct (pickle_filename_default filename') as (first' & Hh2 & _ & Hn' & _).
    assert (first' = first) as -> by congruence.
    rewrite Hn'. cbn [mbind result_bind]. rewrite Hext. cbn [mbind result_bind].
    by rewrite lookup_insert_eq.
  - unfold LegacyPickle.save_pickle, LegacyPickle.load_pickle,
      LegacyPickle.pickle_filename. cbn [negb mbind result_bind].
    destruct (last (py_split LegacyPickle.extsep filename)) as [ext|] eqn:Hl.
    2:{ apply last_None in Hl. by apply py_split_nonempty in Hl. }
    eexists _, ext. split; [reflexivity|]. split; [done|].
    rewrite (py_getitem_last_Some _ _ Hl). cbn [mbind result_bind].
    rewrite lookup_insert_eq. by destruct (String.eqb ext "gz").
Qed.

(** Saving under [run.1/data] and loading [run.2/data] meet in the file
    [run.pkl.gz]. *)
Lemma pickle_names_and_round_trip_witness :
  exists fs',
    LegacyPickle.save_pickle nat 7 "run.1/data" false ∅ = Ok fs' /\
    LegacyPickle.pickle_filename false "run.1/data" = Ok "run.pkl.gz" /\
    LegacyPickle.load_pickle nat "run.2/data" false fs' = Ok (LegacyPickle.Loaded 7).
Proof.
  destruct (proj1 (pickle_names_and_round_trip nat 7 "run.1/data" ∅))
    as (first & name & fs' & Hh & -> & Hn & _ & Hs & Hl).
  injection Hh as <-. exists fs'. split; [exact Hs|]. split; [exact Hn|].
  apply Hl. reflexivity.
Defined.

(** ** [get_pairwise_correlations] *)

Lemma flat_spikes_ids_times (spike_times : list (list Qc)) :
  concat (imap (fun i spikes => replicate (length spikes) i) spike_times)
    = map spike_id (flat_spikes spike_times) /\
  concat spike_times = map spike_t (flat_spikes spike_times).
Proof.
  unfold flat_spikes.
  assert (forall k,
    concat (imap (fun i (spikes : list Qc) => replicate (length spikes) (k + i)) spike_times)
      = map spike_id (concat (imap (fun i st => map (Spike (k + i)) st) spike_times)) /\
    concat spike_times
      = map spike_t (concat (imap (fun i st => map (Spike (k + i)) st) spike_times)))
    as H.
  { induction spike_times as [|st l IH]; intros k; [done|].
    rewrite !imap_cons. cbn [concat]. rewrite !map_app, !map_map. cbn [spike_id spike_t].
    rewrite Nat.add_0_r.
    rewrite (imap_ext ((fun i (spikes : list Qc) => replicate (length spikes) (k + i)) ∘ S)
               (fun i (spikes : list Qc) => replicate (length spikes) (S k + i)))
      by (intros; cbn; f_equal; lia).
    rewrite (imap_ext ((fun i (st : list Qc) => map (Spike (k + i)) st) ∘ S)
               (fun i st => map (Spike (S k + i)) st))
      by (intros; cbn; do 2 f_equal; lia).
    destruct (IH (S k)) as [<- <-]. split; f_equal.
    - clear. induction st as [|t st IHst]; [done|]. cbn. by rewrite IHst.
    - by rewrite map_id. }
  exact (H 0).
Qed.

Lemma zip_with_Spike (l : list spike) :
  zip_with Spike (map spike_id l) (map spike_t l) = l.
Proof. induction l as [|[i t] l IH]; [done|]. cbn. by rewrite IH. Qed.

Lemma take_indices_map {A B} (f : A -> B) (d : A) (a : list A) (idx : list nat) :
  Forall (fun k => k < length a) idx ->
  take_indices (map f a) idx = Ok (map f (map (fun k => default d (a !! k)) idx)).
Proof.
  intros Hr. rewrite (take_indices_spec (f d)) by (by rewrite length_map).
  f_equal. rewrite map_map. apply map_ext. intros k.
  rewrite list_lookup_fmap. by destruct (a !! k).
Qed.

Lemma np_hstack_nonempty {A} (arrays : list (list A)) :
  arrays <> [] -> np_hstack arrays = Ok (concat arrays).
Proof. by destruct arrays. Qed.

Section PairwiseCorrelationFacts.

Variable Corr : Type.
Variable cutils_get_pairwise_correlations :
  list nat -> list Qc -> list nat -> list Qc -> Qc -> Qc -> Corr.
Variable argsort : list Qc -> list nat.

(** X17.  [get_pairwise_correlations] raises [ValueError] when there is no
    neuron at all, and when [tau_refs] is a sequence whose length is not the
    number of neurons.  Otherwise it hands the compiled routine the spikes
    of all neurons as two aligned arrays that hold exactly the input spikes,
    ascending in time, together with the neuron numbers [0..N-1] and one
    refractory time per neuron, a scalar being repeated [N] times. *)
Theorem get_pairwise_correlations_wrapper (spike_times : list (list Qc))
    (tau_refs : tau_refs_arg) (duration ignore_until : Qc) :
  let run := get_pairwise_correlations cutils_get_pairwise_correlations argsort in
  let n := length spike_times in
  run [] tau_refs duration ignore_until = Err ValueError /\
  (spike_times <> [] ->
   is_argsort (concat spike_times) (argsort (concat spike_times)) = true ->
   match tau_refs with
   | TauList l =>
       length l <> n -> run spike_times tau_refs duration ignore_until = Err ValueError
   | TauScalar _ => True
   end /\
   (match tau_refs with TauList l => length l = n | TauScalar _ => True end ->
    exists ids times,
      run spike_times tau_refs duration ignore_until
        = Ok (cutils_get_pairwise_correlations ids times (seq 0 n)
                match tau_refs with
                | TauList l => l
                | TauScalar x => replicate n x
                end duration ignore_until) /\
      zip_with Spike ids times ≡ₚ flat_spikes spike_times /\
      length ids = length times /\
      Sorted Qcle times)).
Proof.
  intros run n. split; [reflexivity|]. intros Hne Hsort.
  destruct (flat_spikes_ids_times spike_times) as [Hids Htimes].
  rewrite Htimes in Hsort.
  apply is_argsort_spec in Hsort as (Hperm & Hrange & Hsorted).
  rewrite length_map in Hperm, Hrange.
  set (flat := flat_spikes spike_times) in *.
  set (out := map (fun k => default (Spike 0 (Q2Qc 0)) (flat !! k))
                  (argsort (map spike_t flat))).
  assert (forall tau : result (list Qc),
    run spike_times tau_refs duration ignore_until =
      (tau_refs' ← match tau_refs with
                   | TauScalar x => Ok (replicate n x)
                   | TauList l =>
                       if negb (length l =? n) then Err ValueError else Ok l
                   end;
       Ok (cutils_get_pairwise_correlations (map spike_id out) (map spike_t out)
             (seq 0 n) tau_refs' duration ignore_until))) as Hrun.
  { intros _. unfold run, get_pairwise_correlations.
    rewrite !np_hstack_nonempty; [|by destruct spike_times|done].
    cbn [mbind result_bind]. rewrite Hids, Htimes. fold flat.
    rewrite !(take_indices_map _ (Spike 0 (Q2Qc 0))) by done.
    cbn [mbind result_bind]. reflexivity. }
  split.
  - destruct tau_refs as [x|l]; [done|]. intros Hl. rewrite (Hrun (Ok [])).
    by rewrite (proj2 (Nat.eqb_neq _ _) Hl).
  - intros Hl. exists (map spike_id out), (map spike_t out). split; [|split; [|split]].
    + rewrite (Hrun (Ok [])). destruct tau_refs as [x|l]; [done|].
      by rewrite Hl, Nat.eqb_refl.
    + rewrite zip_with_Spike. unfold out. rewrite Hperm. by rewrite map_lookup_seq.
    + by rewrite !length_map.
    + unfold out. rewrite map_map. erewrite map_ext; [exact Hsorted|].
      intros k. simpl. rewrite list_lookup_fmap. by destruct (flat !! k).
Qed.

End PairwiseCorrelationFacts.

Lemma get_pairwise_correlations_wrapper_witness :
  exists ids times,
    get_pairwise_correlations (fun ids times ns taus _ _ => (ids, times, ns, taus))
      np_argsort [[qz 3]; [qz 1; qz 4]] (TauScalar (qz 10)) (qz 100) (qz 0)
      = Ok (ids, times, [0; 1], [qz 10; qz 10]) /\
    Sorted Qcle times.
Proof.
  destruct (proj2 (get_pairwise_correlations_wrapper _
              (fun ids times ns taus _ _ => (ids, times, ns, taus))
              np_argsort [[qz 3]; [qz 1; qz 4]] (TauScalar (qz 10)) (qz 100) (qz 0)))
    as [_ Hok]; [done|by vm_compute|].
  destruct (Hok I) as (ids & times & Hrun & _ & _ & Hs).
  exists ids, times. split; [exact Hrun|exact Hs].
Defined.

(** ** [MixinRBM.convert_weights_theo_to_bio] *)

Lemma get_row_spec (m : matrix) (j : nat) :
  matrix_wf m = true -> j < nrows m ->
  exists row, get_row m j = Ok row /\ length row = ncols m /\
              forall k, row !! k = entry m j k.
Proof.
  intros [Hlen Hall]%matrix_wf_spec Hj. unfold get_row, entry.
  rewrite (proj2 (Nat.ltb_lt _ _) Hj).
  destruct (lookup_lt_is_Some_2 (rows m) j ltac:(lia)) as [r Hr]. rewrite Hr.
  exists r. split; [done|]. split; [|done].
  rewrite Forall_forall in Hall. apply Hall. by eapply list_elem_of_lookup_2.
Qed.

Lemma set_row_spec (m : matrix) (j : nat) (row : list Qc) :
  matrix_wf m = true -> j < nrows m -> length row = ncols m ->
  exists m', set_row m j row = Ok m' /\ matrix_wf m' = true /\
             nrows m' = nrows m /\ ncols m' = ncols m /\
             forall i k, entry m' i k =
                         if decide (i = j) then row !! k else entry m i k.
Proof.
  intros Hwf Hj Hrow. pose proof Hwf as [Hlen Hall]%matrix_wf_spec.
  unfold set_row. rewrite (proj2 (Nat.ltb_lt _ _) Hj), (proj2 (Nat.eqb_eq _ _) Hrow).
  eexists. split; [reflexivity|]. split; [|split; [done|split; [done|]]].
  - apply matrix_wf_spec. cbn [rows nrows ncols]. split; [by rewrite length_insert|].
    apply Forall_insert; done.
  - intros i k. unfold entry. cbn [rows]. case_decide as Hi.
    + subst i. by rewrite list_lookup_insert_eq by lia.
    + by rewrite list_lookup_insert_ne.
Qed.

Lemma convert_rows_spec (convert : LIFsampler -> list Qc -> result (list Qc))
    (f : LIFsampler -> Qc -> Qc) (weights : matrix) :
  matrix_wf weights = true ->
  forall (ss : list LIFsampler) (j : nat) (acc : matrix),
    (forall s row, s ∈ ss -> convert s row = Ok (map (f s) row)) ->
    matrix_wf acc = true ->
    nrows acc = nrows weights -> ncols acc = ncols weights ->
    j + length ss <= nrows weights ->
    exists R, convert_rows convert weights j ss acc = Ok R /\
      matrix_wf R = true /\ nrows R = nrows weights /\ ncols R = ncols weights /\
      forall i k, entry R i k =
        match (if decide (j <= i) then ss !! (i - j) else None) with
        | Some s => f s <$> entry weights i k
        | None => entry acc i k
        end.
Proof.
  intros Hwf ss. induction ss as [|s ss IH]; intros j acc Hconv Hacc Hnr Hnc Hj.
  - exists acc. simpl. repeat split; try done.
    intros i k. by case_decide.
  - simpl in Hj. cbn [convert_rows].
    destruct (get_row_spec weights j Hwf) as (row & -> & Hlrow & Hrow); [lia|].
    cbn [mbind result_bind]. rewrite Hconv by left. cbn [mbind result_bind].
    destruct (set_row_spec acc j (map (f s) row) Hacc) as
      (acc' & -> & Hacc' & Hnr' & Hnc' & Hent'); [lia | rewrite length_map; lia |].
    cbn [mbind result_bind].
    destruct (IH (S j) acc') as (R & -> & HR & HnrR & HncR & HentR);
      [ intros; apply Hconv; by right | done | lia | lia | lia |].
    exists R. repeat split; try done.
    intros i k. rewrite HentR, Hent'.
    destruct (decide (j <= i)) as [Hji|Hji].
    + destruct (decide (i = j)) as [->|Hne].
      * rewrite decide_False by lia. rewrite Nat.sub_diag. simpl.
        by rewrite list_lookup_fmap, Hrow.
      * rewrite decide_True by lia.
        replace (i - j) with (S (i - S j)) by lia. simpl.
        by destruct (ss !! (i - S j)).
    + rewrite decide_False by lia. rewrite decide_False by lia. done.
Qed.

Lemma py_slice_elem_of {A} (l : list A) (a b : nat) (x : A) :
  x ∈ py_slice l a b -> x ∈ l.
Proof.
  unfold py_slice. intros (i & Hi & _)%elem_of_take.
  rewrite lookup_drop in Hi. by eapply list_elem_of_lookup_2.
Qed.

Lemma py_getitem_ok_lt {A} (l : list A) (k : nat) :
  k < length l -> exists x, l !! k = Some x /\ py_getitem l (Z.of_nat k) = Ok x.
Proof.
  intros Hk. destruct (lookup_lt_is_Some_2 l k Hk) as [x Hx].
  exists x. split; [done|by apply py_getitem_nat].
Qed.

Section RbmConversion.

Variable convert : LIFsampler -> list Qc -> result (list Qc).
Variable f : LIFsampler -> Qc -> Qc.
Variables (n : list nat) (self : MixinRBM.rbm) (ss : list LIFsampler).
Variable ws : list matrix.

Hypothesis Hinit : MixinRBM.__init__ (Some n) = Ok self.
Hypothesis Hlen : length ss = sum_list n.
Hypothesis Hconv : forall s row, s ∈ ss -> convert s row = Ok (map (f s) row).
Hypothesis Hfit : forall k W, ws !! k = Some W ->
  matrix_wf W = true /\ n !! k = Some (nrows W) /\ n !! S k = Some (ncols W).

Lemma rbm_self_fields :
  1 < length n /\ MixinRBM._layer_id_offset self = 0 :: MixinRBM.np_cumsum n /\
  MixinRBM.num_layers self = length n.
Proof.
  revert Hinit. unfold MixinRBM.__init__.
  destruct (1 <? length n) eqn:Hn; [|done]. apply Nat.ltb_lt in Hn.
  by intros [= <-].
Qed.

Lemma convert_layer_step (k : nat) (W : matrix) :
  ws !! k = Some W ->
  exists A B,
    convert_columns convert W 0
      (py_slice ss (sum_list (take (S k) n)) (sum_list (take (S (S k)) n)))
      (np_zeros_like W) = Ok A /\
    convert_rows convert W 0
      (py_slice ss (sum_list (take k n)) (sum_list (take (S k) n)))
      (np_zeros_like W) = Ok B /\
    layer_converted f (split_layers n ss) k W (A, B).
Proof.
  intros HW. destruct (Hfit k W HW) as (Hwf & Hr & Hc).
  pose proof (split_layers_lookup n ss k _ Hr) as Hlk.
  pose proof (split_layers_lookup n ss (S k) _ Hc) as Hlk1.
  pose proof (split_layers_sizes n ss ltac:(lia)) as Hsz.
  pose proof (Forall2_lookup_lr _ _ _ _ _ _ Hsz Hlk Hr) as Hl0.
  pose proof (Forall2_lookup_lr _ _ _ _ _ _ Hsz Hlk1 Hc) as Hl1.
  cbn beta in Hl0, Hl1.
  destruct (convert_columns_spec convert f W Hwf
              (py_slice ss (sum_list (take (S k) n)) (sum_list (take (S (S k)) n)))
              0 (np_zeros_like W))
    as (A & HA & HwA & HrA & HcA & HeA);
    [intros s col Hs%py_slice_elem_of; by apply Hconv
    |apply np_zeros_like_wf|done|done|lia|].
  destruct (convert_rows_spec convert f W Hwf
              (py_slice ss (sum_list (take k n)) (sum_list (take (S k) n)))
              0 (np_zeros_like W))
    as (B & HB & HwB & HrB & HcB & HeB);
    [intros s col Hs%py_slice_elem_of; by apply Hconv
    |apply np_zeros_like_wf|done|done|lia|].
  exists A, B. split; [done|]. split; [done|].
  unfold layer_converted. cbn [fst snd shape]. rewrite HrA, HcA, HrB, HcB.
  split; [done|]. split; [done|]. split.
  - intros i j s Hs. rewrite Hlk1 in Hs. cbn in Hs.
    rewrite HeA, decide_True by lia. by rewrite Nat.sub_0_r, Hs.
  - intros i j s Hs. rewrite Hlk in Hs. cbn in Hs.
    rewrite HeB, decide_True by lia. by rewrite Nat.sub_0_r, Hs.
Qed.

Lemma convert_layers_spec :
  forall k s conv,
    s + k <= length ws -> length conv = length ws ->
    (forall i W, s <= i -> ws !! i = Some W ->
       conv !! i = Some (np_zeros_like W, np_zeros_like W)) ->
    exists out,
      MixinRBM.convert_layers convert self ss ws (seq s k) conv = Ok out /\
      length out = length ws /\
      (forall i, i < s \/ s + k <= i -> out !! i = conv !! i) /\
      (forall i W, s <= i < s + k -> ws !! i = Some W ->
         exists AB, out !! i = Some AB /\
           layer_converted f (split_layers n ss) i W AB).
Proof.
  destruct rbm_self_fields as (Hn & Hoff & Hnl).
  induction k as [|k IH]; intros s conv Hsk Hlc Hzero.
  - exists conv. split; [done|]. split; [done|]. split; [done|]. intros; lia.
  - cbn [seq MixinRBM.convert_layers]. rewrite Hoff.
    destruct (lookup_lt_is_Some_2 ws s ltac:(lia)) as [W HW].
    destruct (Hfit s W HW) as (Hwf & Hr & Hc).
    apply lookup_lt_Some in Hc as Hsn.
    rewrite (py_getitem_nat _ _ _ (Hzero s W ltac:(lia) HW)).
    rewrite (py_getitem_nat _ _ _ HW). cbn [mbind result_bind fst snd].
    rewrite (py_getitem_nat _ _ _ (layer_id_offset_lookup n (s + 1) ltac:(lia))).
    rewrite (py_getitem_nat _ _ _ (layer_id_offset_lookup n (s + 2) ltac:(lia))).
    rewrite (py_getitem_nat _ _ _ (layer_id_offset_lookup n s ltac:(lia))).
    cbn [mbind result_bind].
    replace (s + 1) with (S s) by lia. replace (s + 2) with (S (S s)) by lia.
    destruct (convert_layer_step s W HW) as (A & B & -> & -> & Hgood).
    cbn [mbind result_bind]. rewrite py_setitem_nat by lia. cbn [mbind result_bind].
    destruct (IH (S s) (<[s := (A, B)]> conv)) as (out & Hrun & Hlo & Hsame & Hdone).
    { lia. } { by rewrite length_insert. }
    { intros i W' Hi HW'. rewrite list_lookup_insert_ne by lia. apply Hzero; [lia|done]. }
    exists out. split; [exact Hrun|]. split; [exact Hlo|]. split.
    + intros i Hi. rewrite Hsame by lia. apply list_lookup_insert_ne. lia.
    + intros i W' Hi HW'. destruct (decide (i = s)) as [->|Hne].
      * rewrite Hsame by lia. rewrite list_lookup_insert_eq by lia.
        exists (A, B). split; [done|]. congruence.
      * apply Hdone; [lia|done].
Qed.

End RbmConversion.

Lemma convert_layers_app (convert : LIFsampler -> list Qc -> result (list Qc))
    (self : MixinRBM.rbm) (ss : list LIFsampler) (ws : list matrix)
    (l1 l2 : list nat) :
  forall conv,
    MixinRBM.convert_layers convert self ss ws (l1 ++ l2) conv =
    MixinRBM.convert_layers convert self ss ws l1 conv
      ≫= MixinRBM.convert_layers convert self ss ws l2.
Proof.
  induction l1 as [|i l1 IH]; intros conv; [done|].
  cbn [app MixinRBM.convert_layers].
  repeat match goal with
  | |- context [@mbind result _ _ _ _ ?m] =>
      lazymatch m with
      | MixinRBM.convert_layers _ _ _ _ _ _ => fail
      | _ => destruct m; cbn [mbind result_bind]; [|done]
      end
  end.
  apply IH.
Qed.

(** X18.  For an RBM whose weight matrices have the shapes of their layer
    pairs, [convert_weights_theo_to_bio] returns, per layer pair, two
    matrices of the shape of the theoretical one: in the first every entry
    is converted by the sampler of its column (a unit of the upper layer,
    the target of the upward connection), in the second by the sampler of
    its row (a unit of the lower layer).  A list with fewer matrices than
    layer pairs, which [_check_weight_matrix] lets through, makes the
    conversion raise [IndexError]. *)
Theorem rbm_convert_both_directions
    (convert : LIFsampler -> list Qc -> result (list Qc))
    (f : LIFsampler -> Qc -> Qc) (n : list nat) (self : MixinRBM.rbm)
    (ss : list LIFsampler) (ws : list matrix) :
  MixinRBM.__init__ (Some n) = Ok self ->
  length ss = sum_list n ->
  (forall s row, s ∈ ss -> convert s row = Ok (map (f s) row)) ->
  (forall k W, ws !! k = Some W ->
     matrix_wf W = true /\ n !! k = Some (nrows W) /\ n !! S k = Some (ncols W)) ->
  (length ws = length n - 1 ->
   exists out,
     MixinRBM.convert_weights_theo_to_bio convert self ss ws = Ok out /\
     length out = length ws /\
     forall k W, ws !! k = Some W ->
       exists AB, out !! k = Some AB /\
         layer_converted f (split_layers n ss) k W AB) /\
  (length ws < length n - 1 ->
   MixinRBM.convert_weights_theo_to_bio convert self ss ws = Err IndexError).
Proof.
  intros Hinit Hlen Hconv Hfit.
  destruct (rbm_self_fields n self Hinit) as (Hn & Hoff & Hnl).
  assert (forall i W, 0 <= i -> ws !! i = Some W ->
            map (fun w => (np_zeros_like w, np_zeros_like w)) ws !! i
              = Some (np_zeros_like W, np_zeros_like W)) as Hzero.
  { intros i W _ HW. by rewrite list_lookup_fmap, HW. }
  destruct (convert_layers_spec convert f n self ss ws Hinit Hlen Hconv Hfit
              (length ws) 0 _ ltac:(lia) ltac:(by rewrite length_map) Hzero)
    as (out & Hrun & Hlo & _ & Hdone).
  unfold MixinRBM.convert_weights_theo_to_bio. rewrite Hnl. split.
  - intros Hl. rewrite <- Hl. exists out. split; [exact Hrun|]. split; [exact Hlo|].
    intros k W HW. apply Hdone; [|done]. apply lookup_lt_Some in HW. lia.
  - intros Hl.
    replace (length n - 1) with (length ws + S (length n - 2 - length ws)) by lia.
    rewrite seq_app, convert_layers_app, Hrun. cbn [mbind result_bind Nat.add seq].
    cbn [MixinRBM.convert_layers].
    by rewrite (py_getitem_nat_ge out (length ws)) by lia.
Qed.

Lemma rbm_convert_both_directions_witness :
  let s1 := sampler_of 1 10 (Some 2%Z) in
  let s2 := sampler_of 2 10 (Some 3%Z) in
  let W := matrix_of [[5]]%Z in
  exists self out AB,
    MixinRBM.__init__ (Some [1; 1]) = Ok self /\
    MixinRBM.convert_weights_theo_to_bio
      (fun s row => Ok (map (fun w => w * alpha_of s)%Qc row)) self [s1; s2] [W]
      = Ok out /\
    out !! 0 = Some AB /\
    entry (fst AB) 0 0 = Some (qz 5 * alpha_of s2)%Qc /\
    entry (snd AB) 0 0 = Some (qz 5 * alpha_of s1)%Qc.
Proof.
  intros s1 s2 W.
  destruct (proj1 (rbm_convert_both_directions
              (fun s row => Ok (map (fun w => w * alpha_of s)%Qc row))
              (fun s w => w * alpha_of s)%Qc [1; 1] _ [s1; s2] [W]
              eq_refl eq_refl ltac:(done)
              ltac:(intros [|k] W' HW'; [injection HW' as <-; done|done]))
            eq_refl) as (out & Hrun & _ & Hall).
  destruct (Hall 0 W eq_refl) as (AB & Hk & _ & _ & HA & HB).
  eexists _, out, AB. split; [reflexivity|]. split; [exact Hrun|].
  split; [exact Hk|]. split.
  - exact (HA 0 0 s2 eq_refl).
  - exact (HB 0 0 s1 eq_refl).
Defined.

(** ** [get_population_from_samplers] *)

(** X19.  For two or more samplers that sit next to each other in one
    network population, the [k]-th at index [i0 + k],
    [get_population_from_samplers] returns the view
    [population[i0 : i0 + n - 1]]: the slice stops at the index of the last
    sampler, so the view has [n - 1] cells and the last sampler is not among
    them.  A single sampler yields its own population, samplers without a
    network population the list of their own populations, and an empty list
    raises [IndexError]. *)
Theorem get_population_drops_last_sampler (Pop : Type) (net : Pop)
    (l : list (placed_sampler Pop)) (i0 : Z) :
  let n := length l in
  get_population_from_samplers (SamplersList (@nil (placed_sampler Pop)))
    = Err IndexError /\
  (forall s, l = [s] ->
     get_population_from_samplers (SamplersList l)
       = Ok (WholePopulation (sampler_population s))) /\
  (2 <= n -> (forall s, head l = Some s -> network_population s = None) ->
     get_population_from_samplers (SamplersList l)
       = Ok (Populations (map sampler_population l))) /\
  (2 <= n -> (0 <= i0)%Z ->
   (forall k s, l !! k = Some s ->
      network_population s = Some net /\ network_index s = (i0 + Z.of_nat k)%Z) ->
   let last := (i0 + Z.of_nat n - 1)%Z in
   get_population_from_samplers (SamplersList l) = Ok (PopulationSlice net i0 last) /\
   length (slice_indices i0 last) = n - 1 /\
   (last ∉ slice_indices i0 last) /\
   forall k, k < n - 1 -> (i0 + Z.of_nat k)%Z ∈ slice_indices i0 last).
Proof.
  intros n. unfold n. clear n. split; [reflexivity|]. split; [by intros s ->|]. split.
  - intros Hn Hnone. unfold get_population_from_samplers.
    destruct l as [|s0 l']; [simpl in *; lia|].
    rewrite (proj2 (Nat.eqb_neq _ _)) by (simpl in *; lia).
    change (py_getitem (s0 :: l') 0) with (Ok (A:=placed_sampler Pop) s0).
    cbn [mbind result_bind]. by rewrite (Hnone s0 eq_refl).
  - intros Hn Hi0 Hadj. split; [|split; [|split]].
    + unfold get_population_from_samplers.
      destruct l as [|s0 l'] eqn:Hl; [simpl in *; lia|]. rewrite <- Hl in *.
      rewrite (proj2 (Nat.eqb_neq _ _)) by lia.
      assert (py_getitem l 0 = Ok s0) as -> by (by rewrite Hl).
      destruct (Hadj 0 s0 ltac:(by rewrite Hl)) as [Hnet Hidx].
      destruct (lookup_lt_is_Some_2 l (length l - 1) ltac:(lia)) as [sl Hsl].
      destruct (Hadj (length l - 1) sl Hsl) as [_ Hidxl].
      assert (py_getitem l (-1) = Ok sl) as Hlast.
      { apply py_getitem_last_Some. rewrite last_lookup.
        by replace (pred (length l)) with (length l - 1) by lia. }
      cbn [mbind result_bind]. rewrite Hnet, Hlast. cbn [mbind result_bind].
      assert ((if (network_index s0 =? 0)%Z
               then Ok (network_index sl - 1 =? Z.of_nat (length l))%Z
               else Ok false) = Ok false) as ->.
      { destruct (network_index s0 =? 0)%Z eqn:H0; [|done]. f_equal.
        apply Z.eqb_eq in H0. apply Z.eqb_neq. lia. }
      cbn [mbind result_bind]. rewrite Hidx, Hidxl. do 2 f_equal; lia.
    + unfold slice_indices. rewrite length_map, length_seq. lia.
    + unfold slice_indices. intros (k & Hk & Hin%elem_of_seq)%list_elem_of_fmap.
      lia.
    + intros k Hk. unfold slice_indices. apply list_elem_of_fmap.
      exists k. split; [done|]. apply elem_of_seq. lia.
Qed.

Lemma get_population_drops_last_sampler_witness :
  let s k := {| sampler_population := 100 + k; network_population := Some 7;
                network_index := Z.of_nat k |} in
  get_population_from_samplers (SamplersList [s 0; s 1; s 2])
    = Ok (PopulationSlice 7 0 (0 + Z.of_nat 3 - 1)) /\
  length (slice_indices 0 (0 + Z.of_nat 3 - 1)) = 3 - 1.
Proof.
  intros s.
  destruct (proj2 (proj2 (proj2 (get_population_drops_last_sampler nat 7
                                   [s 0; s 1; s 2] 0))))
    as (Hrun & Hlen & _).
  - simpl. lia.
  - lia.
  - intros [|[|[|k]]] s' [= <-]; done.
  - split; [exact Hrun|exact Hlen].
Defined.

(** ** [RapidBMBase]: connections and their weights *)

Lemma where_mask_row {A} (row : list A) :
  forall (mrow : list bool) s, length mrow = length row ->
    Forall2 (fun j w => exists j', j = s + j' /\ mrow !! j' = Some true /\
                                   row !! j' = Some w)
      (np_where_from s mrow) (mask_items row mrow).
Proof.
  induction row as [|x row IH]; intros [|b mrow] s Hlen; simpl in Hlen; try lia.
  - constructor.
  - cbn [np_where_from mask_items].
    assert (Forall2 (fun j w => exists j', j = s + j' /\ (b :: mrow) !! j' = Some true /\
                                           (x :: row) !! j' = Some w)
              (np_where_from (S s) mrow) (mask_items row mrow)) as Hrest.
    { eapply Forall2_impl; [apply (IH mrow (S s)); lia|].
      intros j w (j' & -> & ? & ?). exists (S j'). split; [lia|done]. }
    destruct b; [|done]. constructor; [|done].
    exists 0. split; [lia|done].
Qed.

Lemma nonzero_select2 {A} (rws : list (list A)) :
  forall (mask : list (list bool)) s,
    Forall2 (fun m r => length m = length r) mask rws ->
    Forall2 (fun (idx : nat * nat) w =>
               exists i' m r, fst idx = s + i' /\ mask !! i' = Some m /\
                 rws !! i' = Some r /\ m !! snd idx = Some true /\
                 r !! snd idx = Some w)
      (concat (imap (fun i r => map (fun j => (s + i, j)) (np_where r)) mask))
      (concat (zip_with mask_items rws mask)).
Proof.
  intros mask s H. revert s. induction H as [|m r mask rws Hlen _ IH]; intros s.
  - constructor.
  - rewrite imap_cons. cbn [concat zip_with]. apply Forall2_app.
    + apply Forall2_fmap_l. eapply Forall2_impl; [apply (where_mask_row r m 0 Hlen)|].
      intros j w (j' & -> & Hm & Hr). exists 0, m, r. cbn. rewrite Nat.add_0_r.
      done.
    + rewrite (imap_ext _ (fun i r => map (fun j => (S s + i, j)) (np_where r)))
        by (intros; cbn; apply map_ext; intros; f_equal; lia).
      eapply Forall2_impl; [apply (IH (S s))|].
      intros idx w (i' & m' & r' & Hi & ? & ? & ? & ?).
      exists (S i'), m', r'. split; [lia|done].
Qed.

Lemma np_where_from_length (r : list bool) :
  forall s, length (np_where_from s r) = length (List.filter (fun b : bool => b) r).
Proof.
  induction r as [|b r IH]; intros s; [done|].
  cbn [np_where_from List.filter]. destruct b; cbn [length]; by rewrite IH.
Qed.

Lemma np_nonzero_length (mask : list (list bool)) :
  length (ThoroughBM.np_nonzero mask) = ThoroughBM.mask_sum mask.
Proof.
  unfold ThoroughBM.np_nonzero, ThoroughBM.mask_sum.
  assert (forall g : nat -> nat,
    length (concat (imap (fun i r => map (fun j => (g i, j)) (np_where r)) mask))
    = sum_list (map (fun r => length (List.filter (fun b : bool => b) r)) mask)) as H.
  { induction mask as [|r mask IH]; intros g; [done|].
    rewrite imap_cons. cbn [concat map sum_list sum_list_with]. unfold Datatypes.id.
    rewrite length_app, length_map. unfold np_where at 1.
    rewrite np_where_from_length. f_equal. apply (IH (fun i => g (S i))). }
  apply (H (fun i => i)).
Qed.

Lemma mapM_result_Forall2 {A B} (f : A -> result B) (P : A -> B -> Prop)
    (l : list A) :
  (forall x, x ∈ l -> exists y, f x = Ok y /\ P x y) ->
  exists ys, mapM f l = Ok ys /\ Forall2 P l ys.
Proof.
  induction l as [|x l IH]; intros H; [exists []; by split|].
  destruct (H x ltac:(by left)) as (y & Hy & HP).
  destruct IH as (ys & Hys & HF); [intros x' Hx'; apply H; by right|].
  exists (y :: ys). cbn [mapM]. rewrite Hy, Hys. split; [done|by constructor].
Qed.

Lemma Forall2_join {A B C} (P : A -> B -> Prop) (Q : A -> C -> Prop)
    (l : list A) (bs : list B) (cs : list C) :
  Forall2 P l bs -> Forall2 Q l cs ->
  Forall2 (fun b c => exists a, a ∈ l /\ P a b /\ Q a c) bs cs.
Proof.
  intros HP. revert cs. induction HP as [|a b l bs Hab _ IH]; intros cs HQ.
  - inversion HQ. constructor.
  - inversion HQ as [|? c ? cs' Hac HQ']; subst. constructor.
    + exists a. split; [by left|done].
    + eapply Forall2_impl; [apply IH, HQ'|].
      intros b' c' (a' & ? & ? & ?). exists a'. split; [by right|done].
Qed.

(** X20.  With the default connectivity, [RapidBMBase] makes one
    [nest.Connect] call, with weight [0], for every pair of samplers whose
    biological weight is not zero when the network is created, and none for
    the others.  [update_weights] later sends exactly one weight per such
    call, in the order of the calls: [1000] times the current biological
    weight of the pair the call joined.  Pairs whose weight was zero at
    creation are never sent a weight, whatever it has become. *)
Theorem rapid_weights_follow_connections {G} (N : nat) (gids : list G)
    (W W' D : matrix) :
  matrix_wf W = true -> nrows W = N -> ncols W = N ->
  matrix_wf W' = true -> nrows W' = N -> ncols W' = N ->
  matrix_wf D = true -> nrows D = N -> ncols D = N ->
  length gids = N ->
  exists mask calls ws,
    RapidBM._create_connectivity N gids (Nd2 D) W None = Ok (mask, calls) /\
    RapidBM.update_weights W' mask = Ok ws /\
    length calls = ThoroughBM.mask_sum (RapidBM.nonzero_mask W) /\
    Forall2 (fun call w =>
               RapidBM.call_weight call = Q2Qc 0 /\
               exists src tgt w0 w',
                 call_joins gids call src tgt /\
                 entry W src tgt = Some w0 /\ w0 <> Q2Qc 0 /\
                 entry W' src tgt = Some w' /\ w = (w' * Qc_of_Z 1000)%Qc)
            calls ws.
Proof.
  intros HW HrW HcW HW' HrW' HcW' HD HrD HcD Hg.
  pose proof HW as [HlW HaW]%matrix_wf_spec.
  pose proof HW' as [HlW' HaW']%matrix_wf_spec.
  set (mask := RapidBM.nonzero_mask W).
  set (scaled := map (map (fun w => w * Qc_of_Z 1000)%Qc) (rows W')).
  assert (Forall2 (fun m r => length m = length r) mask scaled) as Hshape.
  { unfold mask, scaled, RapidBM.nonzero_mask. apply Forall2_fmap.
    apply Forall2_same_length_lookup_2; [lia|]. intros i r r' Hr Hr'.
    rewrite !length_map. rewrite Forall_forall in HaW, HaW'.
    rewrite (HaW r), (HaW' r'); [lia| |]; by eapply list_elem_of_lookup_2. }
  assert (forall idx : nat * nat, idx ∈ ThoroughBM.np_nonzero mask ->
            exists w0, entry W (fst idx) (snd idx) = Some w0 /\ w0 <> Q2Qc 0) as Hnz.
  { intros [i j] (m & Hm & Hj)%np_nonzero_elem. unfold mask, RapidBM.nonzero_mask in Hm.
    rewrite list_lookup_fmap in Hm. unfold entry. cbn [fst snd].
    destruct (rows W !! i) as [r|]; [|done]. injection Hm as <-.
    rewrite list_lookup_fmap in Hj. cbn. destruct (r !! j) as [w0|]; [|done].
    exists w0. split; [done|]. injection Hj as Hj. apply negb_true_iff in Hj.
    by apply bool_decide_eq_false_1 in Hj. }
  destruct (mapM_result_Forall2 (RapidBM.connect_pair gids (Nd2 D))
              (fun idx call => RapidBM.call_weight call = Q2Qc 0 /\
                               call_joins gids call (fst idx) (snd idx))
              (ThoroughBM.np_nonzero mask)) as (calls & Hcalls & Hjoin).
  { intros [i j] Hin. destruct (Hnz _ Hin) as (w0 & He & _). cbn [fst snd] in He.
    assert (i < N /\ j < N) as [Hi Hj].
    { unfold entry in He. destruct (rows W !! i) as [r|] eqn:Hr; [|done]. cbn in He.
      apply lookup_lt_Some in Hr as Hi. apply lookup_lt_Some in He as Hj.
      rewrite Forall_forall in HaW. rewrite (HaW r) in Hj
        by (by eapply list_elem_of_lookup_2). lia. }
    destruct (lookup_lt_is_Some_2 gids i ltac:(lia)) as [gi Hgi].
    destruct (lookup_lt_is_Some_2 gids j ltac:(lia)) as [gj Hgj].
    destruct (entry_is_Some D i j HD ltac:(lia) ltac:(lia)) as [d Hd].
    unfold RapidBM.connect_pair, ThoroughBM.delay_of.
    rewrite (py_getitem_nat _ _ _ Hgi), (py_getitem_nat _ _ _ Hgj).
    cbn [mbind result_bind shape length Nat.eqb]. rewrite Hd.
    cbn [mbind result_bind]. eexists. split; [reflexivity|]. by split. }
  exists mask, calls, (concat (zip_with mask_items scaled mask)).
  split; [|split; [|split]].
  - unfold RapidBM._create_connectivity. cbn [mbind result_bind]. fold mask.
    by rewrite Hcalls.
  - unfold RapidBM.update_weights, RapidBM.mask_select2. cbn [nrows ncols rows].
    fold scaled. rewrite (proj2 (andb_true_iff _ _)); [done|]. split.
    + apply Nat.eqb_eq. unfold mask, RapidBM.nonzero_mask. rewrite length_map. lia.
    + apply forallb_forall. intros m Hm%list_elem_of_In. apply Nat.eqb_eq.
      apply list_elem_of_lookup_1 in Hm as [i Hi].
      unfold mask, RapidBM.nonzero_mask in Hi. rewrite list_lookup_fmap in Hi.
      destruct (rows W !! i) as [r|] eqn:Hr; [|done]. injection Hi as <-.
      rewrite length_map. rewrite Forall_forall in HaW. rewrite (HaW r); [lia|].
      by eapply list_elem_of_lookup_2.
  - rewrite <- (Forall2_length _ _ _ Hjoin). apply np_nonzero_length.
  - eapply Forall2_impl.
    { pose proof (nonzero_select2 scaled mask 0 Hshape) as Hsel.
      rewrite (imap_ext _ (fun i r => map (fun j => (i, j)) (np_where r))) in Hsel
        by done.
      exact (Forall2_join _ _ _ _ _ Hjoin Hsel). }
    intros call w ([i j] & Hin & [Hw0 Hcj] & (i' & m & r & Hi & Hm & Hr & Hmj & Hrj)).
    cbn [fst snd Nat.add] in *. subst i'.
    split; [done|]. destruct (Hnz _ Hin) as (w0 & He & Hne). cbn [fst snd] in He.
    unfold scaled in Hr. rewrite list_lookup_fmap in Hr.
    destruct (rows W' !! i) as [r'|] eqn:Hr'; [|done]. injection Hr as <-.
    rewrite list_lookup_fmap in Hrj. destruct (r' !! j) as [w'|] eqn:Hw'; [|done].
    injection Hrj as <-. exists i, j, w0, w'. split; [done|]. split; [done|].
    split; [done|]. split; [|done]. unfold entry. by rewrite Hr'.
Qed.

Lemma rapid_weights_follow_connections_witness :
  let W := matrix_of [[0; 1]; [2; 0]]%Z in
  let W' := matrix_of [[5; 6]; [7; 8]]%Z in
  exists mask calls ws,
    RapidBM._create_connectivity 2 [10; 11] (Nd2 (np_full 2 2 (qz 1))) W None
      = Ok (mask, calls) /\
    RapidBM.update_weights W' mask = Ok ws /\
    length calls = ThoroughBM.mask_sum (RapidBM.nonzero_mask W).
Proof.
  intros W W'.
  destruct (rapid_weights_follow_connections 2 [10; 11] W W' (np_full 2 2 (qz 1)))
    as (mask & calls & ws & Hc & Hu & Hl & _); try reflexivity.
  exists mask, calls, ws. split; [exact Hc|]. split; [exact Hu|exact Hl].
Defined.

(** ** [group_identical_parameters] *)

Lemma np_unique_spec (l : list Qc) (e : nat) (x : Qc) :
  l !! e = Some x ->
  exists i, snd (GroupParameters.np_unique l) !! e = Some i /\
            fst (GroupParameters.np_unique l) !! i = Some x.
Proof.
  intros He. unfold GroupParameters.np_unique. cbn [fst snd].
  rewrite list_lookup_fmap, He. cbn.
  set (uniq := merge_sort Qcle (remove_dups l)).
  assert (x ∈ uniq) as Hx.
  { unfold uniq. rewrite merge_sort_Permutation, elem_of_remove_dups.
    by eapply list_elem_of_lookup_2. }
  destruct (list_find_elem_of (fun y => y = x) uniq x Hx eq_refl) as [[i y] Hf].
  rewrite Hf. cbn. exists i. split; [done|].
  apply list_find_Some in Hf as (Hi & -> & _). done.
Qed.

Lemma uniq_of_spec (n : nat) (v : GroupParameters.pvalue) (e : nat) :
  (forall l, v = GroupParameters.Sequence l -> length l = n) -> e < n ->
  length (snd (GroupParameters.uniq_of n v)) = n /\
  exists i x, snd (GroupParameters.uniq_of n v) !! e = Some i /\
              fst (GroupParameters.uniq_of n v) !! i = Some x /\
              GroupParameters.value_at v e = Some x.
Proof.
  intros Hlen He. destruct v as [x|l]; cbn [GroupParameters.uniq_of].
  - cbn [fst snd]. rewrite length_replicate. split; [done|].
    exists 0, x. by rewrite lookup_replicate_2.
  - specialize (Hlen l eq_refl). split.
    + unfold GroupParameters.np_unique. cbn [snd]. by rewrite length_map.
    + destruct (lookup_lt_is_Some_2 l e ltac:(lia)) as [x Hx].
      destruct (np_unique_spec l e x Hx) as (i & Hi & Hu). by exists i, x.
Qed.

Lemma uniq_of_same_value (n : nat) (v : GroupParameters.pvalue) (e1 e2 : nat) :
  GroupParameters.value_at v e1 = GroupParameters.value_at v e2 ->
  is_Some (GroupParameters.value_at v e1) ->
  snd (GroupParameters.uniq_of n v) !! e1 = snd (GroupParameters.uniq_of n v) !! e2 \/
  n <= e1 \/ n <= e2.
Proof.
  intros Heq [x Hx]. destruct v as [y|l]; cbn [GroupParameters.uniq_of GroupParameters.value_at] in *.
  - cbn [snd]. destruct (decide (e1 < n)); [|right; lia].
    destruct (decide (e2 < n)); [|right; lia].
    left. by rewrite !lookup_replicate_2.
  - left. unfold GroupParameters.np_unique. cbn [snd].
    rewrite !list_lookup_fmap, <- Heq. done.
Qed.

Lemma select_elements_lookup (n : nat)
    (uniq : list (string * (list Qc * list nat))) :
  Forall (fun u => length (snd (snd u)) = n) uniq ->
  forall (indices : list nat) (mask0 : list bool) (e : nat),
    length indices = length uniq -> length mask0 = n ->
    foldl (fun elem_indices (ki : string * (list Qc * list nat) * nat) =>
             zip_with andb elem_indices
               (map (fun u => u =? snd ki) (snd (snd (fst ki)))))
          mask0 (zip uniq indices) !! e
    = (fun b => b && bool_decide (code_of uniq e = map Some indices)) <$> mask0 !! e.
Proof.
  induction 1 as [|u uniq Hu _ IH]; intros [|i indices] mask0 e Hli Hm;
    simpl in Hli; try lia.
  - cbn. destruct (mask0 !! e) as [b|]; [|done]. cbn. by rewrite andb_true_r.
  - cbn [zip zip_with foldl fst snd].
    rewrite IH by (rewrite ?length_zip_with, ?length_map; lia).
    rewrite lookup_zip_with, list_lookup_fmap.
    destruct (mask0 !! e) as [b|] eqn:Hb; [|done]. cbn.
    apply lookup_lt_Some in Hb as Hlt.
    destruct (lookup_lt_is_Some_2 (snd (snd u)) e ltac:(lia)) as [x Hx].
    rewrite Hx. cbn. f_equal. rewrite <- andb_assoc. f_equal.
    unfold code_of. cbn [map]. rewrite ?Hx.
    fold (code_of uniq e).
    destruct (x =? i) eqn:Hxi.
    + apply Nat.eqb_eq in Hxi as ->. cbn.
      apply bool_decide_ext. split; [by intros ->|by intros [= ->]].
    + cbn. symmetry. apply bool_decide_eq_false_2. intros [= -> _].
      by rewrite Nat.eqb_refl in Hxi.
Qed.

Lemma np_where_from_spec (mask : list bool) :
  forall s, NoDup (np_where_from s mask) /\
    forall e, e ∈ np_where_from s mask <-> exists j, e = s + j /\ mask !! j = Some true.
Proof.
  induction mask as [|b mask IH]; intros s; cbn [np_where_from].
  - split; [constructor|]. intros e. split; [by intros ?%elem_of_nil|].
    by intros (j & _ & ?).
  - destruct (IH (S s)) as [Hnd Hel].
    assert (forall e, e ∈ np_where_from (S s) mask <->
                      exists j, e = s + S j /\ (b :: mask) !! S j = Some true) as Hel'.
    { intros e. rewrite Hel. split; intros (j & -> & Hj); exists j; split; (lia || done). }
    destruct b.
    + split.
      * constructor; [|done]. rewrite Hel. intros (j & ? & _). lia.
      * intros e. rewrite elem_of_cons, Hel'. split.
        -- intros [->|(j & -> & Hj)]; [exists 0; split; [lia|done]|by exists (S j)].
        -- intros ([|j] & -> & Hj); [left; lia|right; by exists j].
    + split; [done|]. intros e. rewrite Hel'. split.
      * intros (j & -> & Hj). by exists (S j).
      * intros ([|j] & -> & Hj); [done|by exists j].
Qed.

Lemma zip_fmap_self {A B} (g : A -> B) (l : list A) :
  zip l (map g l) = map (fun a => (a, g a)) l.
Proof. induction l as [|a l IH]; [done|]. cbn. by rewrite IH. Qed.

Lemma omap_Some_id {A} (l : list A) : omap (fun g => g) (map Some l) = l.
Proof. induction l as [|a l IH]; [done|]. cbn. by rewrite IH. Qed.

Lemma mapM_getitem_default (us : list (string * (list Qc * list nat))) (e : nat) :
  Forall (fun u => e < length (snd (snd u))) us ->
  mapM (fun u : string * (list Qc * list nat) =>
          py_getitem (snd (snd u)) (Z.of_nat e)) us
  = Ok (map (fun u : string * (list Qc * list nat) =>
               default 0 (snd (snd u) !! e)) us).
Proof.
  induction 1 as [|u us Hu _ IHu]; [done|]. cbn [mapM map].
  destruct (lookup_lt_is_Some_2 (snd (snd u)) e Hu) as [i Hi].
  rewrite (py_getitem_nat _ _ _ Hi), Hi, IHu. done.
Qed.

Section GroupingFacts.

Variable set_iter : list (list nat) -> list (list nat).
Hypothesis Hset : forall l, set_iter l ≡ₚ remove_dups l.

Variable parameters : gmap string GroupParameters.pvalue.
Variable n : nat.
Hypothesis Hseq : forall k l,
  parameters !! k = Some (GroupParameters.Sequence l) -> length l = n.

Local Abbreviation the_table := (uniq_table parameters n).
Local Abbreviation code_at := (num_code parameters n).
Local Abbreviation is_group := (group_for parameters n).

Lemma uniq_table_elem u :
  u ∈ the_table ->
  exists v, parameters !! fst u = Some v /\ snd u = GroupParameters.uniq_of n v /\
            forall l, v = GroupParameters.Sequence l -> length l = n.
Proof.
  unfold the_table. intros ([k v] & -> & Hkv)%list_elem_of_fmap.
  apply elem_of_map_to_list in Hkv. exists v. cbn. split; [done|]. split; [done|].
  intros l ->. by eapply Hseq.
Qed.

Lemma uniq_table_lengths :
  Forall (fun u => length (snd (snd u)) = n) the_table.
Proof.
  apply Forall_forall. intros u (v & _ & -> & Hl)%uniq_table_elem.
  destruct v as [x|l]; cbn.
  - by rewrite length_replicate.
  - rewrite length_map. by apply Hl.
Qed.

Lemma code_of_num_code (e : nat) :
  e < n -> code_of the_table e = map Some (code_at e).
Proof.
  intros He. unfold code_of, code_at. rewrite map_map. apply map_ext_in.
  intros u Hu%list_elem_of_In.
  pose proof (proj1 (Forall_forall _ _) uniq_table_lengths u Hu) as Hl. cbn in Hl.
  destruct (lookup_lt_is_Some_2 (snd (snd u)) e ltac:(lia)) as [i Hi].
  by rewrite Hi.
Qed.

Lemma combs_run :
  mapM (fun i =>
          mapM (fun u : string * (list Qc * list nat) =>
                  py_getitem (snd (snd u)) (Z.of_nat i)) the_table)
       (seq 0 n) = Ok (map code_at (seq 0 n)).
Proof.
  assert (forall l, Forall (fun e => e < n) l ->
            mapM (fun i =>
                    mapM (fun u : string * (list Qc * list nat) =>
                            py_getitem (snd (snd u)) (Z.of_nat i)) the_table) l
            = Ok (map code_at l)) as H.
  { induction 1 as [|e l He _ IH]; [done|]. cbn [mapM map]. rewrite IH.
    assert (mapM (fun u : string * (list Qc * list nat) =>
                    py_getitem (snd (snd u)) (Z.of_nat e)) the_table
            = Ok (code_at e)) as ->; [|done].
    apply mapM_getitem_default. eapply Forall_impl; [apply uniq_table_lengths|].
    intros u Hu. cbn in *. lia. }
  apply H. apply Forall_forall. intros e He%elem_of_seq. lia.
Qed.

Lemma select_elements_spec (c : list nat) (e : nat) :
  length c = length the_table ->
  GroupParameters.select_elements n the_table c !! e =
    if decide (e < n) then Some (bool_decide (code_of the_table e = map Some c))
    else None.
Proof.
  intros Hc. unfold GroupParameters.select_elements.
  rewrite (select_elements_lookup n the_table uniq_table_lengths c)
    by (rewrite ?length_replicate; done).
  case_decide as He.
  - by rewrite lookup_replicate_2.
  - assert (replicate n true !! e = None) as ->; [|done].
    apply lookup_ge_None_2. rewrite length_replicate. lia.
Qed.

Lemma map_eq_elem {A B} (f g : A -> B) (l : list A) (x : A) :
  map f l = map g l -> x ∈ l -> f x = g x.
Proof.
  induction l as [|a l IH]; [by intros _ ?%elem_of_nil|].
  cbn. intros [= Ha Hl] [->|Hx]%elem_of_cons; [done|by apply IH].
Qed.

Lemma group_values_run (e0 : nat) :
  e0 < n ->
  exists vals,
    GroupParameters.group_values the_table (code_at e0) = Ok vals /\
    forall e k v, e < n -> code_of the_table e = map Some (code_at e0) ->
      parameters !! k = Some v ->
      exists x, GroupParameters.value_at v e = Some x /\
                vals !! k = Some (GroupParameters.Scalar x).
Proof.
  intros He0. unfold GroupParameters.group_values.
  set (g := fun u : string * (list Qc * list nat) =>
              (fst u, GroupParameters.Scalar
                        (default (Q2Qc 0)
                           (fst (snd u) !! default 0 (snd (snd u) !! e0))))).
  assert (mapM (fun ki : string * (list Qc * list nat) * nat =>
                  v ← py_getitem (fst (snd (fst ki))) (Z.of_nat (snd ki));
                  Ok (fst (fst ki), GroupParameters.Scalar v))
               (zip the_table (code_at e0)) = Ok (map g the_table)) as ->.
  { unfold num_code. rewrite zip_fmap_self.
    assert (forall us : list (string * (list Qc * list nat)),
              Forall (fun u => u ∈ the_table) us ->
              mapM (fun ki : string * (list Qc * list nat) * nat =>
                      v ← py_getitem (fst (snd (fst ki))) (Z.of_nat (snd ki));
                      Ok (fst (fst ki), GroupParameters.Scalar v))
                   (map (fun a => (a, default 0 (snd (snd a) !! e0))) us)
              = Ok (map g us)) as H.
    { induction 1 as [|u us Hu _ IH]; [done|]. cbn [map mapM fst snd]. rewrite IH.
      destruct (uniq_table_elem u Hu) as (v & Hv & Hsu & Hl).
      destruct (uniq_of_spec n v e0 Hl He0) as (_ & i & x & Hi & Hx & _).
      rewrite <- Hsu in Hi, Hx. rewrite Hi. cbn [default]. unfold Datatypes.id.
      rewrite (py_getitem_nat _ _ _ Hx). cbn [mbind result_bind mret result_ret].
      unfold g. cbn [fst snd]. rewrite Hi. cbn [default]. unfold Datatypes.id.
      by rewrite Hx. }
    apply H. by apply Forall_forall. }
  cbn [mbind result_bind]. eexists. split; [reflexivity|].
  intros e k v He Hcode Hk.
  assert ((k, GroupParameters.uniq_of n v) ∈ the_table) as Hu.
  { unfold uniq_table. apply list_elem_of_fmap. exists (k, v).
    split; [done|]. by apply elem_of_map_to_list. }
  assert (forall l, v = GroupParameters.Sequence l -> length l = n) as Hl.
  { intros l ->. by eapply Hseq. }
  destruct (uniq_of_spec n v e Hl He) as (_ & i & x & Hi & Hx & Hval).
  exists x. split; [done|].
  unfold code_of, num_code in Hcode. rewrite map_map in Hcode.
  pose proof (map_eq_elem _ _ _ _ Hcode Hu) as Hc. cbn in Hc.
  apply elem_of_list_to_map_1.
  - rewrite map_map. cbn. unfold uniq_table. rewrite map_map. cbn.
    apply NoDup_fst_map_to_list.
  - apply list_elem_of_fmap. exists (k, GroupParameters.uniq_of n v).
    split; [|done]. rewrite Hi in Hc. injection Hc as Hc.
    unfold g. cbn [fst snd]. by rewrite <- Hc, Hx.
Qed.

Lemma filter_true_pos (mask : list bool) (e : nat) :
  mask !! e = Some true -> 0 < length (List.filter (fun b : bool => b) mask).
Proof.
  revert e. induction mask as [|b mask IH]; intros e He; [done|].
  cbn [List.filter]. destruct b; cbn [length]; [lia|].
  destruct e as [|e]; [done|]. by eapply IH.
Qed.

Lemma group_run (c : list nat) :
  c ∈ map code_at (seq 0 n) ->
  exists g,
    (let elem_indices := GroupParameters.select_elements n the_table c in
     if 0 <? length (List.filter (fun b : bool => b) elem_indices)
     then
       vals ← GroupParameters.group_values the_table c;
       Ok (Some {| GroupParameters.elem_indices := np_where elem_indices;
                   GroupParameters.values := vals |})
     else Ok None) = Ok (Some g) /\
    is_group c g.
Proof.
  intros (e0 & -> & He0%elem_of_seq)%list_elem_of_fmap. cbn zeta.
  assert (length (code_at e0) = length the_table) as Hlc.
  { unfold num_code. by rewrite length_map. }
  pose proof (select_elements_spec (code_at e0)) as Hsel.
  assert (GroupParameters.select_elements n the_table (code_at e0) !! e0 = Some true)
    as Htrue.
  { rewrite (Hsel e0 Hlc), decide_True by lia. f_equal.
    apply bool_decide_eq_true_2. apply code_of_num_code. lia. }
  rewrite (proj2 (Nat.ltb_lt _ _) (filter_true_pos _ _ Htrue)).
  destruct (group_values_run e0 ltac:(lia)) as (vals & -> & Hvals).
  cbn [mbind result_bind]. eexists. split; [reflexivity|].
  destruct (np_where_from_spec
              (GroupParameters.select_elements n the_table (code_at e0)) 0)
    as [Hnd Hel].
  assert (forall e,
    e ∈ np_where (GroupParameters.select_elements n the_table (code_at e0)) <->
    e < n /\ code_of the_table e = map Some (code_at e0)) as Hiff.
  { intros e. unfold np_where. rewrite Hel. split.
    - intros (j & -> & Hj). cbn [Nat.add]. rewrite (Hsel j Hlc) in Hj.
      case_decide; [|done]. injection Hj as Hj. split; [done|].
      by apply bool_decide_eq_true_1 in Hj.
    - intros [He Hc]. exists e. split; [done|]. rewrite (Hsel e Hlc), decide_True by done.
      f_equal. by apply bool_decide_eq_true_2. }
  split; [exact Hnd|]. split; [exact Hiff|]. cbn [GroupParameters.elem_indices
    GroupParameters.values]. intros e k v [He Hc]%Hiff Hk. by eapply Hvals.
Qed.

Lemma code_of_same_values (e1 e2 : nat) :
  e1 < n -> e2 < n ->
  (forall k v, parameters !! k = Some v ->
     GroupParameters.value_at v e1 = GroupParameters.value_at v e2) ->
  code_of the_table e2 = code_of the_table e1.
Proof.
  intros H1 H2 Hsame. unfold code_of. apply map_ext_in.
  intros u (v & Hv & Hu & Hl)%list_elem_of_In%uniq_table_elem. rewrite Hu.
  destruct (uniq_of_spec n v e1 Hl H1) as (_ & i & x & _ & _ & Hval).
  destruct (uniq_of_same_value n v e1 e2 (Hsame _ _ Hv) ltac:(by rewrite Hval))
    as [Heq|[?|?]]; [done|lia|lia].
Qed.

Lemma Forall2_Some_inv {A B} (P : A -> B -> Prop) (l : list A) (os : list (option B)) :
  Forall2 (fun a o => exists b, o = Some b /\ P a b) l os ->
  exists bs, os = map Some bs /\ Forall2 P l bs.
Proof.
  induction 1 as [|a o l os (b & -> & Hb) _ (bs & -> & IH)].
  - by exists [].
  - exists (b :: bs). split; [done|by constructor].
Qed.

Lemma elem_of_concat_2 {A} (x : A) (l : list A) (ls : list (list A)) :
  x ∈ l -> l ∈ ls -> x ∈ concat ls.
Proof.
  intros Hx. induction ls as [|l' ls IH]; [by intros ?%elem_of_nil|].
  cbn [concat]. rewrite elem_of_app. intros [->|Hl]%elem_of_cons; [by left|].
  right. by apply IH.
Qed.

Lemma groups_disjoint (cs : list (list nat)) (gs : list GroupParameters.group) :
  Forall2 is_group cs gs -> NoDup cs ->
  NoDup (concat (map GroupParameters.elem_indices gs)).
Proof.
  induction 1 as [|c g cs gs (Hnd & Hel & _) HF IH]; intros Hcs; [constructor|].
  apply NoDup_cons in Hcs as [Hc Hcs]. cbn [map concat].
  apply NoDup_app. split; [done|]. split; [|by apply IH].
  intros e He (l & Hl & (g' & -> & Hg')%list_elem_of_fmap)%elem_of_concat.
  apply list_elem_of_lookup_1 in Hg' as [i Hi].
  destruct (Forall2_lookup_r _ _ _ _ _ HF Hi) as (c' & Hc' & (_ & Hel' & _)).
  apply Hel in He as [_ He]. apply Hel' in Hl as [_ Hl].
  rewrite He in Hl. apply (inj (map Some)) in Hl. subst c'.
  apply Hc. by eapply list_elem_of_lookup_2.
Qed.

Lemma grouping_main :
  exists gs,
    (groups ← mapM (fun indices =>
                      let elem_indices :=
                        GroupParameters.select_elements n the_table indices in
                      if 0 <? length (List.filter (fun b : bool => b) elem_indices)
                      then
                        vals ← GroupParameters.group_values the_table indices;
                        Ok (Some {| GroupParameters.elem_indices := np_where elem_indices;
                                    GroupParameters.values := vals |})
                      else Ok None)
                   (set_iter (map code_at (seq 0 n)));
     Ok (omap (fun g => g) groups)) = Ok gs /\
    concat (map GroupParameters.elem_indices gs) ≡ₚ seq 0 n /\
    (forall g e k v, g ∈ gs -> e ∈ GroupParameters.elem_indices g ->
       parameters !! k = Some v ->
       exists x, GroupParameters.value_at v e = Some x /\
                 GroupParameters.values g !! k = Some (GroupParameters.Scalar x)) /\
    (forall g e1 e2, g ∈ gs -> e1 ∈ GroupParameters.elem_indices g -> e2 < n ->
       (forall k v, parameters !! k = Some v ->
          GroupParameters.value_at v e1 = GroupParameters.value_at v e2) ->
       e2 ∈ GroupParameters.elem_indices g).
Proof.
  set (cs := set_iter (map code_at (seq 0 n))).
  assert (forall c, c ∈ cs <-> c ∈ map code_at (seq 0 n)) as Hcs.
  { intros c. unfold cs. by rewrite Hset, elem_of_remove_dups. }
  assert (NoDup cs) as Hnd.
  { unfold cs. rewrite Hset. apply NoDup_remove_dups. }
  destruct (mapM_result_Forall2
              (fun indices =>
                 let elem_indices :=
                   GroupParameters.select_elements n the_table indices in
                 if 0 <? length (List.filter (fun b : bool => b) elem_indices)
                 then
                   vals ← GroupParameters.group_values the_table indices;
                   Ok (Some {| GroupParameters.elem_indices := np_where elem_indices;
                               GroupParameters.values := vals |})
                 else Ok None)
              (fun c og => exists g, og = Some g /\ is_group c g) cs)
    as (ogs & Hrun & HF).
  { intros c Hc. destruct (group_run c (proj1 (Hcs c) Hc)) as (g & Hg & HP).
    exists (Some g). split; [exact Hg|]. by exists g. }
  destruct (Forall2_Some_inv _ _ _ HF) as (gs & -> & HF').
  exists gs. rewrite Hrun. cbn [mbind result_bind]. rewrite omap_Some_id.
  split; [done|].
  assert (forall g, g ∈ gs -> exists c, c ∈ cs /\ is_group c g) as Hg.
  { intros g [i Hi]%list_elem_of_lookup_1.
    destruct (Forall2_lookup_r _ _ _ _ _ HF' Hi) as (c & Hc & HP).
    exists c. split; [by eapply list_elem_of_lookup_2|done]. }
  split; [|split].
  - apply NoDup_Permutation; [by apply (groups_disjoint cs)|apply NoDup_seq|].
    intros e. rewrite elem_of_seq. split.
    + intros (l & Hl & (g & -> & Hgin)%list_elem_of_fmap)%elem_of_concat.
      destruct (Hg g Hgin) as (c & _ & (_ & Hel & _)). apply Hel in Hl. lia.
    + intros [_ He]. cbn in He.
      assert (code_at e ∈ cs) as [i Hi]%list_elem_of_lookup_1.
      { apply Hcs. apply list_elem_of_fmap. exists e. split; [done|].
        apply elem_of_seq. lia. }
      destruct (Forall2_lookup_l _ _ _ _ _ HF' Hi) as (g & Hgi & (_ & Hel & _)).
      apply (elem_of_concat_2 e (GroupParameters.elem_indices g)).
      * apply Hel. split; [done|]. by apply code_of_num_code.
      * apply list_elem_of_fmap. exists g. split; [done|].
        by eapply list_elem_of_lookup_2.
  - intros g e k v Hgin He Hk. destruct (Hg g Hgin) as (c & _ & (_ & _ & Hv)).
    by eapply Hv.
  - intros g e1 e2 Hgin He1 He2 Hsame.
    destruct (Hg g Hgin) as (c & _ & (_ & Hel & _)).
    apply Hel in He1 as [He1 Hc]. apply Hel. split; [done|].
    rewrite <- Hc. by apply code_of_same_values.
Qed.

End GroupingFacts.

Lemma all_num_elements_elem (parameters : gmap string GroupParameters.pvalue) (m : nat) :
  m ∈ omap (fun kv : string * GroupParameters.pvalue =>
              match snd kv with
              | GroupParameters.Sequence l => Some (length l)
              | GroupParameters.Scalar _ => None
              end) (map_to_list parameters)
  <-> exists k l, parameters !! k = Some (GroupParameters.Sequence l) /\ length l = m.
Proof.
  rewrite list_elem_of_omap. split.
  - intros ([k [x|l]] & Hin & Hm); [done|]. cbn in Hm. injection Hm as <-.
    exists k, l. split; [|done]. by apply elem_of_map_to_list.
  - intros (k & l & Hk & <-). exists (k, GroupParameters.Sequence l).
    split; [|done]. by apply elem_of_map_to_list.
Qed.

Lemma existsb_ne_false (n : nat) (l : list nat) :
  (forall m, m ∈ l -> m = n) ->
  existsb (fun num_elems => negb (n =? num_elems)) l = false.
Proof.
  induction l as [|m l IH]; intros H; [done|]. cbn [existsb].
  rewrite (H m ltac:(by left)), Nat.eqb_refl. cbn. apply IH.
  intros m' Hm'. apply H. by right.
Qed.

Lemma existsb_ne_true (n m : nat) (l : list nat) :
  m ∈ l -> m <> n ->
  existsb (fun num_elems => negb (n =? num_elems)) l = true.
Proof.
  intros Hm Hne. apply existsb_exists. exists m. split; [by apply list_elem_of_In|].
  apply negb_true_iff, Nat.eqb_neq. done.
Qed.

(** X21.  [group_identical_parameters] sorts the elements into groups: the
    index arrays it yields hold every element index [0..n-1] exactly once,
    the dictionary yielded with a group gives, for every parameter, the
    value that each element of the group has, and an element that agrees
    with a member of a group on every parameter is in that group.  This
    holds in whatever order the set of combinations is iterated.  Sequences
    of different lengths give [ValueError]; without any sequence and without
    [num_elements] the single group is element [0] with the parameters
    themselves. *)
Theorem group_identical_parameters_partition
    (set_iter : list (list nat) -> list (list nat))
    (parameters : gmap string GroupParameters.pvalue) (num_elements : option nat) :
  (forall l, set_iter l ≡ₚ remove_dups l) ->
  let run := GroupParameters.group_identical_parameters set_iter parameters in
  ((forall k v, parameters !! k = Some v -> exists x, v = GroupParameters.Scalar x) ->
   run None = Ok [{| GroupParameters.elem_indices := [0];
                     GroupParameters.values := parameters |}]) /\
  (forall k1 l1 k2 l2,
     parameters !! k1 = Some (GroupParameters.Sequence l1) ->
     parameters !! k2 = Some (GroupParameters.Sequence l2) ->
     length l1 <> length l2 ->
     run num_elements = Err ValueError) /\
  (forall n,
     (forall k l, parameters !! k = Some (GroupParameters.Sequence l) -> length l = n) ->
     num_elements = Some n \/
       (num_elements = None /\
        exists k l, parameters !! k = Some (GroupParameters.Sequence l)) ->
     exists groups,
       run num_elements = Ok groups /\
       concat (map GroupParameters.elem_indices groups) ≡ₚ seq 0 n /\
       (forall g e k v, g ∈ groups -> e ∈ GroupParameters.elem_indices g ->
          parameters !! k = Some v ->
          exists x, GroupParameters.value_at v e = Some x /\
                    GroupParameters.values g !! k = Some (GroupParameters.Scalar x)) /\
       (forall g e1 e2, g ∈ groups -> e1 ∈ GroupParameters.elem_indices g -> e2 < n ->
          (forall k v, parameters !! k = Some v ->
             GroupParameters.value_at v e1 = GroupParameters.value_at v e2) ->
          e2 ∈ GroupParameters.elem_indices g)).
Proof.
  intros Hset run. unfold run, GroupParameters.group_identical_parameters.
  pose proof (all_num_elements_elem parameters) as Hall.
  set (all := omap _ (map_to_list parameters)) in *.
  split; [|split].
  - intros Hscalar. destruct all as [|m rest] eqn:Ha; [done|].
    destruct (proj1 (Hall m) ltac:(by left)) as (k & l & Hk & _).
    by destruct (Hscalar k _ Hk).
  - intros k1 l1 k2 l2 H1 H2 Hne.
    assert (length l1 ∈ all) as Hin1 by (apply Hall; by exists k1, l1).
    assert (length l2 ∈ all) as Hin2 by (apply Hall; by exists k2, l2).
    assert (forall n0, existsb (fun num_elems => negb (n0 =? num_elems)) all = true)
      as Hex.
    { intros n0. destruct (decide (length l1 = n0)) as [<-|Hn].
      - by apply (existsb_ne_true _ (length l2)).
      - by apply (existsb_ne_true _ (length l1)). }
    destruct num_elements as [n0|].
    + destruct all; cbn [mbind result_bind]; by rewrite Hex.
    + destruct all as [|m rest] eqn:Ha; [by apply elem_of_nil in Hin1|].
      rewrite <- Ha in *. assert (py_getitem all 0 = Ok m) as -> by (by rewrite Ha).
      cbn [mbind result_bind]. by rewrite Hex.
  - intros n Hseq Hnum.
    assert (forall m, m ∈ all -> m = n) as Hn.
    { intros m (k & l & Hk & <-)%Hall. by eapply Hseq. }
    destruct (grouping_main set_iter Hset parameters n Hseq) as (gs & Hrun & Hrest).
    exists gs. split; [|exact Hrest].
    assert ((if existsb (fun num_elems => negb (n =? num_elems)) all
             then Err ValueError
             else
               let uniq := map (fun kv : string * GroupParameters.pvalue =>
                                  (fst kv, GroupParameters.uniq_of n (snd kv)))
                             (map_to_list parameters) in
               combs ← mapM (fun i =>
                               mapM (fun u : string * (list Qc * list nat) =>
                                       py_getitem (snd (snd u)) (Z.of_nat i)) uniq)
                            (seq 0 n);
               let uniq_combs := set_iter combs in
               groups ← mapM (fun indices =>
                                let elem_indices :=
                                  GroupParameters.select_elements n uniq indices in
                                if 0 <? length (List.filter (fun b : bool => b) elem_indices)
                                then
                                  vals ← GroupParameters.group_values uniq indices;
                                  Ok (Some {| GroupParameters.elem_indices :=
                                                np_where elem_indices;
                                              GroupParameters.values := vals |})
                                else Ok None)
                             uniq_combs;
               Ok (omap (fun g => g) groups)) = Ok gs) as Hbody.
    { rewrite (existsb_ne_false n all Hn). cbn zeta.
      fold (uniq_table parameters n).
      rewrite (combs_run parameters n Hseq). cbn [mbind result_bind]. exact Hrun. }
    destruct Hnum as [->|(-> & k & l & Hk)].
    + destruct all; cbn [mbind result_bind]; exact Hbody.
    + destruct all as [|m rest] eqn:Ha.
      { assert (length l ∈ @nil nat) as Hin by (apply Hall; by exists k, l).
        by apply elem_of_nil in Hin. }
      rewrite <- Ha in *. assert (py_getitem all 0 = Ok m) as -> by (by rewrite Ha).
      cbn [mbind result_bind]. rewrite (Hn m) by (rewrite Ha; by left). exact Hbody.
Qed.

(** The example of the docstring. *)
Lemma group_identical_parameters_partition_witness :
  let parameters : gmap string GroupParameters.pvalue :=
    <["foo" := GroupParameters.Sequence [qz 1; qz 1; qz 2]]>
      (<["bar" := GroupParameters.Sequence [qz 2; qz 2; qz 4]]>
         (<["deadbeef" := GroupParameters.Scalar (qz 0)]> ∅)) in
  exists groups,
    GroupParameters.group_identical_parameters remove_dups parameters None = Ok groups /\
    concat (map GroupParameters.elem_indices groups) ≡ₚ seq 0 3.
Proof.
  intros parameters.
  destruct (proj2 (proj2 (group_identical_parameters_partition remove_dups parameters
                            None (fun l => reflexivity _))) 3)
    as (groups & Hrun & Hperm & _).
  - intros k l Hk. unfold parameters in Hk.
    apply lookup_insert_Some in Hk as [[_ [= <-]]|[_ Hk]]; [done|].
    apply lookup_insert_Some in Hk as [[_ [= <-]]|[_ Hk]]; [done|].
    apply lookup_insert_Some in Hk as [[_ [=]]|[_ Hk]].
    by rewrite lookup_empty in Hk.
  - right. split; [done|]. exists "foo", [qz 1; qz 1; qz 2]. reflexivity.
  - exists groups. split; [exact Hrun|exact Hperm].
Defined.

(** ** [BoltzmannMachineBase.__init__] *)

Lemma mapM_result_length {A B} (f : A -> result B) (l : list A) (ys : list B) :
  mapM f l = Ok ys -> length ys = length l.
Proof.
  revert ys. induction l as [|x l IH]; intros ys; cbn [mapM].
  - by intros [= <-].
  - destruct (f x) as [y|e]; cbn [mbind result_bind]; [|done].
    destruct (mapM f l) as [ys'|e]; cbn [mbind result_bind]; [|done].
    intros [= <-]. cbn. f_equal. by apply IH.
Qed.

Lemma mapM_result_replicate {A B} (f : A -> result B) (x : A) (y : B) (k : nat) :
  f x = Ok y -> mapM f (replicate k x) = Ok (replicate k y).
Proof.
  intros Hf. induction k as [|k IH]; [done|]. cbn [replicate mapM].
  by rewrite Hf, IH.
Qed.

Lemma mapM_result_Err {A B} (f : A -> result B) (l1 l2 : list A) (x : A) (e : exn) :
  (forall a, a ∈ l1 -> exists b, f a = Ok b) -> f x = Err e ->
  mapM f (l1 ++ x :: l2) = Err e.
Proof.
  intros Hok Hx. induction l1 as [|a l1 IH]; cbn [app mapM].
  - by rewrite Hx.
  - destruct (Hok a ltac:(by left)) as [b ->]. cbn [mbind result_bind].
    rewrite IH; [done|]. intros a' Ha'. apply Hok. by right.
Qed.

(** X22.  [BoltzmannMachineBase.__init__] never compares the number of
    samplers it creates with [num_samplers]: with an index list or a list of
    database ids it creates one sampler per entry of that list.  A single
    parameter dictionary gives [num_samplers] equal samplers and makes it
    ignore an index list; a list of dictionaries without index list gives
    sampler [i] the [i]-th model and dictionary, ignores surplus
    dictionaries and raises [IndexError] when there are too few.
    Parameters without a model raise [ValueError], and neither parameters
    nor ids the plain [Exception]. *)
Theorem init_sampler_count {Params} (num_samplers : nat)
    (pynn_model : BMInit.model_arg) (neuron_parameters : BMInit.params_arg Params)
    (neuron_index_to_parameters : option (list Z))
    (neuron_parameters_db_ids : BMInit.ids_arg) :
  let run := BMInit.__init__ num_samplers in
  (forall ss,
     run pynn_model neuron_parameters neuron_index_to_parameters
       neuron_parameters_db_ids = BMInit.Created ss ->
     length ss =
       match neuron_parameters, neuron_index_to_parameters, neuron_parameters_db_ids with
       | BMInit.ParamsList _, Some idx, _ => length idx
       | BMInit.NoParams, _, BMInit.IdList ids => length ids
       | _, _, _ => num_samplers
       end) /\
  (forall name p,
     run (BMInit.ModelName name) (BMInit.OneParams p) neuron_index_to_parameters
       neuron_parameters_db_ids
     = BMInit.Created (replicate num_samplers (BMInit.FromParameters name p))) /\
  (forall names ps,
     num_samplers <= length names ->
     (num_samplers <= length ps ->
      exists ss,
        run (BMInit.ModelList names) (BMInit.ParamsList ps) None neuron_parameters_db_ids
          = BMInit.Created ss /\
        forall i, i < num_samplers ->
          exists m p, names !! i = Some m /\ ps !! i = Some p /\
                      ss !! i = Some (BMInit.FromParameters m p)) /\
     (length ps < num_samplers ->
      run (BMInit.ModelList names) (BMInit.ParamsList ps) None neuron_parameters_db_ids
        = BMInit.Raised IndexError)) /\
  (neuron_parameters <> BMInit.NoParams ->
   run BMInit.NoModel neuron_parameters neuron_index_to_parameters
     neuron_parameters_db_ids = BMInit.Raised ValueError) /\
  (exists msg,
     run pynn_model BMInit.NoParams neuron_index_to_parameters BMInit.NoIds
       = BMInit.RaisedException msg).
Proof.
  intros run. unfold run. split; [|split; [|split; [|split]]].
  - intros ss. unfold BMInit.__init__.
    destruct neuron_parameters as [|p|ps].
    + destruct pynn_model, neuron_parameters_db_ids; intros [= <-];
        by rewrite ?length_replicate, ?length_map.
    + destruct pynn_model; [done| |];
        (destruct (mapM _ _) as [ys|e] eqn:Hm; intros [= <-];
         apply mapM_result_length in Hm; rewrite length_replicate in Hm;
         by destruct neuron_index_to_parameters, neuron_parameters_db_ids).
    + destruct pynn_model; [done| |];
        (destruct (mapM _ _) as [ys|e] eqn:Hm; intros [= <-];
         apply mapM_result_length in Hm;
         destruct neuron_index_to_parameters; [done|];
         by rewrite length_map, length_seq in Hm).
  - intros name p. unfold BMInit.__init__. destruct num_samplers as [|k]; [done|].
    erewrite mapM_result_replicate; [done|]. reflexivity.
  - intros names ps Hn. unfold BMInit.__init__. split.
    + intros Hp.
      destruct (mapM_result_Forall2
                  (fun i => m ← py_getitem names i; p ← py_getitem ps i;
                            Ok (BMInit.FromParameters m p))
                  (fun i s => exists m p, names !! Z.to_nat i = Some m /\
                                ps !! Z.to_nat i = Some p /\
                                s = BMInit.FromParameters m p)
                  (map Z.of_nat (seq 0 num_samplers))) as (ss & Hrun & HF).
      { intros z (i & -> & Hi%elem_of_seq)%list_elem_of_fmap.
        destruct (lookup_lt_is_Some_2 names i ltac:(lia)) as [m Hm].
        destruct (lookup_lt_is_Some_2 ps i ltac:(lia)) as [p Hp'].
        rewrite (py_getitem_nat _ _ _ Hm), (py_getitem_nat _ _ _ Hp').
        cbn [mbind result_bind]. eexists. split; [reflexivity|].
        exists m, p. by rewrite Nat2Z.id. }
      exists ss. rewrite Hrun. split; [done|]. intros i Hi.
      assert (map Z.of_nat (seq 0 num_samplers) !! i = Some (Z.of_nat i)) as Hlk.
      { by rewrite list_lookup_fmap, lookup_seq_lt. }
      destruct (Forall2_lookup_l _ _ _ _ _ HF Hlk) as (s & Hs & m & p & Hm & Hp' & ->).
      rewrite Nat2Z.id in Hm, Hp'. by exists m, p.
    + intros Hp.
      replace num_samplers with (length ps + S (num_samplers - length ps - 1)) by lia.
      rewrite seq_app, map_app. cbn [seq map Nat.add].
      erewrite mapM_result_Err; [done| |].
      * intros z (i & -> & Hi%elem_of_seq)%list_elem_of_fmap.
        destruct (lookup_lt_is_Some_2 names i ltac:(lia)) as [m Hm].
        destruct (lookup_lt_is_Some_2 ps i ltac:(lia)) as [p Hp'].
        rewrite (py_getitem_nat _ _ _ Hm), (py_getitem_nat _ _ _ Hp').
        by eexists.
      * destruct (lookup_lt_is_Some_2 names (length ps) ltac:(lia)) as [m Hm].
        rewrite (py_getitem_nat _ _ _ Hm). cbn [mbind result_bind].
        by rewrite py_getitem_nat_ge.
  - intros Hne. by destruct neuron_parameters.
  - unfold BMInit.__init__. destruct pynn_model; by eexists.
Qed.

Lemma init_sampler_count_witness :
  BMInit.__init__ 3 (BMInit.ModelList ["a"; "b"; "c"]) (BMInit.ParamsList [10; 20])
    None BMInit.NoIds = BMInit.Raised IndexError /\
  exists ss,
    BMInit.__init__ 3 (BMInit.ModelList ["a"; "b"; "c"]) (BMInit.ParamsList [10; 20])
      (Some [0; 1; 1; 0; 0]%Z) BMInit.NoIds = BMInit.Created ss /\
    length ss = 5.
Proof.
  split.
  - apply (proj1 (proj2 (proj2 (init_sampler_count 3 (BMInit.ModelList ["a"; "b"; "c"])
                                  (BMInit.ParamsList [10; 20]) None BMInit.NoIds))));
      simpl; lia.
  - eexists. split; [reflexivity|].
    apply (proj1 (init_sampler_count 3 (BMInit.ModelList ["a"; "b"; "c"])
                    (BMInit.ParamsList [10; 20]) (Some [0; 1; 1; 0; 0]%Z)
                    BMInit.NoIds) _ eq_refl).
Defined.
